(** * Batiserv order tracking: the CSV import/merge engine

    A shallow embedding of the data-import part of the application's
    in-browser API module ([parseCSV], [parseFrenchDateString],
    [importData]) together with the user-creating operations [addUser]
    and [signup], and the properties of the specification that concern
    them.

    Conventions of the embedding.
    - A JavaScript string is the list of its UTF-16 code units.
    - The module-level arrays [users], [customers], [specialOptions] and
      the log of the writes made to localStorage form one explicit
      [Store] that every operation takes and returns.
    - An object found by [Array.prototype.find] and then mutated in place
      is updated at the index where it was found.
    - A thrown exception is a result of its own ([Threw]), returned with
      the store as it was when the exception left the function.
    - What the engine leaves to the host (Unicode case mapping, the time
      zone, [Date.parse] on free-form text) is a record [Host]; the two
      sources of fresh values ([crypto.randomUUID], the clock) are a
      record [World] read through a counter. *)

From Stdlib Require Import ZArith NArith Ascii String List Lia.
From stdpp Require Import base decidable option list gmap.

Local Open Scope N_scope.

(** ** Strings *)

Abbreviation jsstring := (list N).

(** A string literal of Basic Latin characters. *)
Definition js (s : string) : jsstring :=
  List.map N_of_ascii (list_ascii_of_string s).

Definition QUOTE : N := 34.
Definition COMMA : N := 44.
Definition LF : N := 10.
Definition CR : N := 13.
Definition BOM : N := 65279.

(** Truthiness of a string: only the empty string is falsy.  A property
    that is absent from an object reads as [undefined], which is falsy
    as well; the engine never tells the two apart, so a missing value is
    modelled by the empty string. *)
Definition truthy (s : jsstring) : bool :=
  match s with [] => false | _ :: _ => true end.

(** ECMAScript WhiteSpace and LineTerminator code points: what
    [String.prototype.trim] strips and what the regular-expression
    class [\s] matches. *)
Definition isWhiteSpace (c : N) : bool :=
  ((9 <=? c) && (c <=? 13)) || (c =? 32) || (c =? 160) || (c =? 5760)
  || ((8192 <=? c) && (c <=? 8202)) || (c =? 8232) || (c =? 8233)
  || (c =? 8239) || (c =? 8287) || (c =? 12288) || (c =? 65279).

Fixpoint trimStart (s : jsstring) : jsstring :=
  match s with
  | [] => []
  | c :: s' => if isWhiteSpace c then trimStart s' else s
  end.

Definition trimEnd (s : jsstring) : jsstring :=
  reverse (trimStart (reverse s)).

Definition trim (s : jsstring) : jsstring := trimEnd (trimStart s).

(** [s.split(sep)] for a one-unit separator: never the empty array. *)
Fixpoint split (sep : N) (s : jsstring) : list jsstring :=
  match s with
  | [] => [[]]
  | c :: s' =>
      if c =? sep then [] :: split sep s'
      else match split sep s' with
           | f :: fs => (c :: f) :: fs
           | [] => [[c]]
           end
  end.

(** [s.replace(/\r/g, '')]. *)
Definition removeCR (s : jsstring) : jsstring :=
  List.filter (fun c => negb (c =? CR)) s.

(** [h.replace(/^\uFEFF/, '')]. *)
Definition stripBOM (h : jsstring) : jsstring :=
  match h with
  | c :: h' => if c =? BOM then h' else h
  | [] => []
  end.

(** [s.replace(',', '')]: a string pattern replaces the first occurrence
    only. *)
Fixpoint removeFirstComma (s : jsstring) : jsstring :=
  match s with
  | [] => []
  | c :: s' => if c =? COMMA then s' else c :: removeFirstComma s'
  end.

(** [s.replace(/\s/g, '.')]. *)
Definition dotsForSpaces (s : jsstring) : jsstring :=
  List.map (fun c => if isWhiteSpace c then 46 else c) s.

(** ** The CSV parser *)

(** A parsed row: the object built from the header names. *)
Abbreviation Row := (gmap (list N) (list N)).

(** Reading an own property of a row, [undefined] read as the empty
    string.  The import reads eleven names, none of which the object
    inherits, so what it reads is an own property or [undefined]. *)
Definition rowGet (row : Row) (key : jsstring) : jsstring :=
  default [] (row !! key).

(** The character loop of [parseCSV] over what is left of one line:
    [row] holds the fields pushed so far, [currentField] and [inQuotes]
    are the loop variables.  A quote seen inside quotes and followed by
    a quote appends one quote and skips the second ([j++]). *)
Fixpoint scanLoop (row : list jsstring) (currentField : jsstring)
    (inQuotes : bool) (rest : jsstring)
    : list jsstring * jsstring * bool :=
  match rest with
  | [] => (row, currentField, inQuotes)
  | char :: rest' =>
      if char =? QUOTE then
        match rest' with
        | next :: rest'' =>
            if inQuotes && (next =? QUOTE)
            then scanLoop row (currentField ++ [QUOTE]) inQuotes rest''
            else scanLoop row currentField (negb inQuotes) rest'
        | [] => scanLoop row currentField (negb inQuotes) rest'
        end
      else if (char =? COMMA) && negb inQuotes
      then scanLoop (row ++ [currentField]) [] inQuotes rest'
      else scanLoop row (currentField ++ [char]) inQuotes rest'
  end.

(** The loop followed by [row.push(currentField)]. *)
Definition splitFields (line : jsstring) : list jsstring :=
  let '(row, currentField, _) := scanLoop [] [] false line in
  row ++ [currentField].

(** [row[index] ? row[index].trim() : ''] *)
Definition cell (row : list jsstring) (index : nat) : jsstring :=
  match row !! index with
  | Some f => if truthy f then trim f else []
  | None => []
  end.

(** The property name [__proto__]. *)
Definition PROTO : jsstring := js "__proto__".

(** [rowObject[header] = value] on the plain object of a row, whose
    own properties the map holds.  An assignment to [__proto__] goes
    to the setter that the object inherits from [Object.prototype]:
    the value is a string, which the setter ignores, so the object
    gets no property.  Every other name, inherited or not, becomes an
    own property (the other properties of [Object.prototype] are
    writable data properties). *)
Definition assignProperty (rowObject : Row) (header value : jsstring) : Row :=
  if decide (header = PROTO) then rowObject
  else <[header := value]> rowObject.

(** [headers.forEach((header, index) => rowObject[header] = ...)]: a
    later header of the same name overwrites the earlier one. *)
Fixpoint assignFields (rowObject : Row) (headers : list jsstring)
    (index : nat) (row : list jsstring) : Row :=
  match headers with
  | [] => rowObject
  | header :: headers' =>
      assignFields (assignProperty rowObject header (cell row index))
                   headers' (S index) row
  end.

Definition parseLine (headers : list jsstring) (line : jsstring) : Row :=
  assignFields ∅ headers 0%nat (splitFields line).

(** The loop over the lines after the header: blank lines are skipped. *)
Fixpoint parseLines (headers : list jsstring) (lines : list jsstring)
    : list Row :=
  match lines with
  | [] => []
  | l :: lines' =>
      if truthy (trim l) then parseLine headers l :: parseLines headers lines'
      else parseLines headers lines'
  end.

Definition parseHeaders (line0 : jsstring) : list jsstring :=
  List.map (fun h => stripBOM (trim h)) (split COMMA line0).

Definition parseCSV (csvText : jsstring) : list Row :=
  match split LF (removeCR csvText) with
  | [] => []
  | line0 :: lines => parseLines (parseHeaders line0) lines
  end.


(** ** Dates

    A time value is a number of milliseconds since the epoch, as in
    ECMAScript; the functions below are the abstract operations of the
    language specification under their own names. *)

Local Open Scope Z_scope.

Definition msPerDay : Z := 86400000.
Definition msPerHour : Z := 3600000.
Definition msPerMinute : Z := 60000.
Definition msPerSecond : Z := 1000.

Definition Day (t : Z) : Z := t / msPerDay.

Definition isLeapYear (y : Z) : bool :=
  ((y mod 4 =? 0) && negb (y mod 100 =? 0)) || (y mod 400 =? 0).

Definition DaysInYear (y : Z) : Z := if isLeapYear y then 366 else 365.

Definition DayFromYear (y : Z) : Z :=
  365 * (y - 1970) + (y - 1969) / 4 - (y - 1901) / 100 + (y - 1601) / 400.

(** The year of a day number: the largest [y] with
    [DayFromYear y <= d] (lemma [YearFromDay_spec]), computed through
    the 400-, 100- and 4-year cycles counted from 1 January 1601. *)
Definition YearFromDay (d : Z) : Z :=
  let d' := d + 134774 in
  let n400 := d' / 146097 in
  let r400 := d' mod 146097 in
  let n100 := Z.min (r400 / 36524) 3 in
  let r100 := r400 - n100 * 36524 in
  let n4 := r100 / 1461 in
  let r4 := r100 mod 1461 in
  let n1 := Z.min (r4 / 365) 3 in
  1601 + 400 * n400 + 100 * n100 + 4 * n4 + n1.

Definition YearFromTime (t : Z) : Z := YearFromDay (Day t).

Definition InLeapYear (t : Z) : Z :=
  if isLeapYear (YearFromTime t) then 1 else 0.

Definition DayWithinYear (t : Z) : Z :=
  Day t - DayFromYear (YearFromTime t).

(** Months are numbered from 0 (January) to 11. *)
Definition MonthFromTime (t : Z) : Z :=
  let d := DayWithinYear t in
  let leap := InLeapYear t in
  if d <? 31 then 0
  else if d <? 59 + leap then 1
  else if d <? 90 + leap then 2
  else if d <? 120 + leap then 3
  else if d <? 151 + leap then 4
  else if d <? 181 + leap then 5
  else if d <? 212 + leap then 6
  else if d <? 243 + leap then 7
  else if d <? 273 + leap then 8
  else if d <? 304 + leap then 9
  else if d <? 334 + leap then 10
  else 11.

Definition DateFromTime (t : Z) : Z :=
  let d := DayWithinYear t in
  let leap := InLeapYear t in
  match MonthFromTime t with
  | 0 => d + 1
  | 1 => d - 30
  | 2 => d - 58 - leap
  | 3 => d - 89 - leap
  | 4 => d - 119 - leap
  | 5 => d - 150 - leap
  | 6 => d - 180 - leap
  | 7 => d - 211 - leap
  | 8 => d - 242 - leap
  | 9 => d - 272 - leap
  | 10 => d - 303 - leap
  | _ => d - 333 - leap
  end.

Definition HourFromTime (t : Z) : Z := (t / msPerHour) mod 24.
Definition MinFromTime (t : Z) : Z := (t / msPerMinute) mod 60.
Definition SecFromTime (t : Z) : Z := (t / msPerSecond) mod 60.
Definition msFromTime (t : Z) : Z := t mod msPerSecond.

Definition MakeTime (hour min sec ms : Z) : Z :=
  hour * msPerHour + min * msPerMinute + sec * msPerSecond + ms.

(** Days before month [mn] (0 to 11) in a year that is leap or not. *)
Definition daysBeforeMonth (mn : Z) (leap : Z) : Z :=
  match mn with
  | 0 => 0
  | 1 => 31
  | 2 => 59 + leap
  | 3 => 90 + leap
  | 4 => 120 + leap
  | 5 => 151 + leap
  | 6 => 181 + leap
  | 7 => 212 + leap
  | 8 => 243 + leap
  | 9 => 273 + leap
  | 10 => 304 + leap
  | _ => 334 + leap
  end.

(** [MakeDay]: the month may lie outside 0..11 and the date outside the
    month; both carry over. *)
Definition MakeDay (year month date : Z) : Z :=
  let ym := year + month / 12 in
  let mn := month mod 12 in
  DayFromYear ym + daysBeforeMonth mn (if isLeapYear ym then 1 else 0)
  + date - 1.

Definition MakeDate (day time : Z) : Z := day * msPerDay + time.


(** [TimeClip]: [None] stands for NaN, the time value of an invalid
    date. *)
Definition TimeClip (time : Z) : option Z :=
  if Z.abs time >? 8640000000000000 then None else Some time.

(** [width] decimal digits of [n], zero padded, least significant
    last. *)
Fixpoint padDigits (width : nat) (n : Z) : jsstring :=
  match width with
  | O => []
  | S w => padDigits w (n / 10) ++ [(48 + Z.to_N (n mod 10))%N]
  end.

(** [Date.prototype.toISOString] of a valid time value: the fields are
    those of universal time; a year outside 0..9999 is written with a
    sign and six digits. *)
Definition toISOString (tv : Z) : jsstring :=
  let y := YearFromTime tv in
  let year :=
    if (0 <=? y) && (y <=? 9999) then padDigits 4 y
    else (if y <? 0 then js "-" else js "+") ++ padDigits 6 (Z.abs y) in
  year ++ js "-" ++ padDigits 2 (MonthFromTime tv + 1)
       ++ js "-" ++ padDigits 2 (DateFromTime tv)
       ++ js "T" ++ padDigits 2 (HourFromTime tv)
       ++ js ":" ++ padDigits 2 (MinFromTime tv)
       ++ js ":" ++ padDigits 2 (SecFromTime tv)
       ++ js "." ++ padDigits 3 (msFromTime tv) ++ js "Z".

Definition isDigit (c : N) : bool := ((48 <=? c) && (c <=? 57))%N.

(** [parseInt(s, 10)] on a string of decimal digits. *)
Definition parseInt (s : jsstring) : Z :=
  fold_left (fun acc c => 10 * acc + (Z.of_N c - 48)) s 0.

(** The groups captured by
    [/^(\d{2})\/(\d{2})\/(\d{4})(?: (\d{2}):(\d{2}):(\d{2}))?$/]:
    day, month, year, and the optional time of day. *)
Definition matchFrenchDate (s : jsstring)
    : option (jsstring * jsstring * jsstring
              * option (jsstring * jsstring * jsstring)) :=
  match s with
  | d1 :: d2 :: sl1 :: m1 :: m2 :: sl2 :: y1 :: y2 :: y3 :: y4 :: rest =>
      if isDigit d1 && isDigit d2 && (sl1 =? 47)%N
         && isDigit m1 && isDigit m2 && (sl2 =? 47)%N
         && isDigit y1 && isDigit y2 && isDigit y3 && isDigit y4
      then
        match rest with
        | [] => Some ([d1; d2], [m1; m2], [y1; y2; y3; y4], None)
        | [sp; h1; h2; c1; mi1; mi2; c2; s1; s2] =>
            if (sp =? 32)%N && isDigit h1 && isDigit h2 && (c1 =? 58)%N
               && isDigit mi1 && isDigit mi2 && (c2 =? 58)%N
               && isDigit s1 && isDigit s2
            then Some ([d1; d2], [m1; m2], [y1; y2; y3; y4],
                       Some ([h1; h2], [mi1; mi2], [s1; s2]))
            else None
        | _ => None
        end
      else None
  | _ => None
  end.

Local Close Scope Z_scope.

(** ** The host and the world *)

Definition asciiLower (c : N) : N :=
  if (65 <=? c) && (c <=? 90) then c + 32 else c.

Definition asciiUpper (c : N) : N :=
  if (97 <=? c) && (c <=? 122) then c - 32 else c.

(** What the engine takes from the JavaScript host.
    [toLowerCase]/[toUpperCase] are the Unicode case conversions of
    [String.prototype]; they are locale independent, so on Basic Latin
    text they are the familiar letter mapping ([toLowerCase_ascii]).
    [LocalTime] and [UTC] convert between universal and local time
    values in the host's time zone.  [DateParse] is [Date.parse], whose
    result on text that is not in the ISO format is implementation
    defined; [None] stands for NaN. *)
Record Host := {
  toLowerCase : jsstring -> jsstring;
  toUpperCase : jsstring -> jsstring;
  LocalTime : Z -> Z;
  UTC : Z -> Z;
  DateParse : jsstring -> option Z;
  toLowerCase_ascii :
    forall s, Forall (fun c => c < 128) s ->
              toLowerCase s = List.map asciiLower s
}.

(** The sources of fresh values: the [k]-th identifier drawn from
    [crypto.randomUUID] and the clock reading of the [k]-th draw
    ([new Date()], a valid time value). *)
Record World := {
  randomUUID : nat -> jsstring;
  now : nat -> Z
}.

Section DateParsing.

Context (H : Host).

(** [new Date(year, monthIndex, day, hours, minutes, seconds)]: the
    fields are local time; a year from 0 to 99 means 1900 + year. *)
Definition newDate (year monthIndex day hours minutes seconds : Z)
    : option Z :=
  let yr := if ((0 <=? year) && (year <=? 99))%Z then (1900 + year)%Z
            else year in
  TimeClip (UTC H (MakeDate (MakeDay yr monthIndex day)
                            (MakeTime hours minutes seconds 0))).

Definition getFullYear (tv : Z) : Z := YearFromTime (LocalTime H tv).
Definition getMonth (tv : Z) : Z := MonthFromTime (LocalTime H tv).
Definition getDate (tv : Z) : Z := DateFromTime (LocalTime H tv).

(** [parseFrenchDateString]: the time value of the parsed date, or
    [None] for [null].  The warnings written to the console are not
    modelled. *)
Definition parseFrenchDateString (dateString : jsstring) : option Z :=
  if negb (truthy dateString) then None
  else
    let cleanedDateString := removeFirstComma dateString in
    match matchFrenchDate cleanedDateString with
    | None =>
        (* fallbackDate = new Date(dateString) *)
        DateParse H dateString
    | Some (p1, p2, p3, time) =>
        let day := parseInt p1 in
        let month := parseInt p2 in
        let year := parseInt p3 in
        let hours := match time with Some (p4, _, _) => parseInt p4 | None => 0%Z end in
        let minutes := match time with Some (_, p5, _) => parseInt p5 | None => 0%Z end in
        let seconds := match time with Some (_, _, p6) => parseInt p6 | None => 0%Z end in
        match newDate year (month - 1) day hours minutes seconds with
        | None => None   (* every getter is NaN, and NaN !== n *)
        | Some date =>
            if negb (getFullYear date =? year)%Z
               || negb (getMonth date =? month - 1)%Z
               || negb (getDate date =? day)%Z
            then None
            else Some date
        end
    end.

End DateParsing.

(** A host for running the engine on Basic Latin text in the UTC time
    zone.  Its [Date.parse] recognises nothing: the evaluations made on
    this host never reach the generic fallback. *)
Definition asciiHost : Host :=
  {| toLowerCase := List.map asciiLower;
     toUpperCase := List.map asciiUpper;
     LocalTime := fun t => t;
     UTC := fun t => t;
     DateParse := fun _ => None;
     toLowerCase_ascii := fun s _ => eq_refl |}.


(** ** The data model *)

Inductive UserRole := Admin | Editor | Viewer.

(** [UserWithPassword]; a [User] as returned to callers has no
    password. *)
Record User := {
  user_id : jsstring;
  user_name : jsstring;
  user_email : jsstring;
  user_role : UserRole;
  user_password : option jsstring
}.

Record OrderPart := {
  part_number : jsstring;
  part_isSent : bool;
  part_creationDate : jsstring;
  part_userId : jsstring;
  part_userName : jsstring;
  part_notes : option jsstring
}.

Record Order := {
  order_id : jsstring;
  frames : option OrderPart;
  doors : option OrderPart
}.

Record UploadedFile := {
  file_id : jsstring;
  file_name : jsstring;
  file_type : jsstring
}.

Record ConstructionSite := {
  site_id : jsstring;
  site_name : jsstring;
  generalInfo : jsstring;
  generalInfoFiles : list UploadedFile;
  orders : list Order
}.

Record Customer := {
  customer_id : jsstring;
  customer_name : jsstring;
  sites : list ConstructionSite;
  customer_notes : jsstring
}.

Record SpecialOption := {
  option_id : jsstring;
  option_name : jsstring;
  option_details : jsstring;
  option_files : list UploadedFile
}.

(** One [localStorage.setItem(key, JSON.stringify(value))]: the key is
    told by the constructor. *)
Inductive StorageWrite :=
  | WriteUsers (doc : list User)
  | WriteCustomers (doc : list Customer)
  | WriteOptions (doc : list SpecialOption).

(** The module state: the three arrays, and the writes made to
    localStorage, latest first.  (A write that fails is caught and
    logged by the source; writes are taken to succeed.) *)
Record Store := {
  users : list User;
  customers : list Customer;
  specialOptions : list SpecialOption;
  storageWrites : list StorageWrite
}.

Definition saveUsers (st : Store) : Store :=
  {| users := users st; customers := customers st;
     specialOptions := specialOptions st;
     storageWrites := WriteUsers (users st) :: storageWrites st |}.

Definition saveCustomers (st : Store) : Store :=
  {| users := users st; customers := customers st;
     specialOptions := specialOptions st;
     storageWrites := WriteCustomers (customers st) :: storageWrites st |}.

(** The outcome of a call: the value it resolves to, or the exception
    it throws. *)
Inductive Exn :=
  | NameTaken       (* "Un utilisateur avec ce nom existe deja." *)
  | EmailTaken      (* "Un utilisateur avec cet email existe deja." *)
  | CsvEmpty.       (* "Le fichier CSV est vide ou mal formate." *)

Inductive Outcome (A : Type) :=
  | Returned (value : A)
  | Threw (e : Exn).
Arguments Returned {A} value.
Arguments Threw {A} e.

(** The user without its password, as every call returns it. *)
Definition withoutPassword (u : User) : User :=
  {| user_id := user_id u; user_name := user_name u;
     user_email := user_email u; user_role := user_role u;
     user_password := None |}.

(** Record updates of the fields that the import writes. *)
Definition setGeneralInfo (s : ConstructionSite) (info : jsstring) :=
  {| site_id := site_id s; site_name := site_name s; generalInfo := info;
     generalInfoFiles := generalInfoFiles s; orders := orders s |}.

Definition setOrders (s : ConstructionSite) (os : list Order) :=
  {| site_id := site_id s; site_name := site_name s;
     generalInfo := generalInfo s;
     generalInfoFiles := generalInfoFiles s; orders := os |}.

Definition setNotes (c : Customer) (notes : jsstring) :=
  {| customer_id := customer_id c; customer_name := customer_name c;
     sites := sites c; customer_notes := notes |}.

Definition setSites (c : Customer) (ss : list ConstructionSite) :=
  {| customer_id := customer_id c; customer_name := customer_name c;
     sites := ss; customer_notes := customer_notes c |}.

(** The key of an order part inside an order. *)
Inductive PartType := Frames | Doors.

Definition partOf (partType : PartType) (o : Order) : option OrderPart :=
  match partType with Frames => frames o | Doors => doors o end.

(** The literal ['Envoyée']. *)
Definition ENVOYEE : jsstring := js "Envoy" ++ [233] ++ js "e".

(** ** The import engine *)

Section Engine.

Context (H : Host) (W : World).

(** Two names that [toLowerCase] makes equal. *)
Definition sameName (a b : jsstring) : Prop :=
  toLowerCase H a = toLowerCase H b.

#[global] Instance sameName_dec a b : Decision (sameName a b).
Proof. unfold sameName. apply _. Defined.

(** [charAt(0).toUpperCase() + slice(1).toLowerCase()]. *)
Definition formatRole (providedRole : jsstring) : jsstring :=
  toUpperCase H (take 1 providedRole) ++ toLowerCase H (drop 1 providedRole).

(** The role given to a synthesized user (source lines 584-593). *)
Definition roleOf (UserRole_ : jsstring) : UserRole :=
  let providedRole := trim UserRole_ in
  if truthy providedRole then
    let formattedRole := formatRole providedRole in
    if decide (formattedRole = js "Admin") then Admin
    else if decide (formattedRole = js "Editor") then Editor
    else if decide (formattedRole = js "Viewer") then Viewer
    else Viewer
  else Viewer.

Definition newUserFor (row : Row) (tick : nat) : User :=
  let OrderAssignedUser := rowGet row (js "OrderAssignedUser") in
  {| user_id := randomUUID W tick;
     user_name := OrderAssignedUser;
     user_email :=
       dotsForSpaces (toLowerCase H OrderAssignedUser) ++ js "@example.com";
     user_role := roleOf (rowGet row (js "UserRole"));
     user_password := Some (js "password") |}.

(** Source lines 580-605: the user of the row, found by name or
    synthesized and pushed.  Returns the user list, the resolved user
    ([None] for [undefined]) and the next draw of the world. *)
Definition resolveUser (row : Row) (us : list User) (tick : nat)
    : list User * option User * nat :=
  let OrderAssignedUser := rowGet row (js "OrderAssignedUser") in
  if truthy OrderAssignedUser then
    match list_find (fun u => sameName (user_name u) OrderAssignedUser) us with
    | Some (_, u) => (us, Some u, tick)
    | None =>
        let newUser := newUserFor row tick in
        (us ++ [newUser], Some newUser, S tick)
    end
  else (us, None, tick).

Definition partTypeOf (OrderPart_ : jsstring) : option PartType :=
  if decide (toLowerCase H OrderPart_ = js "huisseries") then Some Frames
  else if decide (toLowerCase H OrderPart_ = js "portes") then Some Doors
  else None.

(** [site.orders.some(o => { const part = o[partType]; return part &&
    part.number === OrderNumber; })] *)
Definition orderExists (os : list Order) (partType : PartType)
    (OrderNumber : jsstring) : bool :=
  existsb (fun o => match partOf partType o with
                    | Some part => bool_decide (part_number part = OrderNumber)
                    | None => false
                    end) os.

(** Source lines 641-646: the creation date of the new part, and the
    next draw of the world (the clock is read only on the fallback). *)
Definition creationDateISO (OrderCreationDate : jsstring) (tick : nat)
    : jsstring * nat :=
  let parsedDate :=
    if truthy OrderCreationDate then parseFrenchDateString H OrderCreationDate
    else None in
  match parsedDate with
  | Some d => (toISOString d, tick)
  | None => (toISOString (now W tick), S tick)
  end.

Definition newOrderFor (row : Row) (user : User) (partType : PartType)
    (tick : nat) : Order * nat :=
  let '(creationDate, tick1) :=
    creationDateISO (rowGet row (js "OrderCreationDate")) tick in
  let newOrderPart :=
    {| part_number := rowGet row (js "OrderNumber");
       part_isSent := bool_decide (rowGet row (js "OrderStatus") = ENVOYEE);
       part_creationDate := creationDate;
       part_userId := user_id user;
       part_userName := user_name user;
       part_notes := Some (rowGet row (js "OrderNotes")) |} in
  ({| order_id := randomUUID W tick1;
      frames := match partType with Frames => Some newOrderPart | Doors => None end;
      doors := match partType with Doors => Some newOrderPart | Frames => None end |},
   S tick1).

(** Source lines 629-663, on the order list of the row's site. *)
Definition importOrder (row : Row) (user : option User) (os : list Order)
    (tick : nat) : list Order * nat :=
  let OrderPart_ := rowGet row (js "OrderPart") in
  let OrderNumber := rowGet row (js "OrderNumber") in
  match user with
  | Some u =>
      if truthy OrderPart_ && truthy OrderNumber then
        match partTypeOf OrderPart_ with
        | Some partType =>
            if orderExists os partType OrderNumber then (os, tick)
            else
              let '(newOrder, tick1) := newOrderFor row u partType tick in
              (os ++ [newOrder], tick1)
        | None => (os, tick)
        end
      else (os, tick)
  | None => (os, tick)
  end.

(** The site pushed for a row that names a new site, and the backfill
    of the general info of a site that was found. *)
Definition pushedSite (row : Row) (tick : nat) : ConstructionSite :=
  {| site_id := randomUUID W tick;
     site_name := rowGet row (js "SiteName");
     generalInfo := rowGet row (js "SiteGeneralInfo");
     generalInfoFiles := []; orders := [] |}.

Definition backfilledSite (row : Row) (s : ConstructionSite)
    : ConstructionSite :=
  let SiteGeneralInfo := rowGet row (js "SiteGeneralInfo") in
  if truthy SiteGeneralInfo && negb (truthy (generalInfo s))
  then setGeneralInfo s SiteGeneralInfo else s.

(** Source lines 617-663, on the site list of the row's customer: the
    site is found or pushed, and what the rest of the row does to that
    object is written back where the object sits in the list. *)
Definition importSite (row : Row) (user : option User)
    (ss : list ConstructionSite) (tick : nat)
    : list ConstructionSite * nat :=
  let SiteName := rowGet row (js "SiteName") in
  if truthy SiteName then
    match list_find (fun s => sameName (site_name s) SiteName) ss with
    | None =>
        let site := pushedSite row tick in
        let '(os, tick1) := importOrder row user (orders site) (S tick) in
        (ss ++ [setOrders site os], tick1)
    | Some (j, s) =>
        let site := backfilledSite row s in
        let '(os, tick1) := importOrder row user (orders site) tick in
        (<[j := setOrders site os]> ss, tick1)
    end
  else (ss, tick).

(** The customer pushed for a row that names a new customer, and the
    backfill of the notes of a customer that was found. *)
Definition pushedCustomer (row : Row) (tick : nat) : Customer :=
  {| customer_id := randomUUID W tick;
     customer_name := rowGet row (js "CustomerName");
     sites := [];
     customer_notes := rowGet row (js "CustomerNotes") |}.

Definition backfilledCustomer (row : Row) (c : Customer) : Customer :=
  let CustomerNotes := rowGet row (js "CustomerNotes") in
  if truthy CustomerNotes && negb (truthy (customer_notes c))
  then setNotes c CustomerNotes else c.

(** Source lines 607-663, on the customer list. *)
Definition importCustomer (row : Row) (user : option User)
    (cs : list Customer) (tick : nat) : list Customer * nat :=
  let CustomerName := rowGet row (js "CustomerName") in
  match list_find (fun c => sameName (customer_name c) CustomerName) cs with
  | None =>
      let customer := pushedCustomer row tick in
      let '(ss, tick1) := importSite row user (sites customer) (S tick) in
      (cs ++ [setSites customer ss], tick1)
  | Some (i, c) =>
      let customer := backfilledCustomer row c in
      let '(ss, tick1) := importSite row user (sites customer) tick in
      (<[i := setSites customer ss]> cs, tick1)
  end.

(** The callback of [parsedData.forEach]: one row against the store. *)
Definition processRow (acc : Store * nat) (row : Row) : Store * nat :=
  let '(st, tick) := acc in
  if truthy (rowGet row (js "CustomerName")) then
    let '(us, user, tick1) := resolveUser row (users st) tick in
    let '(cs, tick2) := importCustomer row user (customers st) tick1 in
    ({| users := us; customers := cs;
        specialOptions := specialOptions st;
        storageWrites := storageWrites st |}, tick2)
  else (st, tick).

(** [importData]: the store after the call and its outcome, the
    customers and the users without passwords. *)
Definition importData (csvString : jsstring) (st : Store)
    : Store * Outcome (list Customer * list User) :=
  let parsedData := parseCSV csvString in
  match parsedData with
  | [] => (st, Threw CsvEmpty)
  | _ :: _ =>
      let '(st1, _) := fold_left processRow parsedData (st, 0%nat) in
      let st2 := saveUsers (saveCustomers st1) in
      (st2, Returned (customers st2, List.map withoutPassword (users st2)))
  end.

(** [addUser] and [signup]. *)
Definition addUser (name email password : jsstring) (role : UserRole)
    (st : Store) : Store * Outcome User :=
  if bool_decide (Exists (fun u => sameName (user_name u) name) (users st))
  then (st, Threw NameTaken)
  else if bool_decide (Exists (fun u => sameName (user_email u) email) (users st))
  then (st, Threw EmailTaken)
  else
    let newUser :=
      {| user_id := randomUUID W 0; user_name := name; user_email := email;
         user_role := role; user_password := Some password |} in
    (saveUsers {| users := users st ++ [newUser]; customers := customers st;
                  specialOptions := specialOptions st;
                  storageWrites := storageWrites st |},
     Returned (withoutPassword newUser)).

Definition signup (name email password_param : jsstring) (st : Store)
    : Store * Outcome User :=
  if bool_decide (Exists (fun u => sameName (user_name u) name) (users st))
  then (st, Threw NameTaken)
  else if bool_decide (Exists (fun u => sameName (user_email u) email) (users st))
  then (st, Threw EmailTaken)
  else
    let newUser :=
      {| user_id := randomUUID W 0; user_name := name; user_email := email;
         user_role := Viewer; user_password := Some password_param |} in
    (saveUsers {| users := users st ++ [newUser]; customers := customers st;
                  specialOptions := specialOptions st;
                  storageWrites := storageWrites st |},
     Returned (withoutPassword newUser)).

End Engine.

(** ** Example data *)

Definition exampleWorld : World :=
  {| randomUUID := fun k => js "uuid-" ++ padDigits 3 (Z.of_nat k);
     now := fun _ => 1762092000000%Z |}.

(** The three users the module seeds when none are stored. *)
Definition seedUsers : list User :=
  [ {| user_id := js "admin-seed-1"; user_name := js "taoufik";
       user_email := js "taoufik@example.com"; user_role := Admin;
       user_password := Some (js "123456789") |};
    {| user_id := js "editor-1"; user_name := js "Editor";
       user_email := js "editor@example.com"; user_role := Editor;
       user_password := Some (js "password") |};
    {| user_id := js "viewer-1"; user_name := js "Viewer";
       user_email := js "viewer@example.com"; user_role := Viewer;
       user_password := Some (js "password") |} ].

Definition seedStore : Store :=
  {| users := seedUsers; customers := []; specialOptions := [];
     storageWrites := [WriteUsers seedUsers] |}.

(** A text whose only row has no customer name, and that row. *)
Definition csvWithoutCustomer : jsstring :=
  js "CustomerName,SiteName,OrderAssignedUser" ++ [LF] ++ js ",Lyon,Zoe".

Definition rowWithoutCustomer : Row :=
  parseLine (parseHeaders (js "CustomerName,SiteName,OrderAssignedUser"))
            (js ",Lyon,Zoe").

(** The quoted field of the specification's example with its
    delimiting quotes (quote, a, comma, b, quote, quote, c, quote), and
    the value it stands for (a, comma, b, quote, c). *)
Definition quotedField : jsstring :=
  [QUOTE] ++ js "a,b" ++ [QUOTE; QUOTE] ++ js "c" ++ [QUOTE].

Definition literalValue : jsstring := js "a,b" ++ [QUOTE] ++ js "c".

Definition quotedCsv : jsstring :=
  js "Ref,Label,Qty" ++ [LF] ++ js "7," ++ quotedField ++ js ",3" ++ [LF].

(** A prefix of a line ends at a field boundary when it is empty or ends
    with a comma, and the loop has then closed the fields [fs] and is
    outside quotes with an empty current field. *)
Definition fieldBoundary (pre : jsstring) (fs : list jsstring) : Prop :=
  (pre = [] \/ exists p, pre = p ++ [COMMA])
  /\ scanLoop [] [] false pre = (fs, [], false).

Definition rowForNewUser : Row :=
  parseLine (parseHeaders (js "CustomerName,OrderAssignedUser,UserRole"))
            (js "Acme,Jean Dupont,editor").

(** Two rows whose assigned users differ by name and get the same
    synthesized email. *)
Definition collidingCsv : jsstring :=
  js "CustomerName,OrderAssignedUser" ++ [LF]
  ++ js "Acme,Jean Dupont" ++ [LF]
  ++ js "Acme,Jean.Dupont" ++ [LF].

(** The invariant of the user list: no two users have the same name or
    the same email, letter case apart. *)
Definition uniqueUsers (H : Host) (us : list User) : Prop :=
  NoDup (List.map (fun u => toLowerCase H (user_name u)) us)
  /\ NoDup (List.map (fun u => toLowerCase H (user_email u)) us).

(** Every order of a site list, and of the store, in list order. *)
Definition siteOrders (ss : list ConstructionSite) : list Order :=
  s ← ss; orders s.

Definition allOrders (cs : list Customer) : list Order :=
  c ← cs; siteOrders (sites c).

(** The orders of the site that a row addresses: the first site of that
    name in the first customer of that name; none when either is
    absent. *)
Definition siteTargetOrders (H : Host) (ss : list ConstructionSite)
    (row : Row) : list Order :=
  match list_find (fun s => sameName H (site_name s)
                              (rowGet row (js "SiteName"))) ss with
  | Some (_, s) => orders s
  | None => []
  end.

Definition targetOrders (H : Host) (cs : list Customer) (row : Row)
    : list Order :=
  match list_find (fun c => sameName H (customer_name c)
                              (rowGet row (js "CustomerName"))) cs with
  | Some (_, c) => siteTargetOrders H (sites c) row
  | None => []
  end.

(** A row is settled in a store when processing it finds everything it
    would create or fill in: its user, its customer with notes, its
    site with general info, and its order.  The definitions follow the
    nesting of the engine; [hasUser] tells whether the row resolves a
    user. *)
Definition orderSettled (H : Host) (row : Row) (hasUser : bool)
    (os : list Order) : bool :=
  negb hasUser
  || negb (truthy (rowGet row (js "OrderPart"))
           && truthy (rowGet row (js "OrderNumber")))
  || match partTypeOf H (rowGet row (js "OrderPart")) with
     | Some partType => orderExists os partType (rowGet row (js "OrderNumber"))
     | None => true
     end.

Definition siteSettled (H : Host) (row : Row) (hasUser : bool)
    (ss : list ConstructionSite) : Prop :=
  truthy (rowGet row (js "SiteName")) = false
  \/ exists j s,
      list_find (fun s => sameName H (site_name s)
                            (rowGet row (js "SiteName"))) ss = Some (j, s)
      /\ (truthy (rowGet row (js "SiteGeneralInfo")) = true ->
          truthy (generalInfo s) = true)
      /\ orderSettled H row hasUser (orders s) = true.

Definition customerSettled (H : Host) (row : Row) (hasUser : bool)
    (cs : list Customer) : Prop :=
  exists i c,
    list_find (fun c => sameName H (customer_name c)
                          (rowGet row (js "CustomerName"))) cs = Some (i, c)
    /\ (truthy (rowGet row (js "CustomerNotes")) = true ->
        truthy (customer_notes c) = true)
    /\ siteSettled H row hasUser (sites c).

Definition rowSettled (H : Host) (row : Row) (st : Store) : Prop :=
  truthy (rowGet row (js "CustomerName")) = false
  \/ ((truthy (rowGet row (js "OrderAssignedUser")) = true ->
       Exists (fun u => sameName H (user_name u)
                          (rowGet row (js "OrderAssignedUser"))) (users st))
      /\ customerSettled H row
           (truthy (rowGet row (js "OrderAssignedUser"))) (customers st)).

Definition isSome {A : Type} (o : option A) : bool :=
  match o with Some _ => true | None => false end.

(** How a list of records evolves under the import: the records stay
    where they are, each related to its later self by [R], and new ones
    are pushed at the end. *)
Definition grows {A : Type} (R : A -> A -> Prop) (l l' : list A) : Prop :=
  exists l1 l2, l' = l1 ++ l2 /\ Forall2 R l l1.

(** A site and its later self: same identity, name and files, general
    info kept once it is not empty, orders only appended. *)
Definition siteExt (s s' : ConstructionSite) : Prop :=
  site_id s' = site_id s
  /\ site_name s' = site_name s
  /\ generalInfoFiles s' = generalInfoFiles s
  /\ (truthy (generalInfo s) = true -> generalInfo s' = generalInfo s)
  /\ orders s `prefix_of` orders s'.

(** A customer and its later self. *)
Definition customerExt (c c' : Customer) : Prop :=
  customer_id c' = customer_id c
  /\ customer_name c' = customer_name c
  /\ (truthy (customer_notes c) = true -> customer_notes c' = customer_notes c)
  /\ grows siteExt (sites c) (sites c').

(** A store and its later self. *)
Definition storeExt (st st' : Store) : Prop :=
  users st `prefix_of` users st'
  /\ grows customerExt (customers st) (customers st').

(** A store with one customer that has notes, and one site that has
    general info. *)
Definition acmeStore : Store :=
  {| users := seedUsers;
     customers :=
       [ {| customer_id := js "c-1"; customer_name := js "Acme";
            sites :=
              [ {| site_id := js "s-1"; site_name := js "Lyon";
                   generalInfo := js "Gate code 42";
                   generalInfoFiles := []; orders := [] |} ];
            customer_notes := js "VIP" |} ];
     specialOptions := [];
     storageWrites := [] |}.

(** A file that names that customer and that site in another letter
    case, with other notes and other general info. *)
Definition overwritingCsv : jsstring :=
  js "CustomerName,CustomerNotes,SiteName,SiteGeneralInfo" ++ [LF]
  ++ js "ACME,Pays late,LYON,Closed on Mondays" ++ [LF].

(** The row of the specification's example for sent frames. *)
Definition rowSentFrames : Row :=
  parseLine
    (parseHeaders
       (js "CustomerName,SiteName,OrderPart,OrderNumber,OrderStatus,OrderAssignedUser"))
    (js "Acme,Lyon,Huisseries,F-001," ++ ENVOYEE ++ js ",Viewer").

(** A row whose OrderPart is neither of the two part names, for a
    customer, a site and a user that the seed store does not have. *)
Definition rowOtherPart : Row :=
  parseLine
    (parseHeaders
       (js "CustomerName,SiteName,OrderPart,OrderNumber,OrderStatus,OrderAssignedUser"))
    (js "Bolt,Paris,Fenetres,W-1,En attente,Zoe").

(** A text with a byte-order mark, carriage returns, a blank line, a
    short row and padded values. *)
Definition untidyCsv : jsstring :=
  [BOM] ++ js "CustomerName , SiteName" ++ [CR; LF]
  ++ js "  Acme  ,Lyon" ++ [CR; LF]
  ++ js "   " ++ [CR; LF]
  ++ js "Bolt" ++ [CR; LF].

(** A text with two orders for one site, and a third row that repeats
    the first. *)
Definition ordersCsv : jsstring :=
  js "CustomerName,SiteName,OrderPart,OrderNumber,OrderStatus,OrderAssignedUser,OrderCreationDate"
  ++ [LF] ++ js "Acme,Lyon,Huisseries,F-001," ++ ENVOYEE
  ++ js ",Viewer,23/10/2025 14:30:00"
  ++ [LF] ++ js "Acme,Lyon,Portes,F-001,En attente,Viewer,31/02/2025"
  ++ [LF] ++ js "ACME,lyon,huisseries,F-001,,viewer,"
  ++ [LF].

(** ** Shapes of text, for the properties of the parser *)

(** A value written as a quoted field: every quote doubled, between two
    quotes. *)
Definition escapeQuotes (v : jsstring) : jsstring :=
  v ≫= fun c => if c =? QUOTE then [QUOTE; QUOTE] else [c].

Definition quoteField (v : jsstring) : jsstring :=
  [QUOTE] ++ escapeQuotes v ++ [QUOTE].

(** Raw fields joined by commas into a line. *)
Fixpoint joinFields (fs : list jsstring) : jsstring :=
  match fs with
  | [] => []
  | [f] => f
  | f :: fs' => f ++ COMMA :: joinFields fs'
  end.

(** The header names of a text: those of [lines[0]]. *)
Definition csvHeaders (csvText : jsstring) : list jsstring :=
  match split LF (removeCR csvText) with
  | [] => []
  | line0 :: _ => parseHeaders line0
  end.

(** The lines of a text after the header line. *)
Definition csvDataLines (csvText : jsstring) : list jsstring :=
  match split LF (removeCR csvText) with
  | [] => []
  | _ :: lines => lines
  end.

(** A string that does not start with white space. *)
Definition headTrimmed (s : jsstring) : Prop :=
  match s with [] => True | c :: _ => isWhiteSpace c = false end.

(** ** Invariants of the customer tree *)

(** The merge keys of the import, each unique in its scope: customer
    names in the store, site names in a customer, part numbers in a
    site and part type; names are compared lower-cased. *)
Definition customerNamesUnique (H : Host) (cs : list Customer) : Prop :=
  NoDup ((fun c => toLowerCase H (customer_name c)) <$> cs).

Definition siteNamesUnique (H : Host) (cs : list Customer) : Prop :=
  Forall (fun c => NoDup ((fun s => toLowerCase H (site_name s)) <$> sites c))
         cs.

#[global] Instance PartType_eq_dec : EqDecision PartType.
Proof. solve_decision. Defined.

Definition partNumbers (partType : PartType) (os : list Order)
    : list jsstring :=
  omap (fun o => part_number <$> partOf partType o) os.

Definition partNumbersUnique (cs : list Customer) : Prop :=
  Forall (fun c =>
            Forall (fun s => forall partType,
                        NoDup (partNumbers partType (orders s)))
                   (sites c))
         cs.

Definition userNamesUnique (H : Host) (us : list User) : Prop :=
  NoDup ((fun u => toLowerCase H (user_name u)) <$> us).

(** An order as the import creates it for a user list: exactly one of
    its two slots holds a part, the part has a number, and it carries
    the id and the name of one of the users. *)
Definition createdFor (us : list User) (o : Order) : Prop :=
  exists u part,
    u ∈ us
    /\ ((frames o = Some part /\ doors o = None)
        \/ (frames o = None /\ doors o = Some part))
    /\ part_number part <> []
    /\ part_userId part = user_id u
    /\ part_userName part = user_name u.

(** The number of days of month [m] (0 to 11) in year [y]. *)
Definition daysInMonth (y m : Z) : Z :=
  let leap := (if isLeapYear y then 1 else 0)%Z in
  match m with
  | 1%Z => (28 + leap)%Z
  | 3%Z | 5%Z | 8%Z | 10%Z => 30%Z
  | _ => 31%Z
  end.

(** ** The rest of the API

    The operations on users, customers, sites, orders and special
    options, and the authentication calls.  Each returns the store
    after the call and the value that it hands to [simulateNetwork],
    whose deep copy of a value is the value itself.  Where that value
    is [undefined] ([None] below: nothing was found to update), the
    copy throws inside the timer and the promise of the call never
    settles.  A field of an update is present with a value or absent.
    The file operations, which go through IndexedDB, are not
    modelled. *)

(** The errors of these calls, by their messages: "Customer not found",
    "Site not found", "User not found", "At least one part number is
    required.", "Option not found", the message for a wrong user name
    or password, and "Could not save session.". *)
Inductive Failure :=
  | CustomerNotFound
  | SiteNotFound
  | UserNotFound
  | PartNumberRequired
  | OptionNotFound
  | BadCredentials
  | SessionNotSaved.

Inductive Reply (A : Type) :=
  | Done (value : A)
  | Failed (e : Failure).
Arguments Done {A} value.
Arguments Failed {A} e.

(** [simulateNetwork(data)]: the promise that a call returns.  After
    the delay it is resolved with [JSON.parse(JSON.stringify(data))],
    which for a value of this module is the value itself.  For
    [undefined] ([None]), [JSON.stringify] gives [undefined] and
    [JSON.parse] throws inside the timer: nothing resolves or rejects
    the promise, and the call never settles. *)
Inductive Promise (A : Type) :=
  | Resolves (value : A)
  | NeverSettles.
Arguments Resolves {A} value.
Arguments NeverSettles {A}.

Definition simulateNetwork {A : Type} (data : option A) : Promise A :=
  match data with
  | Some value => Resolves value
  | None => NeverSettles
  end.

Definition setUsers (st : Store) (us : list User) : Store :=
  {| users := us; customers := customers st;
     specialOptions := specialOptions st;
     storageWrites := storageWrites st |}.

Definition setCustomers (st : Store) (cs : list Customer) : Store :=
  {| users := users st; customers := cs;
     specialOptions := specialOptions st;
     storageWrites := storageWrites st |}.

Definition setOptions (st : Store) (os : list SpecialOption) : Store :=
  {| users := users st; customers := customers st;
     specialOptions := os;
     storageWrites := storageWrites st |}.

Definition saveOptions (st : Store) : Store :=
  {| users := users st; customers := customers st;
     specialOptions := specialOptions st;
     storageWrites := WriteOptions (specialOptions st) :: storageWrites st |}.

(** [Partial<UserWithPassword>], [Partial<Customer>],
    [Partial<ConstructionSite>] and [Partial<SpecialOption>]: the
    fields that an update carries. *)
Record UserUpdates := {
  new_user_id : option jsstring;
  new_user_name : option jsstring;
  new_user_email : option jsstring;
  new_user_role : option UserRole;
  new_user_password : option jsstring
}.

Record CustomerUpdates := {
  new_customer_id : option jsstring;
  new_customer_name : option jsstring;
  new_customer_sites : option (list ConstructionSite);
  new_customer_notes : option jsstring
}.

Record SiteUpdates := {
  new_site_id : option jsstring;
  new_site_name : option jsstring;
  new_generalInfo : option jsstring;
  new_generalInfoFiles : option (list UploadedFile);
  new_orders : option (list Order)
}.

Record OptionUpdates := {
  new_option_id : option jsstring;
  new_option_name : option jsstring;
  new_option_details : option jsstring;
  new_option_files : option (list UploadedFile)
}.

(** [{ ...u, ...updates }], with the password kept when the update
    carries none or an empty one. *)
Definition userWithUpdates (updates : UserUpdates) (u : User) : User :=
  {| user_id := default (user_id u) (new_user_id updates);
     user_name := default (user_name u) (new_user_name updates);
     user_email := default (user_email u) (new_user_email updates);
     user_role := default (user_role u) (new_user_role updates);
     user_password :=
       match new_user_password updates with
       | Some p => if truthy p then Some p else user_password u
       | None => user_password u
       end |}.

Definition customerWithUpdates (updates : CustomerUpdates) (c : Customer)
    : Customer :=
  {| customer_id := default (customer_id c) (new_customer_id updates);
     customer_name := default (customer_name c) (new_customer_name updates);
     sites := default (sites c) (new_customer_sites updates);
     customer_notes :=
       default (customer_notes c) (new_customer_notes updates) |}.

Definition siteWithUpdates (updates : SiteUpdates) (s : ConstructionSite)
    : ConstructionSite :=
  {| site_id := default (site_id s) (new_site_id updates);
     site_name := default (site_name s) (new_site_name updates);
     generalInfo := default (generalInfo s) (new_generalInfo updates);
     generalInfoFiles :=
       default (generalInfoFiles s) (new_generalInfoFiles updates);
     orders := default (orders s) (new_orders updates) |}.

Definition optionWithUpdates (updates : OptionUpdates) (o : SpecialOption)
    : SpecialOption :=
  {| option_id := default (option_id o) (new_option_id updates);
     option_name := default (option_name o) (new_option_name updates);
     option_details := default (option_details o) (new_option_details updates);
     option_files := default (option_files o) (new_option_files updates) |}.

(** [customers.find(c => c.id === customerId)?.sites.find(s => s.id ===
    siteId)], with the places of the customer and of the site. *)
Definition locateSite (cs : list Customer) (customerId siteId : jsstring)
    : option (nat * Customer * nat * ConstructionSite) :=
  match list_find (fun c => customer_id c = customerId) cs with
  | Some (i, c) =>
      match list_find (fun s => site_id s = siteId) (sites c) with
      | Some (j, s) => Some (i, c, j, s)
      | None => None
      end
  | None => None
  end.

(** Writing back a site that was located and mutated in place. *)
Definition putSite (cs : list Customer) (i : nat) (c : Customer) (j : nat)
    (s : ConstructionSite) : list Customer :=
  <[i := setSites c (<[j := s]> (sites c))]> cs.

(** [order[part] = p] on an order. *)
Definition setPart (part : PartType) (o : Order) (p : OrderPart) : Order :=
  match part with
  | Frames => {| order_id := order_id o; frames := Some p; doors := doors o |}
  | Doors => {| order_id := order_id o; frames := frames o; doors := Some p |}
  end.

Definition setNumber (p : OrderPart) (number : jsstring) : OrderPart :=
  {| part_number := number; part_isSent := part_isSent p;
     part_creationDate := part_creationDate p; part_userId := part_userId p;
     part_userName := part_userName p; part_notes := part_notes p |}.

Definition setPartUser (p : OrderPart) (u : User) : OrderPart :=
  {| part_number := part_number p; part_isSent := part_isSent p;
     part_creationDate := part_creationDate p; part_userId := user_id u;
     part_userName := user_name u; part_notes := part_notes p |}.

Definition setPartNotes (p : OrderPart) (notes : jsstring) : OrderPart :=
  {| part_number := part_number p; part_isSent := part_isSent p;
     part_creationDate := part_creationDate p; part_userId := part_userId p;
     part_userName := part_userName p; part_notes := Some notes |}.

Definition toggleSent (p : OrderPart) : OrderPart :=
  {| part_number := part_number p; part_isSent := negb (part_isSent p);
     part_creationDate := part_creationDate p; part_userId := part_userId p;
     part_userName := part_userName p; part_notes := part_notes p |}.

(** The common body of [updateOrder], [updateOrderUser],
    [updateOrderNotes] and [toggleOrderStatus]: the order is looked up
    by the three ids; when it is found, has the part, and [guard] holds,
    the part is mutated in place and the customers are saved.  The
    value of the call is the order ([None] for [undefined]). *)
Definition mutatePart (guard : bool) (f : OrderPart -> OrderPart)
    (customerId siteId orderId : jsstring) (part : PartType) (st : Store)
    : Store * option Order :=
  match locateSite (customers st) customerId siteId with
  | Some (i, c, j, s) =>
      match list_find (fun o => order_id o = orderId) (orders s) with
      | Some (k, o) =>
          match partOf part o with
          | Some p =>
              if guard then
                let o' := setPart part o (f p) in
                (saveCustomers
                   (setCustomers st
                      (putSite (customers st) i c j
                         (setOrders s (<[k := o']> (orders s))))),
                 Some o')
              else (st, Some o)
          | None => (st, Some o)
          end
      | None => (st, None)
      end
  | None => (st, None)
  end.

(** [customers.find(c => c.id === customerId)?.sites.find(s => s.id ===
    siteId)?.orders.find(o => o.id === orderId)]: the order that the
    calls on an order look up, [None] for [undefined]. *)
Definition findOrder (cs : list Customer)
    (customerId siteId orderId : jsstring) : option Order :=
  match locateSite cs customerId siteId with
  | Some (_, _, _, s) =>
      snd <$> list_find (fun o => order_id o = orderId) (orders s)
  | None => None
  end.

(** The session document of [sessionStorage], absent or a user. *)
Definition Session := option User.

Section Api.

Context (H : Host) (W : World).

(** *** Users *)

Definition getUsers (st : Store) : list User :=
  withoutPassword <$> users st.

Definition updateUser (id : jsstring) (updates : UserUpdates) (st : Store)
    : Store * Outcome (option User) :=
  let nameTaken :=
    match new_user_name updates with
    | Some name =>
        truthy name
        && bool_decide
             (Exists (fun u => user_id u <> id
                               /\ sameName H (user_name u) name) (users st))
    | None => false
    end in
  let emailTaken :=
    match new_user_email updates with
    | Some email =>
        truthy email
        && bool_decide
             (Exists (fun u => user_id u <> id
                               /\ sameName H (user_email u) email) (users st))
    | None => false
    end in
  if nameTaken then (st, Threw NameTaken)
  else if emailTaken then (st, Threw EmailTaken)
  else
    let us :=
      (fun u => if decide (user_id u = id) then userWithUpdates updates u
                else u) <$> users st in
    let updatedUser :=
      last ((fun u => withoutPassword (userWithUpdates updates u))
              <$> filter (fun u => user_id u = id) (users st)) in
    (saveUsers (setUsers st us), Returned updatedUser).

Definition deleteUser (id : jsstring) (st : Store) : Store :=
  saveUsers (setUsers st (filter (fun u => user_id u <> id) (users st))).

(** *** Customers *)

Definition addCustomer (name : jsstring) (st : Store) : Store * Customer :=
  let newCustomer :=
    {| customer_id := randomUUID W 0; customer_name := name;
       sites := []; customer_notes := [] |} in
  (saveCustomers (setCustomers st (customers st ++ [newCustomer])),
   newCustomer).

Definition deleteCustomer (id : jsstring) (st : Store) : Store :=
  saveCustomers
    (setCustomers st (filter (fun c => customer_id c <> id) (customers st))).

Definition updateCustomer (id : jsstring) (updates : CustomerUpdates)
    (st : Store) : Store * option Customer :=
  let cs :=
    (fun c => if decide (customer_id c = id)
              then customerWithUpdates updates c else c) <$> customers st in
  (saveCustomers (setCustomers st cs),
   last (customerWithUpdates updates
           <$> filter (fun c => customer_id c = id) (customers st))).

(** *** Sites *)

Definition addSite (customerId name : jsstring) (st : Store)
    : Store * Reply ConstructionSite :=
  match list_find (fun c => customer_id c = customerId) (customers st) with
  | None => (st, Failed CustomerNotFound)
  | Some (i, c) =>
      let newSite :=
        {| site_id := randomUUID W 0; site_name := name; generalInfo := [];
           generalInfoFiles := []; orders := [] |} in
      (saveCustomers
         (setCustomers st
            (<[i := setSites c (sites c ++ [newSite])]> (customers st))),
       Done newSite)
  end.

Definition deleteSite (customerId siteId : jsstring) (st : Store) : Store :=
  match list_find (fun c => customer_id c = customerId) (customers st) with
  | Some (i, c) =>
      saveCustomers
        (setCustomers st
           (<[i := setSites c (filter (fun s => site_id s <> siteId)
                                      (sites c))]> (customers st)))
  | None => st
  end.

Definition updateSite (customerId siteId : jsstring) (updates : SiteUpdates)
    (st : Store) : Store * option ConstructionSite :=
  match list_find (fun c => customer_id c = customerId) (customers st) with
  | Some (i, c) =>
      let ss :=
        (fun s => if decide (site_id s = siteId)
                  then siteWithUpdates updates s else s) <$> sites c in
      (saveCustomers
         (setCustomers st (<[i := setSites c ss]> (customers st))),
       snd <$> list_find (fun s => site_id s = siteId) ss)
  | None => (st, None)
  end.

(** *** Orders *)

(** The order that [addOrder] builds for one part number. *)
Definition orderFor (part : PartType) (number : jsstring) (user : User)
    (tick : nat) : Order :=
  let p :=
    {| part_number := trim number; part_isSent := false;
       part_creationDate := toISOString (now W 0);
       part_userId := user_id user; part_userName := user_name user;
       part_notes := Some [] |} in
  {| order_id := randomUUID W tick;
     frames := match part with Frames => Some p | Doors => None end;
     doors := match part with Doors => Some p | Frames => None end |}.

Definition addOrder (customerId siteId framesNumber doorsNumber
                     userId : jsstring) (st : Store)
    : Store * Reply (list Order) :=
  match locateSite (customers st) customerId siteId with
  | None => (st, Failed SiteNotFound)
  | Some (i, c, j, s) =>
      match list_find (fun u => user_id u = userId) (users st) with
      | None => (st, Failed UserNotFound)
      | Some (_, user) =>
          if negb (truthy (trim framesNumber))
             && negb (truthy (trim doorsNumber))
          then (st, Failed PartNumberRequired)
          else
            let forFrames :=
              if truthy (trim framesNumber)
              then [orderFor Frames framesNumber user 1] else [] in
            let forDoors :=
              if truthy (trim doorsNumber)
              then [orderFor Doors doorsNumber user (1 + length forFrames)]
              else [] in
            let newOrders := forFrames ++ forDoors in
            (saveCustomers
               (setCustomers st
                  (putSite (customers st) i c j
                     (setOrders s (orders s ++ newOrders)))),
             Done newOrders)
      end
  end.

Definition deleteOrder (customerId siteId orderId : jsstring) (st : Store)
    : Store :=
  match locateSite (customers st) customerId siteId with
  | Some (i, c, j, s) =>
      saveCustomers
        (setCustomers st
           (putSite (customers st) i c j
              (setOrders s (filter (fun o => order_id o <> orderId)
                                   (orders s)))))
  | None => st
  end.

Definition updateOrder (customerId siteId orderId : jsstring)
    (part : PartType) (newNumber : jsstring) (st : Store)
    : Store * option Order :=
  mutatePart true (fun p => setNumber p newNumber)
             customerId siteId orderId part st.

Definition updateOrderUser (customerId siteId orderId : jsstring)
    (part : PartType) (userId : jsstring) (st : Store)
    : Store * option Order :=
  match list_find (fun u => user_id u = userId) (users st) with
  | Some (_, user) =>
      mutatePart true (fun p => setPartUser p user)
                 customerId siteId orderId part st
  | None =>
      mutatePart false (fun p => p) customerId siteId orderId part st
  end.

Definition updateOrderNotes (customerId siteId orderId : jsstring)
    (part : PartType) (notes : jsstring) (st : Store)
    : Store * option Order :=
  mutatePart true (fun p => setPartNotes p notes)
             customerId siteId orderId part st.

Definition toggleOrderStatus (customerId siteId orderId : jsstring)
    (part : PartType) (st : Store) : Store * option Order :=
  mutatePart true toggleSent customerId siteId orderId part st.

(** *** Special options *)

Definition addSpecialOption (name : jsstring) (st : Store)
    : Store * SpecialOption :=
  let newOption :=
    {| option_id := randomUUID W 0; option_name := name;
       option_details := []; option_files := [] |} in
  (saveOptions (setOptions st (specialOptions st ++ [newOption])), newOption).

Definition deleteSpecialOption (id : jsstring) (st : Store) : Store :=
  saveOptions
    (setOptions st (filter (fun o => option_id o <> id) (specialOptions st))).

Definition updateSpecialOption (id : jsstring) (updates : OptionUpdates)
    (st : Store) : Store * option SpecialOption :=
  let os :=
    (fun o => if decide (option_id o = id)
              then optionWithUpdates updates o else o) <$> specialOptions st in
  (saveOptions (setOptions st os),
   snd <$> list_find (fun o => option_id o = id) os).

(** *** Authentication *)

(** [login]: the user is the first whose name or email is the given
    text, letter case apart.  [sessionWritable] tells whether
    [sessionStorage.setItem] succeeds. *)
Definition login (usernameOrEmail password_param : jsstring)
    (sessionWritable : bool) (st : Store) (session : Session)
    : Session * Reply User :=
  match list_find (fun u => sameName H (user_name u) usernameOrEmail
                            \/ sameName H (user_email u) usernameOrEmail)
                  (users st) with
  | Some (_, user) =>
      if bool_decide (user_password user = Some password_param) then
        if sessionWritable
        then (Some (withoutPassword user), Done (withoutPassword user))
        else (session, Failed SessionNotSaved)
      else (session, Failed BadCredentials)
  | None => (session, Failed BadCredentials)
  end.

(** [logout]: a [sessionStorage.removeItem] that fails is caught and
    logged, and the session stays. *)
Definition logout (sessionWritable : bool) (session : Session) : Session :=
  if sessionWritable then None else session.

Definition getCurrentUser (session : Session) : option User := session.

End Api.

(** ** Example data for the calls

    A world whose ids come after those of [exampleWorld], and a store
    with one customer, one site and two orders, made with the calls
    themselves. *)
Definition laterWorld : World :=
  {| randomUUID := fun k => randomUUID exampleWorld (100 + k);
     now := now exampleWorld |}.

Definition siteStore : Store :=
  (addSite exampleWorld (js "uuid-000") (js "Lyon")
     (addCustomer exampleWorld (js "Acme") seedStore).1).1.

Definition orderedStore : Store :=
  (addOrder laterWorld (js "uuid-000") (js "uuid-000") (js "F-1") (js "D-1")
     (js "editor-1") siteStore).1.

(** * Properties *)

(** ** Rows without a customer name, and the fatal error *)

(** C5. A row whose CustomerName is empty is skipped before any lookup
    or mutation: the user list, the customer list with every site and
    order list, and even the supply of fresh identifiers are exactly as
    they were. *)
Theorem C5_row_without_customer_changes_nothing
    (H : Host) (W : World) (st : Store) (tick : nat) (row : Row) :
  rowGet row (js "CustomerName") = [] ->
  processRow H W (st, tick) row = (st, tick).
Proof.
  intros Hname. unfold processRow. by rewrite Hname.
Qed.

Lemma C5_row_without_customer_witness :
  rowGet rowWithoutCustomer (js "CustomerName") = []
  /\ processRow asciiHost exampleWorld (seedStore, 0%nat) rowWithoutCustomer
     = (seedStore, 0%nat).
Proof.
  split; [reflexivity|].
  apply (C5_row_without_customer_changes_nothing
           asciiHost exampleWorld seedStore 0%nat rowWithoutCustomer).
  reflexivity.
Defined.

(** C6. [importData] throws the empty-or-malformed-file error exactly
    when the parser yields no row; the store is then left as it was.
    When there is at least one row the call returns. *)
Theorem C6_throws_exactly_on_no_rows
    (H : Host) (W : World) (csv : jsstring) (st : Store) :
  ((importData H W csv st).2 = Threw CsvEmpty <-> parseCSV csv = [])
  /\ (parseCSV csv = [] -> importData H W csv st = (st, Threw CsvEmpty))
  /\ (parseCSV csv <> [] ->
      exists st' result, importData H W csv st = (st', Returned result)).
Proof.
  unfold importData.
  destruct (parseCSV csv) as [|row rows] eqn:Hrows.
  - split_and!; [done | done | done].
  - destruct (fold_left _ _ _) as [st1 tick1].
    split_and!; [split; discriminate | discriminate | eauto].
Qed.

Lemma C6_throws_exactly_on_no_rows_witness :
  importData asciiHost exampleWorld (js "CustomerName,SiteName") seedStore
  = (seedStore, Threw CsvEmpty).
Proof.
  apply (C6_throws_exactly_on_no_rows asciiHost exampleWorld
           (js "CustomerName,SiteName") seedStore).
  reflexivity.
Defined.

(** C10. Whenever [importData] throws, the users, customers and special
    options in memory are what they were before the call and nothing
    was written to localStorage: the only throw comes before the first
    row is processed. *)
Theorem C10_throw_leaves_store_untouched
    (H : Host) (W : World) (csv : jsstring) (st : Store) (e : Exn) :
  (importData H W csv st).2 = Threw e ->
  (importData H W csv st).1 = st.
Proof.
  unfold importData.
  destruct (parseCSV csv) as [|row rows]; [done|].
  destruct (fold_left _ _ _) as [st1 tick1]. discriminate.
Qed.

Lemma C10_throw_leaves_store_untouched_witness :
  (importData asciiHost exampleWorld [] seedStore).2 = Threw CsvEmpty
  /\ (importData asciiHost exampleWorld [] seedStore).1 = seedStore.
Proof.
  split; [reflexivity|].
  apply (C10_throw_leaves_store_untouched asciiHost exampleWorld []
           seedStore CsvEmpty).
  reflexivity.
Defined.

(** ** Dates *)

Local Open Scope Z_scope.



(** Consecutive years start [DaysInYear] days apart. *)
Lemma DayFromYear_succ y : DayFromYear (y + 1) = DayFromYear y + DaysInYear y.
Proof.
  unfold DayFromYear, DaysInYear, isLeapYear.
  destruct (Z.eqb_spec (y mod 4) 0), (Z.eqb_spec (y mod 100) 0),
    (Z.eqb_spec (y mod 400) 0); simpl;
    Z.to_euclidean_division_equations; lia.
Qed.

(** The year of a day is the largest year that starts on or before
    it. *)
Lemma YearFromDay_spec d :
  DayFromYear (YearFromDay d) <= d < DayFromYear (YearFromDay d + 1).
Proof.
  unfold YearFromDay, DayFromYear. cbv zeta.
  set (d' := d + 134774).
  assert (Hd : d = d' - 134774) by (unfold d'; lia). rewrite Hd. clearbody d'. clear Hd d.
  pose proof (Z.div_mod d' 146097 ltac:(lia)) as E400.
  pose proof (Z.mod_pos_bound d' 146097 ltac:(lia)) as B400.
  set (n400 := d' / 146097) in *. set (r400 := d' mod 146097) in *.
  clearbody n400 r400.
  pose proof (Z.div_mod r400 36524 ltac:(lia)) as E100.
  pose proof (Z.mod_pos_bound r400 36524 ltac:(lia)) as B100.
  set (q100 := r400 / 36524) in *.
  set (n100 := Z.min q100 3).
  assert (Hn100 : 0 <= n100 <= 3) by (unfold n100; lia).
  set (r100 := r400 - n100 * 36524).
  assert (Hr100 : 0 <= r100 < 36525 /\ (n100 < 3 -> r100 < 36524)).
  { unfold r100, n100. destruct (Z.min_spec q100 3) as [[? ->]|[? ->]]; lia. }
  pose proof (Z.div_mod r100 1461 ltac:(lia)) as E4.
  pose proof (Z.mod_pos_bound r100 1461 ltac:(lia)) as B4.
  set (n4 := r100 / 1461) in *. set (r4 := r100 mod 1461) in *.
  pose proof (Z.div_mod r4 365 ltac:(lia)) as E1.
  pose proof (Z.mod_pos_bound r4 365 ltac:(lia)) as B1.
  set (q1 := r4 / 365) in *.
  set (n1 := Z.min q1 3).
  assert (Hn1 : 0 <= n1 <= 3) by (unfold n1; lia).
  assert (Hn4 : 0 <= n4 <= 24 /\ (n100 < 3 -> n4 * 1461 + r4 < 36524)) by lia.
  assert (Hr1 : 0 <= r4 - n1 * 365 < 366 /\ (n1 < 3 -> r4 - n1 * 365 < 365)).
  { unfold n1. destruct (Z.min_spec q1 3) as [[? ->]|[? ->]]; lia. }
  assert (Hd' : d' = 146097 * n400 + 36524 * n100 + 1461 * n4 + 365 * n1
                     + (r4 - n1 * 365)) by (unfold r100 in *; lia).
  clearbody n1 n4 r4 n100. clear E1 B1 q1 E4 B4 E100 B100 q100 E400 B400.
  subst r100. subst d'.
  set (y := 1601 + 400 * n400 + 100 * n100 + 4 * n4 + n1).
  Z.to_euclidean_division_equations. lia.
Qed.

(** The strict branch of [parseFrenchDateString], by its captures. *)
Lemma parseFrenchDateString_strict (H : Host) s p1 p2 p3 time :
  truthy s = true ->
  matchFrenchDate (removeFirstComma s) = Some (p1, p2, p3, time) ->
  parseFrenchDateString H s =
    match newDate H (parseInt p3) (parseInt p2 - 1) (parseInt p1)
            (match time with Some (p4, _, _) => parseInt p4 | None => 0 end)
            (match time with Some (_, p5, _) => parseInt p5 | None => 0 end)
            (match time with Some (_, _, p6) => parseInt p6 | None => 0 end)
    with
    | None => None
    | Some date =>
        if negb (getFullYear H date =? parseInt p3)
           || negb (getMonth H date =? parseInt p2 - 1)
           || negb (getDate H date =? parseInt p1)
        then None else Some date
    end.
Proof.
  intros Hs Hm. unfold parseFrenchDateString. by rewrite Hs, Hm.
Qed.



Local Close Scope Z_scope.

(** ** The CSV parser *)

(** Cutting the loop after a comma: a comma is never looked ahead at
    and never skipped. *)
Lemma scanLoop_cut_at_comma p :
  forall row cur q rest,
    scanLoop row cur q (p ++ COMMA :: rest)
    = scanLoop (scanLoop row cur q (p ++ [COMMA])).1.1
               (scanLoop row cur q (p ++ [COMMA])).1.2
               (scanLoop row cur q (p ++ [COMMA])).2 rest.
Proof.
  remember (length p) as n eqn:Hn. revert p Hn.
  induction n as [n IH] using lt_wf_ind. intros p Hn row cur q rest.
  destruct p as [|x p]; simpl.
  - destruct q; reflexivity.
  - destruct (x =? QUOTE).
    + destruct p as [|y p]; simpl.
      * destruct q; reflexivity.
      * destruct (q && (y =? QUOTE)).
        -- apply (IH (length p)); simpl in *; lia.
        -- apply (IH (length (y :: p)) ltac:(simpl in *; lia) (y :: p) eq_refl).
    + destruct ((x =? COMMA) && negb q);
        apply (IH (length p)); simpl in *; lia.
Qed.

(** The loop only ever appends to the fields already pushed. *)
Lemma scanLoop_row_grows s :
  forall row cur q, exists more, (scanLoop row cur q s).1.1 = row ++ more.
Proof.
  remember (length s) as n eqn:Hn. revert s Hn.
  induction n as [n IH] using lt_wf_ind. intros s Hn row cur q.
  destruct s as [|x s]; simpl.
  - exists []. by rewrite app_nil_r.
  - destruct (x =? QUOTE).
    + destruct s as [|y s]; simpl.
      * exists []. by rewrite app_nil_r.
      * destruct (q && (y =? QUOTE)).
        -- apply (IH (length s)); simpl in *; lia.
        -- apply (IH (length (y :: s)) ltac:(simpl in *; lia) (y :: s) eq_refl).
    + destruct ((x =? COMMA) && negb q).
      * destruct (IH (length s) ltac:(simpl in *; lia) s eq_refl
                    (row ++ [cur]) [] q) as [more Hmore].
        exists (cur :: more). rewrite Hmore. by rewrite <- app_assoc.
      * apply (IH (length s)); simpl in *; lia.
Qed.

(** From a field boundary, the quoted field followed by the end of the
    line or by a comma is one field, the literal value. *)
Lemma splitFields_quoted_field pre fs post :
  fieldBoundary pre fs ->
  post = [] \/ (exists post', post = COMMA :: post') ->
  splitFields (pre ++ quotedField ++ post) !! length fs = Some literalValue.
Proof.
  intros [Hpre Hscan] Hpost. unfold splitFields.
  assert (Hstart : scanLoop [] [] false (pre ++ quotedField ++ post)
                   = scanLoop fs [] false (quotedField ++ post)).
  { destruct Hpre as [->|[p ->]].
    - simpl in Hscan. by inversion Hscan.
    - rewrite <- app_assoc. simpl. rewrite scanLoop_cut_at_comma.
      by rewrite Hscan. }
  rewrite Hstart. destruct Hpost as [->|[post' ->]].
  - rewrite app_nil_r.
    change (scanLoop fs [] false quotedField) with (fs, literalValue, false).
    by apply list_lookup_middle.
  - change (scanLoop fs [] false (quotedField ++ COMMA :: post'))
      with (scanLoop (fs ++ [literalValue]) [] false post').
    destruct (scanLoop_row_grows post' (fs ++ [literalValue]) [] false)
      as [more Hmore].
    destruct (scanLoop _ _ _ post') as [[row cur] q]. simpl in Hmore.
    subst row. rewrite <- !app_assoc.
    by apply list_lookup_middle.
Qed.

(** A header name that is not assigned leaves the property alone. *)
Lemma assignFields_other headers :
  forall (o : Row) index row h,
    h ∉ headers -> assignFields o headers index row !! h = o !! h.
Proof.
  induction headers as [|h' headers IH]; intros o index row h Hnotin; [done|].
  simpl. apply not_elem_of_cons in Hnotin as [Hne Hnotin].
  rewrite IH by done. unfold assignProperty.
  destruct (decide (h' = PROTO)); [done|]. by rewrite lookup_insert_ne.
Qed.

(** The property named by the header at position [k] holds the cell at
    position [k], unless a later header has the same name or the name
    is [__proto__]. *)
Lemma assignFields_lookup headers :
  forall (o : Row) index row k h,
    headers !! k = Some h -> h ∉ drop (S k) headers -> h <> PROTO ->
    assignFields o headers index row !! h = Some (cell row (index + k)).
Proof.
  induction headers as [|h' headers IH];
    intros o index row k h Hk Hlater Hproto; [done|].
  destruct k as [|k]; simpl in *.
  - inversion Hk; subst h'. rewrite drop_0 in Hlater.
    rewrite assignFields_other by done. unfold assignProperty.
    rewrite decide_False by done.
    by rewrite lookup_insert_eq, Nat.add_0_r.
  - rewrite (IH _ _ _ k h) by done. f_equal. f_equal. lia.
Qed.

(** The parser on an untidy text: the mark and the carriage returns
    are dropped, the blank line is skipped, values are trimmed and the
    missing field of the short row reads as the empty string. *)
Example parseCSV_untidy :
  List.map (fun row => (rowGet row (js "CustomerName"),
                        rowGet row (js "SiteName")))
           (parseCSV untidyCsv)
  = [(js "Acme", js "Lyon"); (js "Bolt", [])].
Proof. reflexivity. Qed.

(** An empty text and a text with only a header give no row. *)
Example parseCSV_no_rows :
  parseCSV [] = [] /\ parseCSV (js "CustomerName,SiteName" ++ [LF]) = [].
Proof. split; reflexivity. Qed.

(** A character that is not white space survives trimming. *)
Lemma trimStart_keeps s x :
  x ∈ s -> isWhiteSpace x = false -> x ∈ trimStart s.
Proof.
  intros Hin Hx. induction s as [|c s IH]; [done|]. simpl.
  destruct (isWhiteSpace c) eqn:Hc; [|done].
  apply elem_of_cons in Hin as [->|Hin]; [congruence | by apply IH].
Qed.

Lemma trim_keeps s x : x ∈ s -> isWhiteSpace x = false -> x ∈ trim s.
Proof.
  intros Hin Hx. unfold trim, trimEnd.
  apply elem_of_reverse, trimStart_keeps; [|done].
  by apply elem_of_reverse, trimStart_keeps.
Qed.

Lemma parseLines_elem headers lines l :
  l ∈ lines -> truthy (trim l) = true ->
  parseLine headers l ∈ parseLines headers lines.
Proof.
  intros Hin Hl. induction lines as [|l' lines IH]; [by inversion Hin|].
  simpl. apply elem_of_cons in Hin as [<-|Hin].
  - rewrite Hl. by left.
  - destruct (truthy (trim l')); [right|]; by apply IH.
Qed.

(** C3, as amended.  In any data line, the quoted field of the example
    ([quotedField]: an embedded comma and a doubled quote between
    quotes), standing at a field boundary (at the start of the line or
    after an unquoted comma, and followed by the end of the line or a
    comma), is read as the five-character string made of a, comma, b,
    one quote and c: the row object holds it under the header of that
    position, provided no later header has the same name and the name
    is not [__proto__] (under which a row object stores nothing). *)
Theorem C3_quoted_field_is_literal
    (csv line0 : jsstring) (lines : list jsstring)
    (pre post : jsstring) (fs : list jsstring) (h : jsstring) :
  split LF (removeCR csv) = line0 :: lines ->
  pre ++ quotedField ++ post ∈ lines ->
  fieldBoundary pre fs ->
  post = [] \/ (exists post', post = COMMA :: post') ->
  parseHeaders line0 !! length fs = Some h ->
  h ∉ drop (S (length fs)) (parseHeaders line0) ->
  h <> PROTO ->
  exists row,
    row ∈ parseCSV csv
    /\ row = parseLine (parseHeaders line0) (pre ++ quotedField ++ post)
    /\ row !! h = Some [97; 44; 98; 34; 99]
    /\ rowGet row h = [97; 44; 98; 34; 99]
    /\ length (rowGet row h) = 5%nat.
Proof.
  intros Hsplit Hin Hpre Hpost Hh Hlater Hproto.
  exists (parseLine (parseHeaders line0) (pre ++ quotedField ++ post)).
  assert (Hval : parseLine (parseHeaders line0)
                   (pre ++ quotedField ++ post) !! h
                 = Some [97; 44; 98; 34; 99]).
  { unfold parseLine.
    rewrite (assignFields_lookup _ _ _ _ (length fs) h) by done.
    unfold cell. rewrite Nat.add_0_l.
    by rewrite (splitFields_quoted_field pre fs post). }
  split_and!; [|done|done|by unfold rowGet; rewrite Hval..].
  unfold parseCSV. rewrite Hsplit. apply parseLines_elem; [done|].
  assert (Hq : QUOTE ∈ trim (pre ++ quotedField ++ post)).
  { apply trim_keeps; [|done].
    apply elem_of_app; right. apply elem_of_app; left. by left. }
  by destruct (trim _); [inversion Hq|].
Qed.

Lemma C3_quoted_field_is_literal_witness :
  exists row,
    row ∈ parseCSV quotedCsv
    /\ row = parseLine (parseHeaders (js "Ref,Label,Qty"))
                      (js "7," ++ quotedField ++ js ",3")
    /\ row !! js "Label" = Some [97; 44; 98; 34; 99]
    /\ rowGet row (js "Label") = [97; 44; 98; 34; 99]
    /\ length (rowGet row (js "Label")) = 5%nat.
Proof.
  apply (C3_quoted_field_is_literal quotedCsv (js "Ref,Label,Qty")
           [js "7," ++ quotedField ++ js ",3"; []]
           (js "7,") (js ",3") [js "7"] (js "Label")).
  - reflexivity.
  - by left.
  - split; [right; by exists (js "7") | reflexivity].
  - right. by exists (js "3").
  - reflexivity.
  - apply (bool_decide_unpack _). vm_compute. reflexivity.
  - discriminate.
Defined.

(** C3, as first stated, fails on the length: the value read from the
    quoted field of [quotedCsv] has five characters, not seven. *)
Lemma C3_value_is_not_seven_characters :
  List.map (fun row => rowGet row (js "Label")) (parseCSV quotedCsv)
  = [js "a,b" ++ [QUOTE] ++ js "c"]
  /\ ~ (forall row, row ∈ parseCSV quotedCsv ->
                   length (rowGet row (js "Label")) = 7%nat).
Proof.
  split; [reflexivity|].
  intros Hall.
  specialize (Hall (parseLine (parseHeaders (js "Ref,Label,Qty"))
                      (js "7," ++ quotedField ++ js ",3"))).
  assert (Hlen : length (rowGet (parseLine (parseHeaders (js "Ref,Label,Qty"))
                      (js "7," ++ quotedField ++ js ",3")) (js "Label")) = 5%nat)
    by reflexivity.
  rewrite Hlen in Hall. 
  assert (5 = 7)%nat; [|lia]. apply Hall.
  vm_compute. left.
Qed.

(** ** Synthesized users *)

(** C7, as amended.  A row with a CustomerName and with an
    OrderAssignedUser that matches no user name, case-insensitively,
    appends exactly one user: named as the row says, with the
    lower-cased name, white space turned into dots, at example.com as
    email, and with the role that UserRole spells once trimmed and
    capitalised, Viewer when UserRole is blank or spells none of the
    three roles. *)
Theorem C7_unknown_assigned_user_is_created
    (H : Host) (W : World) (st : Store) (tick : nat) (row : Row) :
  truthy (rowGet row (js "CustomerName")) = true ->
  truthy (rowGet row (js "OrderAssignedUser")) = true ->
  Forall (fun u => ~ sameName H (user_name u)
                             (rowGet row (js "OrderAssignedUser")))
         (users st) ->
  exists u,
    users (processRow H W (st, tick) row).1 = users st ++ [u]
    /\ user_name u = rowGet row (js "OrderAssignedUser")
    /\ user_email u
       = dotsForSpaces (toLowerCase H (rowGet row (js "OrderAssignedUser")))
         ++ js "@example.com"
    /\ (let providedRole := trim (rowGet row (js "UserRole")) in
        (truthy providedRole = true ->
         formatRole H providedRole = js "Admin" -> user_role u = Admin)
        /\ (truthy providedRole = true ->
            formatRole H providedRole = js "Editor" -> user_role u = Editor)
        /\ (providedRole = []
            \/ (formatRole H providedRole <> js "Admin"
                /\ formatRole H providedRole <> js "Editor") ->
            user_role u = Viewer)).
Proof.
  intros Hcust Hassigned Hnew.
  exists (newUserFor H W row tick).
  unfold processRow, resolveUser. rewrite Hcust, Hassigned.
  rewrite (proj2 (list_find_None
                   (fun u => sameName H (user_name u)
                               (rowGet row (js "OrderAssignedUser")))
                   (users st)) Hnew).
  destruct (importCustomer _ _ _ _ _ _) as [cs tick2]. simpl.
  split_and!; try reflexivity; unfold roleOf.
  - intros -> Hrole. by rewrite Hrole.
  - intros -> Hrole. by rewrite Hrole.
  - intros [->|[Hadmin Heditor]]; [done|].
    destruct (truthy (trim _)); [|done].
    repeat case_decide; done.
Qed.

Lemma C7_unknown_assigned_user_is_created_witness :
  exists u,
    users (processRow asciiHost exampleWorld (seedStore, 0%nat)
             rowForNewUser).1 = users seedStore ++ [u]
    /\ user_email u = js "jean.dupont@example.com"
    /\ user_role u = Editor.
Proof.
  destruct (C7_unknown_assigned_user_is_created asciiHost exampleWorld
              seedStore 0%nat rowForNewUser)
    as (u & Husers & _ & Hemail & _ & Heditor & _).
  - reflexivity.
  - reflexivity.
  - repeat constructor; vm_compute; discriminate.
  - exists u. split; [exact Husers|]. split; [exact Hemail|].
    apply Heditor; reflexivity.
Defined.

(** C7, as first stated, fails for a row without a CustomerName: the
    OrderAssignedUser of the only row of [csvWithoutCustomer] matches
    no user, yet the import creates no user. *)
Lemma C7_no_user_without_customer_name :
  parseCSV csvWithoutCustomer = [rowWithoutCustomer]
  /\ rowGet rowWithoutCustomer (js "OrderAssignedUser") = js "Zoe"
  /\ Forall (fun u => ~ sameName asciiHost (user_name u) (js "Zoe"))
            (users seedStore)
  /\ users (importData asciiHost exampleWorld csvWithoutCustomer
              seedStore).1 = users seedStore.
Proof.
  split_and!; [reflexivity|reflexivity| |reflexivity].
  repeat constructor; vm_compute; discriminate.
Qed.

(** ** Uniqueness of user names and emails *)

Lemma uniqueUsers_snoc (H : Host) us u :
  uniqueUsers H us ->
  ~ Exists (fun v => sameName H (user_name v) (user_name u)) us ->
  ~ Exists (fun v => sameName H (user_email v) (user_email u)) us ->
  uniqueUsers H (us ++ [u]).
Proof.
  intros [Hnames Hemails] Hname Hemail. unfold uniqueUsers.
  rewrite !map_app. simpl. split.
  - apply NoDup_app. split_and!; [done| |apply NoDup_singleton].
    intros x Hx Hx'. apply list_elem_of_singleton in Hx'. subst x.
    apply Hname. apply Exists_exists.
    apply list_elem_of_In, in_map_iff in Hx as (v & Hv & Hin).
    exists v. split; [by apply list_elem_of_In | done].
  - apply NoDup_app. split_and!; [done| |apply NoDup_singleton].
    intros x Hx Hx'. apply list_elem_of_singleton in Hx'. subst x.
    apply Hemail. apply Exists_exists.
    apply list_elem_of_In, in_map_iff in Hx as (v & Hv & Hin).
    exists v. split; [by apply list_elem_of_In | done].
Qed.

(** [addUser] keeps names and emails unique, whether it throws or
    returns. *)
Lemma addUser_keeps_users_unique (H : Host) (W : World)
    name email password role st :
  uniqueUsers H (users st) ->
  uniqueUsers H (users (addUser H W name email password role st).1).
Proof.
  intros Huniq. unfold addUser.
  repeat case_bool_decide; simpl; try done.
  by apply uniqueUsers_snoc.
Qed.

(** [signup] keeps names and emails unique. *)
Lemma signup_keeps_users_unique (H : Host) (W : World)
    name email password st :
  uniqueUsers H (users st) ->
  uniqueUsers H (users (signup H W name email password st).1).
Proof.
  intros Huniq. unfold signup.
  repeat case_bool_decide; simpl; try done.
  by apply uniqueUsers_snoc.
Qed.

(** C2.  [importData] does not keep emails unique: starting from the
    seeded users, whose names and emails are unique, the two rows of
    [collidingCsv] create the users Jean Dupont and Jean.Dupont, both
    with the email jean.dupont@example.com. *)
Theorem C2_import_creates_duplicate_emails :
  uniqueUsers asciiHost (users seedStore)
  /\ List.map user_email
       (drop 3 (users (importData asciiHost exampleWorld collidingCsv
                         seedStore).1))
     = [js "jean.dupont@example.com"; js "jean.dupont@example.com"]
  /\ ~ uniqueUsers asciiHost
        (users (importData asciiHost exampleWorld collidingCsv seedStore).1).
Proof.
  split_and!.
  - apply (bool_decide_unpack _). vm_compute. reflexivity.
  - reflexivity.
  - apply (proj1 (bool_decide_eq_false _)). vm_compute. reflexivity.
Qed.

(** ** Finding and updating records *)

Section Find.

Context {A : Type} (P : A -> Prop) `{!forall x, Decision (P x)}.

(** A record pushed because none matched is the first match. *)
Lemma list_find_pushed (l : list A) (x : A) :
  list_find P l = None -> P x ->
  list_find P (l ++ [x]) = Some (length l, x).
Proof.
  intros Hnone Hx. rewrite list_find_app_r by done. simpl.
  by rewrite decide_True.
Qed.

(** A record updated in place without losing the match is still the
    first match. *)
Lemma list_find_updated (l : list A) (i : nat) (x y : A) :
  list_find P l = Some (i, x) -> P y ->
  list_find P (<[i := y]> l) = Some (i, y).
Proof.
  intros (Hi & _ & Hfirst)%list_find_Some Hy. apply list_find_Some.
  split_and!; [|done|].
  - apply list_lookup_insert_eq. by eapply lookup_lt_Some.
  - intros j z Hj Hlt. rewrite list_lookup_insert_ne in Hj by lia. eauto.
Qed.

(** The first match keeps its place when the list grows, as long as
    growing preserves matching. *)
Lemma list_find_grows (R : A -> A -> Prop) (l l' : list A) (i : nat) (x : A) :
  (forall a b, R a b -> P a <-> P b) ->
  grows R l l' ->
  list_find P l = Some (i, x) ->
  exists y, list_find P l' = Some (i, y) /\ R x y.
Proof.
  intros HR (l1 & l2 & -> & Hall) (Hi & Hx & Hfirst)%list_find_Some.
  destruct (Forall2_lookup_l _ _ _ _ _ Hall Hi) as (y & Hy & Hxy).
  exists y. split; [|done]. apply list_find_app_l, list_find_Some.
  split_and!; [done|by apply (HR x y)|].
  intros j z Hj Hlt Hz.
  destruct (Forall2_lookup_r _ _ _ _ _ Hall Hj) as (w & Hw & Hwz).
  apply (Hfirst j w); [done..|]. by apply (HR w z).
Qed.

End Find.

Section Grows.

Context {A : Type} (R : A -> A -> Prop).

Lemma grows_refl (l : list A) : (forall x, R x x) -> grows R l l.
Proof.
  intros Hrefl. exists l, []. split; [by rewrite app_nil_r|].
  by apply Forall2_same_length_lookup_2; [|intros i x y -> [= ->]].
Qed.

Lemma grows_trans (l1 l2 l3 : list A) :
  (forall x y z, R x y -> R y z -> R x z) ->
  grows R l1 l2 -> grows R l2 l3 -> grows R l1 l3.
Proof.
  intros Htrans (m1 & e1 & -> & H12) (m2 & e2 & -> & H23).
  apply Forall2_app_inv_l in H23 as (m2a & m2b & Ha & Hb & ->).
  exists m2a, (m2b ++ e2). split; [by rewrite app_assoc|].
  clear Hb. revert m2a Ha.
  induction H12 as [|x y l m Hxy _ IH]; intros m2a Ha.
  - by apply Forall2_nil_inv_l in Ha as ->.
  - apply Forall2_cons_inv_l in Ha as (z & m2a' & Hyz & Ha & ->).
    constructor; eauto.
Qed.

(** Pushing a record. *)
Lemma grows_push (l : list A) (x : A) :
  (forall x, R x x) -> grows R l (l ++ [x]).
Proof.
  intros Hrefl. exists l, [x]. split; [done|].
  by apply Forall2_same_length_lookup_2; [|intros i a b -> [= ->]].
Qed.

(** Updating a record in place. *)
Lemma grows_update (l : list A) (i : nat) (x y : A) :
  (forall x, R x x) -> l !! i = Some x -> R x y -> grows R l (<[i := y]> l).
Proof.
  intros Hrefl Hi Hxy. exists (<[i := y]> l), [].
  split; [by rewrite app_nil_r|].
  apply Forall2_same_length_lookup_2; [by rewrite length_insert|].
  intros j a b Ha Hb. destruct (decide (i = j)) as [->|Hne].
  - rewrite list_lookup_insert_eq in Hb by (by eapply lookup_lt_Some).
    congruence.
  - rewrite list_lookup_insert_ne in Hb by done.
    assert (a = b) as -> by congruence. done.
Qed.

Lemma grows_lookup (l l' : list A) (i : nat) (x : A) :
  grows R l l' -> l !! i = Some x -> exists y, l' !! i = Some y /\ R x y.
Proof.
  intros (l1 & l2 & -> & Hall) Hi.
  destruct (Forall2_lookup_l _ _ _ _ _ Hall Hi) as (y & Hy & Hxy).
  exists y. split; [by apply lookup_app_l_Some|done].
Qed.

End Grows.

(** ** The import, level by level *)

Section ImportSteps.

Context (H : Host).

Lemma setOrders_same s : setOrders s (orders s) = s.
Proof. by destruct s. Qed.

Lemma setSites_same c : setSites c (sites c) = c.
Proof. by destruct c. Qed.

Lemma siteExt_refl s : siteExt s s.
Proof. by unfold siteExt. Qed.

Lemma siteExt_trans s1 s2 s3 : siteExt s1 s2 -> siteExt s2 s3 -> siteExt s1 s3.
Proof.
  intros (Hid1 & Hn1 & Hf1 & Hi1 & Ho1) (Hid2 & Hn2 & Hf2 & Hi2 & Ho2).
  unfold siteExt. split_and!; try congruence.
  - intros Ht. rewrite Hi2; [by apply Hi1|]. by rewrite (Hi1 Ht).
  - by etrans.
Qed.

Lemma customerExt_refl c : customerExt c c.
Proof.
  unfold customerExt. split_and!; try done.
  apply grows_refl, siteExt_refl.
Qed.

Lemma customerExt_trans c1 c2 c3 :
  customerExt c1 c2 -> customerExt c2 c3 -> customerExt c1 c3.
Proof.
  intros (Hid1 & Hn1 & Hi1 & Hs1) (Hid2 & Hn2 & Hi2 & Hs2).
  unfold customerExt. split_and!; try congruence.
  - intros Ht. rewrite Hi2; [by apply Hi1|]. by rewrite (Hi1 Ht).
  - eapply grows_trans; [apply siteExt_trans|done..].
Qed.

Lemma storeExt_refl st : storeExt st st.
Proof. split; [done|]. apply grows_refl, customerExt_refl. Qed.

Lemma storeExt_trans st1 st2 st3 :
  storeExt st1 st2 -> storeExt st2 st3 -> storeExt st1 st3.
Proof.
  intros [Hu1 Hc1] [Hu2 Hc2]. split; [by etrans|].
  eapply grows_trans; [apply customerExt_trans|done..].
Qed.

(** *** Orders *)

Lemma orderExists_app os os' partType number :
  orderExists (os ++ os') partType number
  = orderExists os partType number || orderExists os' partType number.
Proof. unfold orderExists. apply existsb_app. Qed.

Lemma orderExists_prefix os os' partType number :
  os `prefix_of` os' -> orderExists os partType number = true ->
  orderExists os' partType number = true.
Proof. intros [more ->] Hex. by rewrite orderExists_app, Hex. Qed.

(** The order that a row creates carries the row's part under the
    row's part type. *)
Lemma newOrderFor_part (W : World) row u partType tick :
  exists part,
    partOf partType (newOrderFor H W row u partType tick).1 = Some part
    /\ part_number part = rowGet row (js "OrderNumber")
    /\ part_isSent part = bool_decide (rowGet row (js "OrderStatus") = ENVOYEE)
    /\ frames (newOrderFor H W row u partType tick).1
       = match partType with Frames => Some part | Doors => None end
    /\ doors (newOrderFor H W row u partType tick).1
       = match partType with Doors => Some part | Frames => None end.
Proof.
  unfold newOrderFor. destruct (creationDateISO _ _ _ _) as [date tick1].
  destruct partType; simpl; eexists; split_and!; reflexivity.
Qed.

(** What [importOrder] does: nothing when the row is settled, and
    otherwise it pushes the row's new order. *)
Lemma importOrder_cases (W : World) row user os tick :
  (orderSettled H row (isSome user) os = true
   /\ importOrder H W row user os tick = (os, tick))
  \/ (orderSettled H row (isSome user) os = false
      /\ exists u partType,
          user = Some u
          /\ partTypeOf H (rowGet row (js "OrderPart")) = Some partType
          /\ orderExists os partType (rowGet row (js "OrderNumber")) = false
          /\ importOrder H W row user os tick
             = (os ++ [(newOrderFor H W row u partType tick).1],
                (newOrderFor H W row u partType tick).2)).
Proof.
  unfold importOrder, orderSettled.
  destruct user as [u|]; simpl; [|by left].
  destruct (truthy _ && truthy _); simpl; [|by left].
  destruct (partTypeOf _ _) as [partType|]; [|by left].
  destruct (orderExists _ _ _) eqn:Hex; [by left|].
  right. split; [done|]. exists u, partType.
  destruct (newOrderFor _ _ _ _ _ _) as [o tick1]. by split_and!.
Qed.

Lemma importOrder_settled (W : World) row user os tick :
  orderSettled H row (isSome user) os = true ->
  importOrder H W row user os tick = (os, tick).
Proof.
  intros Hs. destruct (importOrder_cases W row user os tick)
    as [[_ ?]|[? _]]; [done|congruence].
Qed.

Lemma importOrder_prefix (W : World) row user os tick :
  os `prefix_of` (importOrder H W row user os tick).1.
Proof.
  destruct (importOrder_cases W row user os tick)
    as [[_ ->]|[_ (u & pt & _ & _ & _ & ->)]]; simpl; [done|].
  by apply prefix_app_r.
Qed.

Lemma importOrder_settles (W : World) row user os tick :
  orderSettled H row (isSome user) (importOrder H W row user os tick).1 = true.
Proof.
  destruct (importOrder_cases W row user os tick)
    as [[Hs ->]|[_ (u & pt & -> & Hpt & _ & ->)]]; simpl; [done|].
  unfold orderSettled. rewrite Hpt, orderExists_app.
  destruct (newOrderFor_part W row u pt tick) as (part & Hpart & Hnum & _).
  unfold orderExists at 2. simpl. rewrite Hpart, Hnum.
  rewrite bool_decide_eq_true_2 by done.
  by rewrite !orb_true_r.
Qed.

Lemma orderSettled_prefix row hasUser os os' :
  os `prefix_of` os' ->
  orderSettled H row hasUser os = true ->
  orderSettled H row hasUser os' = true.
Proof.
  unfold orderSettled. intros Hpre Hs.
  destruct (negb hasUser || _); [done|]. simpl in *.
  destruct (partTypeOf _ _); [|done]. by eapply orderExists_prefix.
Qed.

(** *** Sites *)

Lemma backfilledSite_ext row s : siteExt s (backfilledSite row s).
Proof.
  unfold backfilledSite, siteExt.
  destruct (truthy (rowGet row _)); simpl; [|done].
  destruct (truthy (generalInfo s)) eqn:Hinfo; simpl; by split_and!.
Qed.

Lemma backfilledSite_filled row s :
  truthy (rowGet row (js "SiteGeneralInfo")) = true ->
  truthy (generalInfo (backfilledSite row s)) = true.
Proof.
  intros Hinfo. unfold backfilledSite. rewrite Hinfo. simpl.
  by destruct (truthy (generalInfo s)) eqn:Hs.
Qed.

Lemma backfilledSite_settled row s :
  (truthy (rowGet row (js "SiteGeneralInfo")) = true ->
   truthy (generalInfo s) = true) ->
  backfilledSite row s = s.
Proof.
  intros Hinfo. unfold backfilledSite.
  destruct (truthy (rowGet row _)); simpl; [|done].
  by rewrite Hinfo.
Qed.

Lemma importSite_settled (W : World) row user ss tick :
  siteSettled H row (isSome user) ss ->
  importSite H W row user ss tick = (ss, tick).
Proof.
  unfold importSite. intros [->|(j & s & Hfind & Hinfo & Hord)]; [done|].
  destruct (truthy (rowGet row (js "SiteName"))); [|done].
  rewrite Hfind, backfilledSite_settled by done.
  rewrite importOrder_settled by done.
  apply list_find_Some in Hfind as (Hj & _).
  by rewrite setOrders_same, list_insert_id.
Qed.

Lemma importSite_settles (W : World) row user ss tick :
  siteSettled H row (isSome user) (importSite H W row user ss tick).1.
Proof.
  unfold importSite, siteSettled.
  destruct (truthy (rowGet row (js "SiteName"))) eqn:Hname; [right|by left].
  destruct (list_find _ ss) as [[j s]|] eqn:Hfind.
  - pose proof (importOrder_settles W row user
                  (orders (backfilledSite row s)) tick) as Hord.
    destruct (importOrder _ _ _ _ _ _) as [os tick1]. simpl in *.
    exists j, (setOrders (backfilledSite row s) os). split_and!.
    + eapply list_find_updated; [done|]. simpl.
      apply list_find_Some in Hfind as (_ & Hs & _).
      by destruct (backfilledSite_ext row s) as (_ & -> & _).
    + apply backfilledSite_filled.
    + done.
  - pose proof (importOrder_settles W row user
                  (orders (pushedSite W row tick)) (S tick)) as Hord.
    destruct (importOrder _ _ _ _ _ _) as [os tick1]. simpl in *.
    exists (length ss), (setOrders (pushedSite W row tick) os). split_and!.
    + by apply list_find_pushed.
    + done.
    + done.
Qed.

Lemma importSite_grows (W : World) row user ss tick :
  grows siteExt ss (importSite H W row user ss tick).1.
Proof.
  unfold importSite.
  destruct (truthy (rowGet row (js "SiteName")));
    [|apply grows_refl, siteExt_refl].
  destruct (list_find _ ss) as [[j s]|] eqn:Hfind.
  - pose proof (importOrder_prefix W row user
                  (orders (backfilledSite row s)) tick) as Hpre.
    destruct (importOrder _ _ _ _ _ _) as [os tick1]. simpl in *.
    apply list_find_Some in Hfind as (Hj & _).
    eapply grows_update; [apply siteExt_refl|done|].
    destruct (backfilledSite_ext row s) as (? & ? & ? & ? & ?).
    unfold siteExt. simpl. split_and!; try done. by etrans.
  - destruct (importOrder _ _ _ _ _ _) as [os tick1]. simpl.
    apply grows_push, siteExt_refl.
Qed.

Lemma siteSettled_grows row hasUser ss ss' :
  grows siteExt ss ss' ->
  siteSettled H row hasUser ss -> siteSettled H row hasUser ss'.
Proof.
  intros Hgrows [Hname|(j & s & Hfind & Hinfo & Hord)]; [by left|right].
  destruct (list_find_grows
              (fun s => sameName H (site_name s) (rowGet row (js "SiteName")))
              siteExt ss ss' j s) as (s' & Hfind' & Hext);
    [|done..|].
  { intros a b (_ & Hn & _). unfold sameName. by rewrite Hn. }
  destruct Hext as (_ & _ & _ & Hkeep & Hpre).
  exists j, s'. split_and!; [done| |by eapply orderSettled_prefix].
  intros Ht. specialize (Hinfo Ht). by rewrite (Hkeep Hinfo).
Qed.

(** Outside the site that the row addresses, no order list changes;
    inside, [importOrder] runs on the orders of that site, which the
    row still addresses afterwards. *)
Lemma importSite_frame (W : World) row user ss tick :
  truthy (rowGet row (js "SiteName")) = true ->
  exists before after tick',
    siteOrders ss = before ++ siteTargetOrders H ss row ++ after
    /\ siteOrders (importSite H W row user ss tick).1
       = before
         ++ (importOrder H W row user (siteTargetOrders H ss row) tick').1
         ++ after
    /\ siteTargetOrders H (importSite H W row user ss tick).1 row
       = (importOrder H W row user (siteTargetOrders H ss row) tick').1.
Proof.
  intros Hname. unfold importSite, siteTargetOrders, siteOrders.
  rewrite Hname.
  destruct (list_find _ ss) as [[j s]|] eqn:Hfind.
  - pose proof Hfind as (Hj & Hs & _)%list_find_Some.
    assert (Hsame : orders (backfilledSite row s) = orders s).
    { unfold backfilledSite. by destruct (_ && _). }
    rewrite Hsame.
    exists (take j ss ≫= orders), (drop (S j) ss ≫= orders), tick.
    destruct (importOrder _ _ _ _ _ _) as [os tick1]. simpl. split_and!.
    + rewrite <- (take_drop_middle ss j s Hj) at 1.
      by rewrite bind_app, bind_cons.
    + rewrite insert_take_drop by (by eapply lookup_lt_Some).
      by rewrite bind_app, bind_cons.
    + erewrite list_find_updated; [done..|]. simpl.
      by destruct (backfilledSite_ext row s) as (_ & -> & _).
  - exists (ss ≫= orders), [], (S tick).
    destruct (importOrder _ _ _ _ _ _) as [os tick1]. simpl. split_and!.
    + by rewrite app_nil_r.
    + rewrite bind_app, bind_cons. simpl. by rewrite !app_nil_r.
    + by erewrite list_find_pushed.
Qed.

(** *** Customers *)

Lemma backfilledCustomer_ext row c : customerExt c (backfilledCustomer row c).
Proof.
  unfold backfilledCustomer.
  destruct (truthy (rowGet row _)); simpl; [|apply customerExt_refl].
  destruct (truthy (customer_notes c)) eqn:Hnotes; simpl;
    [apply customerExt_refl|].
  unfold customerExt. simpl. rewrite Hnotes. split_and!; try done.
  apply grows_refl, siteExt_refl.
Qed.

Lemma backfilledCustomer_sites row c :
  sites (backfilledCustomer row c) = sites c.
Proof. unfold backfilledCustomer. by destruct (_ && _). Qed.

Lemma backfilledCustomer_filled row c :
  truthy (rowGet row (js "CustomerNotes")) = true ->
  truthy (customer_notes (backfilledCustomer row c)) = true.
Proof.
  intros Hnotes. unfold backfilledCustomer. rewrite Hnotes. simpl.
  by destruct (truthy (customer_notes c)) eqn:Hc.
Qed.

Lemma backfilledCustomer_settled row c :
  (truthy (rowGet row (js "CustomerNotes")) = true ->
   truthy (customer_notes c) = true) ->
  backfilledCustomer row c = c.
Proof.
  intros Hnotes. unfold backfilledCustomer.
  destruct (truthy (rowGet row _)); simpl; [|done].
  by rewrite Hnotes.
Qed.

Lemma importCustomer_settled (W : World) row user cs tick :
  customerSettled H row (isSome user) cs ->
  importCustomer H W row user cs tick = (cs, tick).
Proof.
  unfold importCustomer. intros (i & c & Hfind & Hnotes & Hsite).
  rewrite Hfind, backfilledCustomer_settled by done.
  rewrite importSite_settled by done.
  apply list_find_Some in Hfind as (Hi & _).
  by rewrite setSites_same, list_insert_id.
Qed.

Lemma importCustomer_settles (W : World) row user cs tick :
  customerSettled H row (isSome user) (importCustomer H W row user cs tick).1.
Proof.
  unfold importCustomer, customerSettled.
  destruct (list_find _ cs) as [[i c]|] eqn:Hfind.
  - pose proof (importSite_settles W row user
                  (sites (backfilledCustomer row c)) tick) as Hsite.
    destruct (importSite _ _ _ _ _ _) as [ss tick1]. simpl in *.
    exists i, (setSites (backfilledCustomer row c) ss). split_and!.
    + eapply list_find_updated; [done|]. simpl.
      apply list_find_Some in Hfind as (_ & Hc & _).
      by destruct (backfilledCustomer_ext row c) as (_ & -> & _).
    + apply backfilledCustomer_filled.
    + done.
  - pose proof (importSite_settles W row user
                  (sites (pushedCustomer W row tick)) (S tick)) as Hsite.
    destruct (importSite _ _ _ _ _ _) as [ss tick1]. simpl in *.
    exists (length cs), (setSites (pushedCustomer W row tick) ss). split_and!.
    + by apply list_find_pushed.
    + done.
    + done.
Qed.

Lemma importCustomer_grows (W : World) row user cs tick :
  grows customerExt cs (importCustomer H W row user cs tick).1.
Proof.
  unfold importCustomer.
  destruct (list_find _ cs) as [[i c]|] eqn:Hfind.
  - pose proof (importSite_grows W row user
                  (sites (backfilledCustomer row c)) tick) as Hsites.
    destruct (importSite _ _ _ _ _ _) as [ss tick1]. simpl in *.
    apply list_find_Some in Hfind as (Hi & _).
    eapply grows_update; [apply customerExt_refl|done|].
    eapply customerExt_trans; [apply (backfilledCustomer_ext row)|].
    unfold customerExt. by split_and!.
  - destruct (importSite _ _ _ _ _ _) as [ss tick1]. simpl.
    apply grows_push, customerExt_refl.
Qed.

Lemma customerSettled_grows row hasUser cs cs' :
  grows customerExt cs cs' ->
  customerSettled H row hasUser cs -> customerSettled H row hasUser cs'.
Proof.
  intros Hgrows (i & c & Hfind & Hnotes & Hsite).
  destruct (list_find_grows
              (fun c => sameName H (customer_name c)
                          (rowGet row (js "CustomerName")))
              customerExt cs cs' i c) as (c' & Hfind' & Hext);
    [|done..|].
  { intros a b (_ & Hn & _). unfold sameName. by rewrite Hn. }
  destruct Hext as (_ & _ & Hkeep & Hsites).
  exists i, c'. split_and!; [done| |by eapply siteSettled_grows].
  intros Ht. specialize (Hnotes Ht). by rewrite (Hkeep Hnotes).
Qed.

(** Outside the site that the row addresses no order list changes;
    inside, [importOrder] runs on the orders of that site, which the
    row still addresses afterwards. *)
Lemma importCustomer_frame (W : World) row user cs tick :
  truthy (rowGet row (js "SiteName")) = true ->
  exists before after tick',
    allOrders cs = before ++ targetOrders H cs row ++ after
    /\ allOrders (importCustomer H W row user cs tick).1
       = before
         ++ (importOrder H W row user (targetOrders H cs row) tick').1
         ++ after
    /\ targetOrders H (importCustomer H W row user cs tick).1 row
       = (importOrder H W row user (targetOrders H cs row) tick').1.
Proof.
  intros Hname. unfold importCustomer, targetOrders, allOrders.
  destruct (list_find _ cs) as [[i c]|] eqn:Hfind.
  - pose proof Hfind as (Hi & Hc & _)%list_find_Some.
    rewrite backfilledCustomer_sites.
    destruct (importSite_frame W row user (sites c) tick Hname)
      as (before & after & tick' & Hold & Hnew & Htarget).
    destruct (importSite _ _ _ _ _ _) as [ss tick1]. simpl in *.
    exists ((take i cs ≫= fun c => siteOrders (sites c)) ++ before),
      (after ++ (drop (S i) cs ≫= fun c => siteOrders (sites c))), tick'.
    split_and!.
    + rewrite <- (take_drop_middle cs i c Hi) at 1.
      rewrite bind_app, bind_cons, Hold. by rewrite <- !app_assoc.
    + rewrite insert_take_drop by (by eapply lookup_lt_Some).
      rewrite bind_app, bind_cons. simpl. rewrite Hnew.
      by rewrite <- !app_assoc.
    + erewrite list_find_updated; [done..|]. simpl.
      by destruct (backfilledCustomer_ext row c) as (_ & -> & _).
  - destruct (importSite_frame W row user (sites (pushedCustomer W row tick))
                (S tick) Hname)
      as (before & after & tick' & Hold & Hnew & Htarget).
    destruct (importSite _ _ _ _ _ _) as [ss tick1]. simpl in *.
    change (siteTargetOrders H [] row) with (@nil Order) in *.
    exists ((cs ≫= fun c => siteOrders (sites c)) ++ before), after, tick'.
    symmetry in Hold. apply app_eq_nil in Hold as [-> Hold].
    simpl in Hold. subst after. simpl in *. split_and!.
    + by rewrite !app_nil_r.
    + rewrite bind_app, bind_cons. simpl. rewrite Hnew.
      by rewrite !app_nil_r.
    + by erewrite list_find_pushed.
Qed.

(** A row without a site name leaves every order list alone. *)
Lemma importCustomer_no_site (W : World) row user cs tick :
  truthy (rowGet row (js "SiteName")) = false ->
  allOrders (importCustomer H W row user cs tick).1 = allOrders cs.
Proof.
  intros Hname. unfold importCustomer, importSite, allOrders. rewrite Hname.
  destruct (list_find _ cs) as [[i c]|] eqn:Hfind; simpl.
  - apply list_find_Some in Hfind as (Hi & _).
    rewrite insert_take_drop by (by eapply lookup_lt_Some).
    rewrite <- (take_drop_middle cs i c Hi) at 3.
    rewrite !bind_app, !bind_cons. simpl.
    by rewrite backfilledCustomer_sites.
  - rewrite bind_app, bind_cons. simpl. by rewrite !app_nil_r.
Qed.

(** *** Rows *)

Lemma resolveUser_cases (W : World) row us tick :
  let assigned := rowGet row (js "OrderAssignedUser") in
  (truthy assigned = false /\ resolveUser H W row us tick = (us, None, tick))
  \/ (truthy assigned = true
      /\ exists u, u ∈ us /\ sameName H (user_name u) assigned
                  /\ resolveUser H W row us tick = (us, Some u, tick))
  \/ (truthy assigned = true
      /\ Forall (fun u => ~ sameName H (user_name u) assigned) us
      /\ resolveUser H W row us tick
         = (us ++ [newUserFor H W row tick], Some (newUserFor H W row tick),
            S tick)).
Proof.
  unfold resolveUser. simpl.
  destruct (truthy _) eqn:Hassigned; [right|by left].
  destruct (list_find _ us) as [[i u]|] eqn:Hfind; [left|right].
  - apply list_find_Some in Hfind as (Hi & Hu & _).
    split; [done|]. exists u. split_and!; [|done..].
    by eapply list_elem_of_lookup_2.
  - apply list_find_None in Hfind. by split_and!.
Qed.

Lemma store_eta st :
  {| users := users st; customers := customers st;
     specialOptions := specialOptions st;
     storageWrites := storageWrites st |} = st.
Proof. by destruct st. Qed.

(** A settled row changes nothing, whatever the world. *)
Lemma processRow_settled (W : World) row st tick :
  rowSettled H row st -> processRow H W (st, tick) row = (st, tick).
Proof.
  unfold processRow. intros [->|[Huser Hcust]]; [done|].
  destruct (truthy (rowGet row (js "CustomerName"))); [|done].
  destruct (resolveUser_cases W row (users st) tick)
    as [[Hno ->]|[(Hyes & u & _ & _ & ->)|(Hyes & Hnew & _)]].
  - rewrite Hno in Hcust.
    rewrite (importCustomer_settled W row None) by done.
    by rewrite store_eta.
  - rewrite Hyes in Hcust.
    rewrite (importCustomer_settled W row (Some u)) by done.
    by rewrite store_eta.
  - specialize (Huser Hyes). apply Exists_exists in Huser as (u & Hin & Hu).
    rewrite Forall_forall in Hnew. by destruct (Hnew u Hin).
Qed.

(** Once processed, a row is settled. *)
Lemma processRow_settles (W : World) row st tick :
  rowSettled H row (processRow H W (st, tick) row).1.
Proof.
  unfold processRow, rowSettled.
  destruct (truthy (rowGet row (js "CustomerName"))) eqn:Hname;
    [right|by left].
  destruct (resolveUser_cases W row (users st) tick)
    as [[Hno ->]|[(Hyes & u & Hin & Hu & ->)|(Hyes & Hnew & ->)]].
  - pose proof (importCustomer_settles W row None (customers st) tick) as Hc.
    destruct (importCustomer _ _ _ _ _ _) as [cs tick2]. simpl in *.
    rewrite Hno. split; [done|done].
  - pose proof (importCustomer_settles W row (Some u) (customers st) tick)
      as Hc.
    destruct (importCustomer _ _ _ _ _ _) as [cs tick2]. simpl in *.
    rewrite Hyes. split; [|done].
    intros _. apply Exists_exists. eauto.
  - pose proof (importCustomer_settles W row
                  (Some (newUserFor H W row tick)) (customers st) (S tick))
      as Hc.
    destruct (importCustomer _ _ _ _ _ _) as [cs tick2]. simpl in *.
    rewrite Hyes. split; [|done].
    intros _. apply Exists_app. right. by apply Exists_cons_hd.
Qed.

(** Processing a row only extends the store, and never touches the
    special options or localStorage. *)
Lemma processRow_ext (W : World) row st tick :
  storeExt st (processRow H W (st, tick) row).1
  /\ specialOptions (processRow H W (st, tick) row).1 = specialOptions st
  /\ storageWrites (processRow H W (st, tick) row).1 = storageWrites st.
Proof.
  unfold processRow.
  destruct (truthy (rowGet row (js "CustomerName")));
    [|split_and!; [apply storeExt_refl|done..]].
  assert (Hus : users st `prefix_of` (resolveUser H W row (users st) tick).1.1).
  { destruct (resolveUser_cases W row (users st) tick)
      as [[_ ->]|[(_ & u & _ & _ & ->)|(_ & _ & ->)]]; simpl; try done.
    by apply prefix_app_r. }
  destruct (resolveUser _ _ _ _ _) as [[us user] tick1]. simpl in Hus.
  pose proof (importCustomer_grows W row user (customers st) tick1) as Hcs.
  destruct (importCustomer _ _ _ _ _ _) as [cs tick2]. simpl in *.
  by split_and!.
Qed.

Lemma rowSettled_ext row st st' :
  storeExt st st' -> rowSettled H row st -> rowSettled H row st'.
Proof.
  intros [[more Hus] Hcs] [Hname|[Huser Hcust]]; [by left|right]. split.
  - intros Hyes. rewrite Hus. apply Exists_app. left. by apply Huser.
  - by eapply customerSettled_grows.
Qed.

(** *** The loop over the rows *)

Lemma importRows_ext (W : World) rows :
  forall st tick,
    storeExt st (fold_left (processRow H W) rows (st, tick)).1
    /\ specialOptions (fold_left (processRow H W) rows (st, tick)).1
       = specialOptions st
    /\ storageWrites (fold_left (processRow H W) rows (st, tick)).1
       = storageWrites st.
Proof.
  induction rows as [|row rows IH]; intros st tick; cbn [fold_left].
  - split_and!; [apply storeExt_refl|done..].
  - destruct (processRow_ext W row st tick) as (Hext & Hopt & Hwrites).
    destruct (processRow H W (st, tick) row) as [st1 tick1].
    cbn [fst snd] in *.
    destruct (IH st1 tick1) as (Hext' & Hopt' & Hwrites').
    split_and!; [exact (storeExt_trans _ _ _ Hext Hext')|congruence..].
Qed.

(** After the loop every row is settled. *)
Lemma importRows_settles (W : World) rows :
  forall st tick row,
    row ∈ rows ->
    rowSettled H row (fold_left (processRow H W) rows (st, tick)).1.
Proof.
  induction rows as [|r rows IH]; intros st tick row Hin; [by inversion Hin|].
  cbn [fold_left]. pose proof (processRow_settles W r st tick) as Hr.
  destruct (processRow H W (st, tick) r) as [st1 tick1]. cbn [fst] in Hr.
  apply elem_of_cons in Hin as [->|Hin]; [|by apply IH].
  eapply rowSettled_ext; [|done]. apply importRows_ext.
Qed.

(** A loop over settled rows changes nothing. *)
Lemma importRows_settled (W : World) rows st tick :
  (forall row, row ∈ rows -> rowSettled H row st) ->
  fold_left (processRow H W) rows (st, tick) = (st, tick).
Proof.
  induction rows as [|r rows IH]; intros Hall; [done|]. cbn [fold_left].
  rewrite processRow_settled by (apply Hall; by left).
  apply IH. intros row Hin. apply Hall. by right.
Qed.

(** The second import of a text finds every row settled: it returns
    the users and customers of the first import untouched. *)
Lemma importData_twice (W1 W2 : World) csv st :
  let st1 := (importData H W1 csv st).1 in
  users (importData H W2 csv st1).1 = users st1
  /\ customers (importData H W2 csv st1).1 = customers st1.
Proof.
  unfold importData. destruct (parseCSV csv) as [|r rows] eqn:Hrows; [done|].
  pose proof (importRows_settles W1 (r :: rows) st 0%nat) as Hsettled.
  destruct (fold_left (processRow H W1) (r :: rows) (st, 0%nat))
    as [st1 tick1] eqn:Hfirst.
  cbn [fst snd] in *.
  rewrite (importRows_settled W2 (r :: rows)
             (saveUsers (saveCustomers st1)) 0%nat); [done|].
  intros row Hin. eapply rowSettled_ext; [|by apply Hsettled].
  split; simpl; [done|]. apply grows_refl, customerExt_refl.
Qed.

(** *** What one row does to orders, notes and general info *)

Lemma truthy_false s : truthy s = false <-> s = [].
Proof. by destruct s. Qed.

(** The orders of the store after a row that names a customer and a
    site: changed by [importOrder] at the site the row addresses, and
    nowhere else. *)
Lemma processRow_frame (W : World) row st tick :
  truthy (rowGet row (js "CustomerName")) = true ->
  truthy (rowGet row (js "SiteName")) = true ->
  exists before after user tick',
    isSome user = truthy (rowGet row (js "OrderAssignedUser"))
    /\ allOrders (customers st)
       = before ++ targetOrders H (customers st) row ++ after
    /\ allOrders (customers (processRow H W (st, tick) row).1)
       = before
         ++ (importOrder H W row user
               (targetOrders H (customers st) row) tick').1
         ++ after
    /\ targetOrders H (customers (processRow H W (st, tick) row).1) row
       = (importOrder H W row user
            (targetOrders H (customers st) row) tick').1.
Proof.
  intros Hname Hsite. unfold processRow. rewrite Hname.
  assert (Huser : isSome (resolveUser H W row (users st) tick).1.2
                  = truthy (rowGet row (js "OrderAssignedUser"))).
  { destruct (resolveUser_cases W row (users st) tick)
      as [[-> ->]|[(-> & u & _ & _ & ->)|(-> & _ & ->)]]; done. }
  destruct (resolveUser _ _ _ _ _) as [[us user] tick1]. simpl in Huser.
  destruct (importCustomer_frame W row user (customers st) tick1 Hsite)
    as (before & after & tick' & Hold & Hnew & Htarget).
  destruct (importCustomer _ _ _ _ _ _) as [cs tick2]. simpl in *.
  by exists before, after, user, tick'.
Qed.

(** A row without a customer name or without a site name leaves the
    orders alone. *)
Lemma processRow_no_target (W : World) row st tick :
  truthy (rowGet row (js "CustomerName")) = false
  \/ truthy (rowGet row (js "SiteName")) = false ->
  allOrders (customers (processRow H W (st, tick) row).1)
  = allOrders (customers st).
Proof.
  intros Hmissing. unfold processRow.
  destruct (truthy (rowGet row (js "CustomerName"))) eqn:Hname; [|done].
  destruct Hmissing as [?|Hsite]; [done|].
  destruct (resolveUser _ _ _ _ _) as [[us user] tick1].
  pose proof (importCustomer_no_site W row user (customers st) tick1 Hsite).
  by destruct (importCustomer _ _ _ _ _ _) as [cs tick2].
Qed.

(** The general info of a site already there: kept, or filled from the
    row when it was empty and the row names the site. *)
Lemma importSite_info (W : World) row user ss tick j s :
  ss !! j = Some s ->
  exists s',
    (importSite H W row user ss tick).1 !! j = Some s'
    /\ site_name s' = site_name s
    /\ (generalInfo s' = generalInfo s
        \/ (generalInfo s = []
            /\ generalInfo s' = rowGet row (js "SiteGeneralInfo")
            /\ sameName H (site_name s) (rowGet row (js "SiteName")))).
Proof.
  intros Hj. unfold importSite.
  destruct (truthy (rowGet row (js "SiteName"))); [|by exists s; auto].
  destruct (list_find _ ss) as [[j0 s0]|] eqn:Hfind.
  - destruct (importOrder _ _ _ _ _ _) as [os tick1]. simpl.
    apply list_find_Some in Hfind as (Hj0 & Hs0 & _).
    destruct (decide (j0 = j)) as [->|Hne].
    + assert (s0 = s) as -> by congruence.
      rewrite list_lookup_insert_eq by (by eapply lookup_lt_Some).
      eexists; split; [done|]. simpl. unfold backfilledSite.
      destruct (truthy (rowGet row _)); simpl; [|auto].
      destruct (truthy (generalInfo s)) eqn:Hinfo; simpl; [auto|].
      apply truthy_false in Hinfo. split; [done|]. right. by split_and!.
    + rewrite list_lookup_insert_ne by done. exists s. auto.
  - destruct (importOrder _ _ _ _ _ _) as [os tick1]. simpl.
    exists s. split; [by apply lookup_app_l_Some|auto].
Qed.

(** The notes of a customer already there, and the general info of its
    sites: kept, or filled from the row when they were empty and the
    row names the customer (and the site). *)
Lemma importCustomer_info (W : World) row user cs tick i c :
  cs !! i = Some c ->
  exists c',
    (importCustomer H W row user cs tick).1 !! i = Some c'
    /\ customer_name c' = customer_name c
    /\ (customer_notes c' = customer_notes c
        \/ (customer_notes c = []
            /\ customer_notes c' = rowGet row (js "CustomerNotes")
            /\ sameName H (customer_name c) (rowGet row (js "CustomerName"))))
    /\ forall j s,
        sites c !! j = Some s ->
        exists s',
          sites c' !! j = Some s'
          /\ site_name s' = site_name s
          /\ (generalInfo s' = generalInfo s
              \/ (generalInfo s = []
                  /\ generalInfo s' = rowGet row (js "SiteGeneralInfo")
                  /\ sameName H (site_name s) (rowGet row (js "SiteName"))
                  /\ sameName H (customer_name c)
                       (rowGet row (js "CustomerName")))).
Proof.
  intros Hi. unfold importCustomer.
  assert (Hsame : forall j s, sites c !! j = Some s ->
            exists s', sites c !! j = Some s' /\ site_name s' = site_name s
              /\ (generalInfo s' = generalInfo s
                  \/ (generalInfo s = []
                      /\ generalInfo s' = rowGet row (js "SiteGeneralInfo")
                      /\ sameName H (site_name s) (rowGet row (js "SiteName"))
                      /\ sameName H (customer_name c)
                           (rowGet row (js "CustomerName")))))
    by (intros j s Hj; exists s; auto).
  destruct (list_find _ cs) as [[i0 c0]|] eqn:Hfind.
  - apply list_find_Some in Hfind as (Hi0 & Hc0 & _).
    destruct (decide (i0 = i)) as [->|Hne].
    + assert (c0 = c) as -> by congruence.
      pose proof (fun j s => importSite_info W row user
                    (sites (backfilledCustomer row c)) tick j s) as Hsites.
      destruct (importSite _ _ _ _ _ _) as [ss tick1]. simpl in *.
      rewrite list_lookup_insert_eq by (by eapply lookup_lt_Some).
      eexists; split; [done|]. simpl. split_and!.
      * unfold backfilledCustomer. by destruct (_ && _).
      * unfold backfilledCustomer.
        destruct (truthy (rowGet row _)); simpl; [|auto].
        destruct (truthy (customer_notes c)) eqn:Hn; simpl; [auto|].
        apply truthy_false in Hn. right. by split_and!.
      * intros j s Hj. rewrite backfilledCustomer_sites in Hsites.
        destruct (Hsites j s Hj) as (s' & Hs' & Hname & Hinfo).
        exists s'. split_and!; [done..|].
        destruct Hinfo as [?|(? & ? & ?)]; [by left|right; by split_and!].
    + destruct (importSite _ _ _ _ _ _) as [ss tick1]. simpl.
      rewrite list_lookup_insert_ne by done. exists c. by split_and!; auto.
  - destruct (importSite _ _ _ _ _ _) as [ss tick1]. simpl.
    exists c. split; [by apply lookup_app_l_Some|]. by split_and!; auto.
Qed.

End ImportSteps.

(** ** Names stay unique under the import *)

Lemma processRow_keeps_names_unique (H : Host) (W : World) st tick row :
  NoDup (List.map (fun u => toLowerCase H (user_name u)) (users st)) ->
  NoDup (List.map (fun u => toLowerCase H (user_name u))
           (users (processRow H W (st, tick) row).1)).
Proof.
  intros Hnames. unfold processRow.
  destruct (truthy (rowGet row (js "CustomerName"))); [|done].
  destruct (resolveUser_cases H W row (users st) tick)
    as [[_ ->]|[(_ & u & _ & _ & ->)|(_ & Hnew & ->)]];
    destruct (importCustomer _ _ _ _ _ _) as [cs tick2]; simpl; try done.
  rewrite map_app. apply NoDup_app. split_and!; [done| |apply NoDup_singleton].
  intros x Hx Hx'. apply list_elem_of_singleton in Hx'. subst x.
  apply list_elem_of_In, in_map_iff in Hx as (v & Hv & Hin).
  rewrite Forall_forall in Hnew. apply (Hnew v); [by apply list_elem_of_In|].
  done.
Qed.

(** Unlike emails (C2), user names stay unique, letter case apart,
    under a whole import. *)
Lemma importData_keeps_names_unique (H : Host) (W : World) csv st :
  NoDup (List.map (fun u => toLowerCase H (user_name u)) (users st)) ->
  NoDup (List.map (fun u => toLowerCase H (user_name u))
           (users (importData H W csv st).1)).
Proof.
  intros Hnames. unfold importData.
  destruct (parseCSV csv) as [|r rows]; [done|].
  assert (Hloop : forall rows st tick,
             NoDup (List.map (fun u => toLowerCase H (user_name u)) (users st)) ->
             NoDup (List.map (fun u => toLowerCase H (user_name u))
                      (users (fold_left (processRow H W) rows (st, tick)).1))).
  { clear. intros rows. induction rows as [|r rows IH]; intros st tick Hst;
      [done|].
    cbn [fold_left].
    pose proof (processRow_keeps_names_unique H W st tick r Hst) as Hr.
    destruct (processRow H W (st, tick) r) as [st1 tick1]. by apply IH. }
  specialize (Hloop (r :: rows) st 0%nat Hnames).
  by destruct (fold_left _ _ _) as [st1 tick1].
Qed.

(** ** Re-import, part types and backfill *)

(** C1. Importing the same text a second time adds no order to any
    site: site by site, the order lists after the second import are
    those after the first.  (Every row is found settled: the site it
    addresses already holds an order with the row's part number under
    the row's part type.) *)
Theorem C1_second_import_adds_no_order
    (H : Host) (W1 W2 : World) (csv : jsstring) (st : Store) :
  List.map (fun c => List.map orders (sites c))
    (customers (importData H W2 csv (importData H W1 csv st).1).1)
  = List.map (fun c => List.map orders (sites c))
      (customers (importData H W1 csv st).1).
Proof.
  destruct (importData_twice H W1 W2 csv st) as [_ Hcustomers].
  cbv zeta in Hcustomers. by rewrite Hcustomers.
Qed.

(** Two rows that differ only in their OrderPart, and on which the
    order step does nothing, do the same to the store. *)
Lemma importSite_without_order (H : Host) (W : World) row row' user ss tick :
  (forall key, key <> js "OrderPart" -> rowGet row' key = rowGet row key) ->
  (forall user os tick, importOrder H W row user os tick = (os, tick)) ->
  (forall user os tick, importOrder H W row' user os tick = (os, tick)) ->
  importSite H W row' user ss tick = importSite H W row user ss tick.
Proof.
  intros Hkeys Hskip Hskip'.
  assert (Hname : rowGet row' (js "SiteName") = rowGet row (js "SiteName"))
    by (by apply Hkeys).
  assert (Hinfo : rowGet row' (js "SiteGeneralInfo")
                  = rowGet row (js "SiteGeneralInfo")) by (by apply Hkeys).
  unfold importSite, pushedSite, backfilledSite. rewrite Hname, Hinfo.
  destruct (truthy (rowGet row (js "SiteName"))); [|done].
  destruct (list_find _ ss) as [[j s]|]; by rewrite Hskip, Hskip'.
Qed.

Lemma processRow_without_order (H : Host) (W : World) row row' acc :
  (forall key, key <> js "OrderPart" -> rowGet row' key = rowGet row key) ->
  (forall user os tick, importOrder H W row user os tick = (os, tick)) ->
  (forall user os tick, importOrder H W row' user os tick = (os, tick)) ->
  processRow H W acc row' = processRow H W acc row.
Proof.
  intros Hkeys Hskip Hskip'. destruct acc as [st tick].
  assert (Hcustomer : rowGet row' (js "CustomerName")
                      = rowGet row (js "CustomerName")) by (by apply Hkeys).
  assert (Hnotes : rowGet row' (js "CustomerNotes")
                   = rowGet row (js "CustomerNotes")) by (by apply Hkeys).
  assert (Hassigned : rowGet row' (js "OrderAssignedUser")
                      = rowGet row (js "OrderAssignedUser"))
    by (by apply Hkeys).
  assert (Hrole : rowGet row' (js "UserRole") = rowGet row (js "UserRole"))
    by (by apply Hkeys).
  unfold processRow, resolveUser, newUserFor, importCustomer, pushedCustomer,
    backfilledCustomer.
  rewrite Hcustomer, Hnotes, Hassigned, Hrole.
  destruct (truthy (rowGet row (js "CustomerName"))); [|done].
  assert (Hsite : forall user ss tick,
             importSite H W row' user ss tick
             = importSite H W row user ss tick)
    by (intros; by apply importSite_without_order).
  destruct (truthy (rowGet row (js "OrderAssignedUser")));
    [destruct (list_find _ (users st)) as [[n u]|]|];
    destruct (list_find _ (customers st)) as [[i c]|];
    by rewrite Hsite.
Qed.

Lemma lower_huisseries (H : Host) :
  toLowerCase H (js "Huisseries") = js "huisseries".
Proof.
  rewrite toLowerCase_ascii; [reflexivity|].
  apply (bool_decide_unpack _). reflexivity.
Qed.

(** C8, as amended.  (1) A row with OrderPart Huisseries, OrderNumber
    F-001 and OrderStatus Envoyee (with its accent), that names a
    customer, a
    site and a user, and whose site has no frames numbered F-001 yet,
    appends to that site one order whose frames slot holds the part,
    with number F-001 and isSent true, and whose doors slot is null.
    (2) The part of any order that a row creates has isSent true only
    if OrderStatus is exactly that text.  (3) A row whose OrderPart is,
    lower-cased, neither huisseries nor portes is skipped at the order
    step only, whatever the user and the site: no order is pushed, no
    identifier is drawn for one, and the orders of the store stay as
    they are; everything else that the row does (its user, its
    customer, its site, the backfills) is done, exactly as for the
    same row without its OrderPart. *)
Theorem C8_part_type_and_sent_flag
    (H : Host) (W : World) (st : Store) (tick : nat) (row : Row) :
  (truthy (rowGet row (js "CustomerName")) = true ->
   truthy (rowGet row (js "SiteName")) = true ->
   truthy (rowGet row (js "OrderAssignedUser")) = true ->
   rowGet row (js "OrderPart") = js "Huisseries" ->
   rowGet row (js "OrderNumber") = js "F-001" ->
   rowGet row (js "OrderStatus") = ENVOYEE ->
   orderExists (targetOrders H (customers st) row) Frames (js "F-001")
   = false ->
   exists before after o part,
     allOrders (customers st)
     = before ++ targetOrders H (customers st) row ++ after
     /\ allOrders (customers (processRow H W (st, tick) row).1)
        = before ++ (targetOrders H (customers st) row ++ [o]) ++ after
     /\ targetOrders H (customers (processRow H W (st, tick) row).1) row
        = targetOrders H (customers st) row ++ [o]
     /\ frames o = Some part /\ doors o = None
     /\ part_number part = js "F-001" /\ part_isSent part = true)
  /\ (forall o partType part,
        o ∈ allOrders (customers (processRow H W (st, tick) row).1) ->
        o ∉ allOrders (customers st) ->
        partOf partType o = Some part ->
        part_isSent part = true ->
        rowGet row (js "OrderStatus") = ENVOYEE)
  /\ (toLowerCase H (rowGet row (js "OrderPart")) <> js "huisseries" ->
      toLowerCase H (rowGet row (js "OrderPart")) <> js "portes" ->
      (forall user os tick',
          importOrder H W row user os tick' = (os, tick'))
      /\ allOrders (customers (processRow H W (st, tick) row).1)
         = allOrders (customers st)
      /\ processRow H W (st, tick) row
         = processRow H W (st, tick) (delete (js "OrderPart") row)).
Proof.
  split_and!.
  - intros Hcust Hsite Hassigned Hpart Hnumber Hstatus Hfresh.
    destruct (processRow_frame H W row st tick Hcust Hsite)
      as (before & after & user & tick' & Huser & Hold & Hnew & Htarget).
    rewrite Hassigned in Huser.
    destruct (importOrder_cases H W row user
                (targetOrders H (customers st) row) tick')
      as [[Hsettled _]|[_ (u & pt & -> & Hpt & _ & Himport)]].
    + exfalso. unfold orderSettled in Hsettled.
      rewrite Huser, Hpart, Hnumber in Hsettled. simpl in Hsettled.
      unfold partTypeOf in Hsettled. rewrite lower_huisseries in Hsettled.
      rewrite decide_True in Hsettled by done. congruence.
    + unfold partTypeOf in Hpt. rewrite Hpart, lower_huisseries in Hpt.
      rewrite decide_True in Hpt by done. injection Hpt as <-.
      rewrite Himport in Hnew, Htarget. simpl in Hnew, Htarget.
      destruct (newOrderFor_part H W row u Frames tick')
        as (part & _ & Hnum & Hsent & Hframes & Hdoors).
      exists before, after, (newOrderFor H W row u Frames tick').1, part.
      rewrite Hnumber in Hnum. rewrite Hstatus in Hsent.
      rewrite bool_decide_eq_true_2 in Hsent by done.
      by split_and!.
  - intros o partType part Hafter Hbefore Hslot Hsent.
    destruct (truthy (rowGet row (js "CustomerName"))) eqn:Hcust;
      [|by rewrite processRow_no_target in Hafter by auto].
    destruct (truthy (rowGet row (js "SiteName"))) eqn:Hsite;
      [|by rewrite processRow_no_target in Hafter by auto].
    destruct (processRow_frame H W row st tick Hcust Hsite)
      as (before & after & user & tick' & _ & Hold & Hnew & _).
    rewrite Hnew in Hafter. rewrite Hold in Hbefore.
    destruct (importOrder_cases H W row user
                (targetOrders H (customers st) row) tick')
      as [[_ Himport]|[_ (u & pt & -> & _ & _ & Himport)]];
      rewrite Himport in Hafter; simpl in Hafter; [done|].
    assert (o = (newOrderFor H W row u pt tick').1) as ->.
    { rewrite !elem_of_app in Hafter. rewrite !elem_of_app in Hbefore.
      destruct Hafter as [?|[[?|Hnewo]|?]]; try (exfalso; by auto).
      by apply list_elem_of_singleton in Hnewo. }
    destruct (newOrderFor_part H W row u pt tick')
      as (part' & _ & _ & Hsent' & Hframes & Hdoors).
    assert (part = part') as ->.
    { destruct partType, pt; simpl in Hslot; congruence. }
    rewrite Hsent in Hsent'. symmetry in Hsent'.
    by apply bool_decide_eq_true in Hsent'.
  - intros Hframes Hdoors.
    assert (Hskip : forall user os tick',
               importOrder H W row user os tick' = (os, tick')).
    { intros user os tick'. apply importOrder_settled.
      unfold orderSettled, partTypeOf.
      rewrite !decide_False by done. by rewrite orb_true_r. }
    split; [done|]. split.
    { destruct (truthy (rowGet row (js "CustomerName"))) eqn:Hcust;
        [|apply processRow_no_target; auto].
      destruct (truthy (rowGet row (js "SiteName"))) eqn:Hsite;
        [|apply processRow_no_target; auto].
      destruct (processRow_frame H W row st tick Hcust Hsite)
        as (before & after & user & tick' & _ & Hold & Hnew & _).
      by rewrite Hnew, Hold, Hskip. }
    symmetry. apply processRow_without_order; [|done|].
    + intros key Hkey. unfold rowGet. by rewrite lookup_delete_ne.
    + intros user os tick'. apply importOrder_settled.
      unfold orderSettled, rowGet. rewrite lookup_delete_eq. simpl.
      by rewrite orb_true_r.
Qed.

Lemma C8_part_type_and_sent_flag_witness :
  exists before after o part,
    allOrders (customers acmeStore)
    = before ++ targetOrders asciiHost (customers acmeStore) rowSentFrames
      ++ after
    /\ allOrders (customers (processRow asciiHost exampleWorld
                               (acmeStore, 0%nat) rowSentFrames).1)
       = before
         ++ (targetOrders asciiHost (customers acmeStore) rowSentFrames
             ++ [o]) ++ after
    /\ targetOrders asciiHost
         (customers (processRow asciiHost exampleWorld
                       (acmeStore, 0%nat) rowSentFrames).1) rowSentFrames
       = targetOrders asciiHost (customers acmeStore) rowSentFrames ++ [o]
    /\ frames o = Some part /\ doors o = None
    /\ part_number part = js "F-001" /\ part_isSent part = true.
Proof.
  apply (C8_part_type_and_sent_flag asciiHost exampleWorld acmeStore 0%nat
           rowSentFrames); reflexivity.
Defined.

(** C8, as first stated, fails on the last part: a row whose OrderPart
    is neither of the two part names is not skipped.  On the seed
    store, the row of [rowOtherPart] (customer Bolt, site Paris, part
    Fenetres, user Zoe) creates no order, but it leaves a fourth user,
    the customer and the site behind. *)
Lemma C8_row_with_other_part_is_not_skipped :
  let st' := (processRow asciiHost exampleWorld (seedStore, 0%nat)
                rowOtherPart).1 in
  (toLowerCase asciiHost (rowGet rowOtherPart (js "OrderPart"))
   <> js "huisseries"
   /\ toLowerCase asciiHost (rowGet rowOtherPart (js "OrderPart"))
      <> js "portes")
  /\ (length (users seedStore) = 3%nat /\ customers seedStore = [])
  /\ List.map user_name (drop 3 (users st')) = [js "Zoe"]
  /\ List.map customer_name (customers st') = [js "Bolt"]
  /\ List.map (fun c => List.map site_name (sites c)) (customers st')
     = [[js "Paris"]]
  /\ allOrders (customers st') = []
  /\ st' <> seedStore.
Proof.
  split; [split; vm_compute; discriminate|].
  split; [by split|]. split; [reflexivity|]. split; [reflexivity|].
  split; [reflexivity|]. split; [reflexivity|].
  intros Heq. apply (f_equal (fun st => length (customers st))) in Heq.
  vm_compute in Heq. discriminate.
Qed.

(** C9. The import never overwrites notes or general info that are
    not empty.  For a customer that is in the store before the call:
    one row leaves its notes as they are, or fills them from
    CustomerNotes when they were empty and the row names the customer;
    likewise for the general info of each of its sites and
    SiteGeneralInfo.  After a whole import the customer and its sites
    are still in their places, under their names, and the notes and
    general info that were not empty are unchanged. *)
Theorem C9_backfill_never_overwrites
    (H : Host) (W : World) (csv : jsstring) (row : Row) (tick : nat)
    (st : Store) (i : nat) (c : Customer) :
  customers st !! i = Some c ->
  (exists c',
      customers (processRow H W (st, tick) row).1 !! i = Some c'
      /\ customer_name c' = customer_name c
      /\ (customer_notes c' = customer_notes c
          \/ (customer_notes c = []
              /\ customer_notes c' = rowGet row (js "CustomerNotes")
              /\ sameName H (customer_name c)
                   (rowGet row (js "CustomerName"))))
      /\ forall j s,
          sites c !! j = Some s ->
          exists s',
            sites c' !! j = Some s'
            /\ site_name s' = site_name s
            /\ (generalInfo s' = generalInfo s
                \/ (generalInfo s = []
                    /\ generalInfo s' = rowGet row (js "SiteGeneralInfo")
                    /\ sameName H (site_name s) (rowGet row (js "SiteName"))
                    /\ sameName H (customer_name c)
                         (rowGet row (js "CustomerName")))))
  /\ (exists c',
        customers (importData H W csv st).1 !! i = Some c'
        /\ customer_name c' = customer_name c
        /\ (customer_notes c <> [] -> customer_notes c' = customer_notes c)
        /\ forall j s,
            sites c !! j = Some s ->
            exists s',
              sites c' !! j = Some s'
              /\ site_name s' = site_name s
              /\ (generalInfo s <> [] -> generalInfo s' = generalInfo s)).
Proof.
  intros Hi. split.
  - unfold processRow.
    destruct (truthy (rowGet row (js "CustomerName"))).
    + destruct (resolveUser _ _ _ _ _) as [[us user] tick1].
      pose proof (importCustomer_info H W row user (customers st) tick1 i c Hi)
        as Hinfo.
      by destruct (importCustomer _ _ _ _ _ _) as [cs tick2].
    + exists c. split_and!; auto.
      intros j s Hj. exists s. auto.
  - assert (Hgrows : grows customerExt (customers st)
                       (customers (importData H W csv st).1)).
    { unfold importData. destruct (parseCSV csv) as [|r rows];
        [apply grows_refl, customerExt_refl|].
      pose proof (importRows_ext H W (r :: rows) st 0%nat) as [[_ Hcs] _].
      by destruct (fold_left _ _ _) as [st1 tick1]. }
    destruct (grows_lookup _ _ _ i c Hgrows Hi)
      as (c' & Hc' & _ & Hname & Hnotes & Hsites).
    exists c'. split_and!; [done..| |].
    + intros Hfilled. apply Hnotes. by destruct (customer_notes c).
    + intros j s Hj.
      destruct (grows_lookup _ _ _ j s Hsites Hj)
        as (s' & Hs' & _ & Hsname & _ & Hinfo & _).
      exists s'. split_and!; [done..|].
      intros Hfilled. apply Hinfo. by destruct (generalInfo s).
Qed.

Lemma C9_backfill_never_overwrites_witness :
  exists c',
    customers (importData asciiHost exampleWorld overwritingCsv acmeStore).1
      !! 0%nat = Some c'
    /\ customer_notes c' = js "VIP"
    /\ exists s', sites c' !! 0%nat = Some s'
                  /\ generalInfo s' = js "Gate code 42".
Proof.
  destruct (C9_backfill_never_overwrites asciiHost exampleWorld overwritingCsv
              rowSentFrames 0%nat acmeStore 0%nat
              {| customer_id := js "c-1"; customer_name := js "Acme";
                 sites :=
                   [ {| site_id := js "s-1"; site_name := js "Lyon";
                        generalInfo := js "Gate code 42";
                        generalInfoFiles := []; orders := [] |} ];
                 customer_notes := js "VIP" |} eq_refl)
    as (_ & c' & Hc' & _ & Hnotes & Hsites).
  exists c'. split; [exact Hc'|]. split; [by apply Hnotes|].
  destruct (Hsites 0%nat _ eq_refl) as (s' & Hs' & _ & Hinfo).
  exists s'. split; [exact Hs'|]. by apply Hinfo.
Defined.

(** The first import of [ordersCsv] into [acmeStore] pushes two orders
    to the site (the third row repeats the first, letter case apart),
    the second dated by the clock because its date is a 31st of
    February; the second import pushes none. *)
Example import_twice_example :
  let st1 := (importData asciiHost exampleWorld ordersCsv acmeStore).1 in
  let st2 := (importData asciiHost exampleWorld ordersCsv st1).1 in
  List.map (fun o => (isSome (frames o), isSome (doors o)))
           (allOrders (customers st1))
  = [(true, false); (false, true)]
  /\ List.map (fun o => part_creationDate <$> (frames o ∪ doors o))
       (allOrders (customers st1))
     = [Some (js "2025-10-23T14:30:00.000Z");
        Some (toISOString (now exampleWorld 0%nat))]
  /\ allOrders (customers st2) = allOrders (customers st1)
  /\ users st2 = users st1.
Proof. vm_compute. by split_and!. Qed.

(** * Further properties of the parser *)

Lemma split_not_nil sep s : split sep s <> [].
Proof.
  destruct s as [|c s]; simpl; [done|].
  destruct (c =? sep); [done|]. by destruct (split sep s).
Qed.

(** The loop outside quotes over text without quotes: it splits at
    every comma. *)
Lemma scanLoop_plain line :
  forall row cur,
    QUOTE ∉ line ->
    (scanLoop row cur false line).1.1 ++ [(scanLoop row cur false line).1.2]
    = row ++ match split COMMA line with
             | f :: fs => (cur ++ f) :: fs
             | [] => [cur]
             end.
Proof.
  induction line as [|c line IH]; intros row cur Hq; simpl.
  - by rewrite app_nil_r.
  - apply not_elem_of_cons in Hq as [Hc Hq].
    destruct (N.eqb_spec c QUOTE) as [->|_]; [done|].
    destruct (N.eqb_spec c COMMA) as [->|Hcomma]; simpl.
    + rewrite IH by done. rewrite <- app_assoc. simpl. rewrite app_nil_r.
      pose proof (split_not_nil COMMA line).
      by destruct (split COMMA line).
    + rewrite IH by done.
      pose proof (split_not_nil COMMA line).
      destruct (split COMMA line); [done|]. by rewrite <- app_assoc.
Qed.

(** X1. A data line that holds no quote is split exactly at its
    commas: on such lines the quote-aware field loop agrees with the
    plain [split(',')] that the parser applies to the header line. *)
Theorem X1_line_without_quotes_splits_at_commas (line : jsstring) :
  QUOTE ∉ line -> splitFields line = split COMMA line.
Proof.
  intros Hq. unfold splitFields.
  pose proof (scanLoop_plain line [] [] Hq) as Hscan.
  destruct (scanLoop [] [] false line) as [[row cur] q]. simpl in Hscan.
  rewrite Hscan. pose proof (split_not_nil COMMA line).
  by destruct (split COMMA line).
Qed.

Lemma X1_line_without_quotes_witness :
  (QUOTE ∉ js "Acme, Lyon ,,F-001")
  /\ splitFields (js "Acme, Lyon ,,F-001")
     = [js "Acme"; js " Lyon "; []; js "F-001"].
Proof.
  assert (Hq : QUOTE ∉ js "Acme, Lyon ,,F-001")
    by (apply (bool_decide_unpack _); vm_compute; reflexivity).
  split; [exact Hq|].
  rewrite (X1_line_without_quotes_splits_at_commas _ Hq). reflexivity.
Defined.

(** Inside quotes, up to the closing quote: the escaped value is read
    back, whatever follows the closing quote, a quote apart. *)
Lemma scanLoop_escaped v :
  forall row cur tail,
    head tail <> Some QUOTE ->
    scanLoop row cur true (escapeQuotes v ++ QUOTE :: tail)
    = scanLoop row (cur ++ v) false tail.
Proof.
  unfold escapeQuotes.
  induction v as [|c v IH]; intros row cur tail Htail; simpl.
  - rewrite app_nil_r. destruct tail as [|d tail]; [done|].
    destruct (N.eqb_spec d QUOTE) as [->|_]; [by destruct Htail|done].
  - destruct (N.eqb_spec c QUOTE) as [->|Hc]; simpl.
    + rewrite IH by done. by rewrite <- app_assoc.
    + destruct (N.eqb_spec c QUOTE) as [?|_]; [done|].
      rewrite andb_false_r. rewrite IH by done. by rewrite <- app_assoc.
Qed.

Lemma scanLoop_quoted v row tail :
  head tail <> Some QUOTE ->
  scanLoop row [] false (quoteField v ++ tail) = scanLoop row v false tail.
Proof.
  intros Htail. unfold quoteField. rewrite <- !app_assoc.
  change ([QUOTE] ++ escapeQuotes v ++ [QUOTE] ++ tail)
    with (QUOTE :: (escapeQuotes v ++ QUOTE :: tail)).
  assert (Hopen : forall rest,
             scanLoop row [] false (QUOTE :: rest) = scanLoop row [] true rest).
  { intros rest. simpl. by destruct rest. }
  rewrite Hopen. by rewrite scanLoop_escaped.
Qed.

Lemma scanLoop_quoted_fields vs :
  forall v row,
    let line := joinFields (List.map quoteField (v :: vs)) in
    (scanLoop row [] false line).1.1 ++ [(scanLoop row [] false line).1.2]
    = row ++ v :: vs.
Proof.
  induction vs as [|w vs IH]; intros v row; cbv zeta.
  - simpl joinFields. rewrite <- (app_nil_r (quoteField v)).
    by rewrite scanLoop_quoted by done.
  - change (joinFields (List.map quoteField (v :: w :: vs)))
      with (quoteField v
            ++ COMMA :: joinFields (List.map quoteField (w :: vs))).
    rewrite scanLoop_quoted by done.
    change (scanLoop row v false
              (COMMA :: joinFields (List.map quoteField (w :: vs))))
      with (scanLoop (row ++ [v]) [] false
              (joinFields (List.map quoteField (w :: vs)))).
    specialize (IH w (row ++ [v])). cbv zeta in IH. rewrite IH.
    by rewrite <- app_assoc.
Qed.

(** X2. Quoting round trip: values of any content (commas, quotes,
    white space), each written between quotes with its quotes doubled
    and joined by commas, are read back by the field loop exactly as
    they were. *)
Theorem X2_quoted_fields_round_trip (vs : list jsstring) :
  vs <> [] ->
  splitFields (joinFields (List.map quoteField vs)) = vs.
Proof.
  intros Hne. destruct vs as [|v vs]; [done|].
  unfold splitFields.
  pose proof (scanLoop_quoted_fields vs v []) as Hscan. cbv zeta in Hscan.
  by destruct (scanLoop [] [] false _) as [[row cur] q].
Qed.

Lemma X2_quoted_fields_round_trip_witness :
  [js "a,b"; [QUOTE]; []; js " x "] <> []
  /\ splitFields
       (joinFields (List.map quoteField [js "a,b"; [QUOTE]; []; js " x "]))
     = [js "a,b"; [QUOTE]; []; js " x "].
Proof.
  assert (Hne : [js "a,b"; [QUOTE]; []; js " x "] <> []) by discriminate.
  split; [exact Hne|].
  exact (X2_quoted_fields_round_trip _ Hne).
Defined.

(** Inside quotes, text without quotes is taken as it is, commas
    included. *)
Lemma scanLoop_inside_quotes rest :
  forall row cur,
    QUOTE ∉ rest -> scanLoop row cur true rest = (row, cur ++ rest, true).
Proof.
  induction rest as [|c rest IH]; intros row cur Hq; simpl.
  - by rewrite app_nil_r.
  - apply not_elem_of_cons in Hq as [Hc Hq].
    destruct (N.eqb_spec c QUOTE) as [?|_]; [done|].
    rewrite andb_false_r, IH by done. by rewrite <- app_assoc.
Qed.

(** X3. A quote that opens a field and is never closed swallows the
    rest of the line: everything after it, commas included, is one
    field, the last of the row. *)
Theorem X3_unterminated_quote_swallows_line
    (pre rest : jsstring) (fs : list jsstring) :
  fieldBoundary pre fs ->
  QUOTE ∉ rest ->
  splitFields (pre ++ QUOTE :: rest) = fs ++ [rest].
Proof.
  intros [Hpre Hscan] Hq. unfold splitFields.
  assert (Hopen : forall row,
             scanLoop row [] false (QUOTE :: rest) = (row, rest, true)).
  { intros row. simpl.
    destruct rest as [|d rest']; [done|].
    by rewrite (scanLoop_inside_quotes (d :: rest') row []). }
  destruct Hpre as [->|[p ->]].
  - simpl in Hscan. injection Hscan as <-. by rewrite app_nil_l, Hopen.
  - rewrite <- app_assoc.
    change ([COMMA] ++ QUOTE :: rest) with (COMMA :: QUOTE :: rest).
    by rewrite scanLoop_cut_at_comma, Hscan, Hopen.
Qed.

Lemma X3_unterminated_quote_witness :
  fieldBoundary (js "7,") [js "7"]
  /\ (QUOTE ∉ js "a,b,c")
  /\ splitFields (js "7," ++ QUOTE :: js "a,b,c") = [js "7"; js "a,b,c"].
Proof.
  assert (Hb : fieldBoundary (js "7,") [js "7"])
    by (split; [right; by exists (js "7") | reflexivity]).
  assert (Hq : QUOTE ∉ js "a,b,c")
    by (apply (bool_decide_unpack _); vm_compute; reflexivity).
  split; [exact Hb|]. split; [exact Hq|].
  exact (X3_unterminated_quote_swallows_line _ _ _ Hb Hq).
Defined.

(** The rows of a text are the parsed non-blank data lines. *)
Lemma parseLines_inv headers lines row :
  row ∈ parseLines headers lines ->
  exists l, l ∈ lines /\ truthy (trim l) = true /\ row = parseLine headers l.
Proof.
  induction lines as [|l lines IH]; simpl; [by intros ?%elem_of_nil|].
  destruct (truthy (trim l)) eqn:Hl.
  - intros [->|Hin]%elem_of_cons.
    + exists l. split_and!; [by left|done..].
    + destruct (IH Hin) as (l' & ? & ? & ?). exists l'.
      split_and!; [by right|done..].
  - intros Hin. destruct (IH Hin) as (l' & ? & ? & ?). exists l'.
    split_and!; [by right|done..].
Qed.

Lemma parseCSV_inv csv row :
  row ∈ parseCSV csv ->
  exists l, l ∈ csvDataLines csv /\ truthy (trim l) = true
            /\ row = parseLine (csvHeaders csv) l.
Proof.
  unfold parseCSV, csvDataLines, csvHeaders.
  destruct (split LF (removeCR csv)) as [|line0 lines];
    [by intros ?%elem_of_nil|].
  apply parseLines_inv.
Qed.

Lemma assignFields_dom headers :
  forall (o : Row) index row,
    dom (assignFields o headers index row)
    = dom o ∪ list_to_set (filter (fun h => h <> PROTO) headers).
Proof.
  induction headers as [|h headers IH]; intros o index row; simpl.
  - by rewrite union_empty_r_L.
  - rewrite IH. unfold assignProperty.
    destruct (decide (h = PROTO)) as [Hproto|Hproto].
    + by rewrite filter_cons_False by (by intros ?).
    + rewrite filter_cons_True by done. rewrite dom_insert_L. set_solver.
Qed.

(** X4. The own properties of every row of a parse are exactly the
    header names of the text other than [__proto__], however many
    fields its line holds: fields past the last header are dropped,
    all rows have the same keys, and a column headed [__proto__]
    leaves no property in any row. *)
Theorem X4_rows_have_the_header_names (csv : jsstring) (row : Row) :
  row ∈ parseCSV csv ->
  dom row = list_to_set (filter (fun h => h <> PROTO) (csvHeaders csv))
  /\ row !! PROTO = None.
Proof.
  intros (l & _ & _ & ->)%parseCSV_inv. unfold parseLine.
  assert (Hdom : dom (assignFields ∅ (csvHeaders csv) 0 (splitFields l))
                 = list_to_set
                     (filter (fun h => h <> PROTO) (csvHeaders csv)))
    by (rewrite assignFields_dom; set_solver).
  split; [done|]. apply not_elem_of_dom. rewrite Hdom.
  rewrite elem_of_list_to_set. by intros [? _]%list_elem_of_filter.
Qed.

Lemma X4_rows_have_the_header_names_witness :
  exists row,
    row ∈ parseCSV (js "__proto__,A,B" ++ [LF] ++ js "0,1,2,3,4")
    /\ dom row = ({[ js "A"; js "B" ]} : gset (list N))
    /\ row !! PROTO = None.
Proof.
  exists (parseLine (parseHeaders (js "__proto__,A,B")) (js "0,1,2,3,4")).
  assert (Hin : parseLine (parseHeaders (js "__proto__,A,B"))
                  (js "0,1,2,3,4")
                ∈ parseCSV (js "__proto__,A,B" ++ [LF] ++ js "0,1,2,3,4"))
    by (vm_compute; left).
  split; [exact Hin|].
  destruct (X4_rows_have_the_header_names _ _ Hin) as [Hdom Hproto].
  split; [|exact Hproto]. rewrite Hdom.
  change (csvHeaders (js "__proto__,A,B" ++ [LF] ++ js "0,1,2,3,4"))
    with [PROTO; js "A"; js "B"].
  rewrite filter_cons_False by (by intros ?).
  rewrite !filter_cons_True by discriminate. set_solver.
Defined.

(** X5. A row shorter than the header: a header whose position is past
    the last field of the line (whose name no later header repeats,
    and is not [__proto__]) is an own property of the row that holds
    the empty string.  Under the header [__proto__] the row has no
    property, whatever the line. *)
Theorem X5_missing_fields_read_empty
    (headers : list jsstring) (line : jsstring) (k : nat) (h : jsstring) :
  headers !! k = Some h ->
  h ∉ drop (S k) headers ->
  (length (splitFields line) <= k)%nat ->
  if decide (h = PROTO) then parseLine headers line !! h = None
  else parseLine headers line !! h = Some [].
Proof.
  intros Hk Hlater Hshort. unfold parseLine.
  destruct (decide (h = PROTO)) as [->|Hproto].
  - apply not_elem_of_dom. rewrite assignFields_dom.
    rewrite dom_empty_L, union_empty_l_L, elem_of_list_to_set.
    by intros [? _]%list_elem_of_filter.
  - rewrite (assignFields_lookup _ _ _ _ k h) by done.
    unfold cell. by rewrite Nat.add_0_l, lookup_ge_None_2.
Qed.

Lemma X5_missing_fields_read_empty_witness :
  parseLine [js "CustomerName"; js "SiteName"; js "OrderPart"] (js "Acme")
    !! js "OrderPart" = Some [].
Proof.
  apply (X5_missing_fields_read_empty
           [js "CustomerName"; js "SiteName"; js "OrderPart"] (js "Acme")
           2%nat (js "OrderPart")).
  - reflexivity.
  - simpl. apply not_elem_of_nil.
  - vm_compute. lia.
Defined.

(** *** Trimming *)

Lemma trimStart_headTrimmed s : headTrimmed (trimStart s).
Proof.
  induction s as [|c s IH]; simpl; [done|].
  by destruct (isWhiteSpace c) eqn:Hc.
Qed.

Lemma trimStart_fixed s : headTrimmed s -> trimStart s = s.
Proof. destruct s as [|c s]; simpl; [done|]. by intros ->. Qed.

Lemma trimStart_snoc l c :
  isWhiteSpace c = false -> trimStart (l ++ [c]) = trimStart l ++ [c].
Proof.
  intros Hc. induction l as [|d l IH]; simpl; [by rewrite Hc|].
  by destruct (isWhiteSpace d).
Qed.

Lemma trimEnd_headTrimmed s : headTrimmed s -> headTrimmed (trimEnd s).
Proof.
  destruct s as [|c s]; [done|]. simpl. intros Hc. unfold trimEnd.
  rewrite reverse_cons, trimStart_snoc by done.
  by rewrite reverse_app.
Qed.

Lemma trimEnd_trimEnd s : trimEnd (trimEnd s) = trimEnd s.
Proof.
  unfold trimEnd. rewrite reverse_involutive.
  by rewrite (trimStart_fixed _ (trimStart_headTrimmed _)).
Qed.

(** [trim] is idempotent. *)
Lemma trim_trim s : trim (trim s) = trim s.
Proof.
  unfold trim.
  rewrite (trimStart_fixed (trimEnd (trimStart s)))
    by apply trimEnd_headTrimmed, trimStart_headTrimmed.
  apply trimEnd_trimEnd.
Qed.

Lemma trim_ends s c :
  head (trim s) = Some c \/ last (trim s) = Some c -> isWhiteSpace c = false.
Proof.
  intros [Hhead|Hlast].
  - pose proof (trimEnd_headTrimmed _ (trimStart_headTrimmed s)) as Ht.
    fold (trim s) in Ht. destruct (trim s); [done|].
    simpl in *. congruence.
  - unfold trim, trimEnd in Hlast. rewrite last_reverse in Hlast.
    pose proof (trimStart_headTrimmed (reverse (trimStart s))) as Ht.
    destruct (trimStart (reverse (trimStart s))); [done|].
    simpl in *. congruence.
Qed.

Lemma cell_trimmed row index : exists f, cell row index = trim f.
Proof.
  unfold cell. destruct (row !! index) as [f|]; [|by exists []].
  destruct (truthy f); [by exists f|by exists []].
Qed.

Lemma assignFields_values headers :
  forall (o : Row) index row k v,
    assignFields o headers index row !! k = Some v ->
    o !! k = Some v \/ exists f, v = trim f.
Proof.
  induction headers as [|h headers IH]; intros o index row k v; simpl;
    [auto|].
  intros [Hv|Hv]%IH; [|by right]. unfold assignProperty in Hv.
  destruct (decide (h = PROTO)); [by left|].
  destruct (decide (h = k)) as [->|Hne].
  - rewrite lookup_insert_eq in Hv. injection Hv as <-.
    right. apply cell_trimmed.
  - rewrite lookup_insert_ne in Hv by done. by left.
Qed.

(** X6. Every value of every parsed row is trimmed: trimming it again
    changes nothing, and it neither starts nor ends with a white-space
    character. *)
Theorem X6_parsed_values_are_trimmed
    (csv : jsstring) (row : Row) (key value : jsstring) :
  row ∈ parseCSV csv ->
  row !! key = Some value ->
  trim value = value
  /\ forall c, head value = Some c \/ last value = Some c ->
               isWhiteSpace c = false.
Proof.
  intros (l & _ & _ & ->)%parseCSV_inv Hv. unfold parseLine in Hv.
  apply assignFields_values in Hv as [Hv|[f ->]];
    [by rewrite lookup_empty in Hv|].
  split; [apply trim_trim|apply trim_ends].
Qed.

Lemma X6_parsed_values_are_trimmed_witness :
  exists row,
    row ∈ parseCSV untidyCsv
    /\ row !! js "CustomerName" = Some (js "Acme")
    /\ trim (js "Acme") = js "Acme".
Proof.
  exists (parseLine (csvHeaders untidyCsv) (js "  Acme  ,Lyon")).
  assert (Hin : parseLine (csvHeaders untidyCsv) (js "  Acme  ,Lyon")
                ∈ parseCSV untidyCsv) by (vm_compute; left).
  assert (Hv : parseLine (csvHeaders untidyCsv) (js "  Acme  ,Lyon")
               !! js "CustomerName" = Some (js "Acme")) by reflexivity.
  split; [exact Hin|]. split; [exact Hv|].
  exact (proj1 (X6_parsed_values_are_trimmed _ _ _ _ Hin Hv)).
Defined.

Lemma parseLines_nil headers lines :
  parseLines headers lines = [] <-> Forall (fun l => trim l = []) lines.
Proof.
  induction lines as [|l lines IH]; simpl; [by split|].
  destruct (trim l) eqn:Hl; simpl.
  - rewrite IH. split; [by constructor|by inversion 1].
  - split; [done|]. inversion 1; congruence.
Qed.

(** X7. What the fatal error of [importData] means for the text: it is
    thrown exactly when every line after the header line is blank
    (empty or white space only, carriage returns apart), in particular
    for the empty text and for a text that is only a header. *)
Theorem X7_import_throws_iff_no_data_line
    (H : Host) (W : World) (csv : jsstring) (st : Store) :
  (importData H W csv st).2 = Threw CsvEmpty
  <-> Forall (fun l => trim l = []) (csvDataLines csv).
Proof.
  assert (Hrows : parseCSV csv = []
                  <-> Forall (fun l => trim l = []) (csvDataLines csv)).
  { unfold parseCSV, csvDataLines.
    destruct (split LF (removeCR csv)) as [|line0 lines]; [done|].
    apply parseLines_nil. }
  rewrite <- Hrows. unfold importData.
  destruct (parseCSV csv) as [|r rows]; [done|].
  destruct (fold_left _ _ _) as [st1 tick1]. simpl. split; discriminate.
Qed.

(** * Further properties of the import *)

(** An invariant of the store that every row keeps, and that saving
    keeps, holds after the import. *)
Lemma importData_invariant (H : Host) (W : World) (P : Store -> Prop)
    csv st :
  (forall st tick row, P st -> P (processRow H W (st, tick) row).1) ->
  (forall st, P st -> P (saveUsers (saveCustomers st))) ->
  P st -> P (importData H W csv st).1.
Proof.
  intros Hrow Hsave Hst. unfold importData.
  destruct (parseCSV csv) as [|r rows]; [done|].
  assert (Hloop : forall rows st tick,
             P st -> P (fold_left (processRow H W) rows (st, tick)).1).
  { clear -Hrow. intros rows. induction rows as [|r rows IH];
      intros st tick Hst; [done|].
    cbn [fold_left]. specialize (Hrow st tick r Hst).
    destruct (processRow H W (st, tick) r) as [st1 tick1]. by apply IH. }
  specialize (Hloop (r :: rows) st 0%nat Hst).
  destruct (fold_left _ _ _) as [st1 tick1]. by apply Hsave.
Qed.

Section Keys.

Context (H : Host) (W : World).

(** Upserting by key keeps the keys unique. *)
Lemma keys_unique_push {A} (key : A -> jsstring) (l : list A) (x : A) :
  NoDup (key <$> l) ->
  Forall (fun y => key y <> key x) l ->
  NoDup (key <$> (l ++ [x])).
Proof.
  intros Hl Hnew. rewrite fmap_app. apply NoDup_app.
  split_and!; [done| |apply NoDup_singleton].
  intros k (y & -> & Hy)%list_elem_of_fmap Heq%list_elem_of_singleton.
  rewrite Forall_forall in Hnew. by apply (Hnew y).
Qed.

Lemma keys_same_update {A} (key : A -> jsstring) (l : list A) i (x y : A) :
  l !! i = Some x -> key y = key x -> key <$> <[i := y]> l = key <$> l.
Proof.
  intros Hi Hkey. rewrite list_fmap_insert, Hkey.
  apply list_insert_id. by rewrite list_lookup_fmap, Hi.
Qed.

Lemma orderExists_partNumbers os partType number :
  orderExists os partType number = false <->
  number ∉ partNumbers partType os.
Proof.
  unfold orderExists, partNumbers. induction os as [|o os IH]; simpl.
  - split; [intros _; apply not_elem_of_nil|done].
  - destruct (partOf partType o) as [part|]; simpl.
    + rewrite not_elem_of_cons, orb_false_iff, IH, bool_decide_eq_false.
      naive_solver.
    + done.
Qed.

Lemma importOrder_numbers_unique row user os tick partType :
  NoDup (partNumbers partType os) ->
  NoDup (partNumbers partType (importOrder H W row user os tick).1).
Proof.
  intros Hos.
  destruct (importOrder_cases H W row user os tick)
    as [[_ ->]|[_ (u & pt & _ & _ & Hfresh & ->)]]; simpl; [done|].
  unfold partNumbers. rewrite omap_app. fold (partNumbers partType os).
  destruct (newOrderFor_part H W row u pt tick)
    as (part & _ & Hnum & _ & Hframes & Hdoors). simpl.
  assert (Hslot : partOf partType (newOrderFor H W row u pt tick).1
                  = if decide (partType = pt) then Some part else None).
  { destruct partType, pt; simpl; by rewrite ?Hframes, ?Hdoors. }
  rewrite Hslot. destruct (decide (partType = pt)) as [->|_]; simpl;
    [|by rewrite app_nil_r].
  apply NoDup_app. split_and!; [done| |apply NoDup_singleton].
  intros n Hn ->%list_elem_of_singleton.
  apply orderExists_partNumbers in Hfresh. by rewrite Hnum in Hn.
Qed.

Lemma backfilledSite_orders row s : orders (backfilledSite row s) = orders s.
Proof. unfold backfilledSite. by destruct (_ && _). Qed.

Lemma backfilledSite_name row s :
  site_name (backfilledSite row s) = site_name s.
Proof. unfold backfilledSite. by destruct (_ && _). Qed.

Lemma backfilledCustomer_name row c :
  customer_name (backfilledCustomer row c) = customer_name c.
Proof. unfold backfilledCustomer. by destruct (_ && _). Qed.

Lemma importSite_names_unique row user ss tick :
  NoDup ((fun s => toLowerCase H (site_name s)) <$> ss) ->
  NoDup ((fun s => toLowerCase H (site_name s))
           <$> (importSite H W row user ss tick).1).
Proof.
  intros Hss. unfold importSite.
  destruct (truthy (rowGet row (js "SiteName"))); [|done].
  destruct (list_find _ ss) as [[j s]|] eqn:Hfind.
  - destruct (importOrder _ _ _ _ _ _) as [os tick1]. simpl.
    apply list_find_Some in Hfind as (Hj & _).
    rewrite (keys_same_update _ ss j s); [done..|].
    simpl. by rewrite backfilledSite_name.
  - destruct (importOrder _ _ _ _ _ _) as [os tick1]. simpl.
    apply keys_unique_push; [done|]. by apply list_find_None in Hfind.
Qed.

Lemma importSite_numbers_unique row user ss tick :
  Forall (fun s => forall pt, NoDup (partNumbers pt (orders s))) ss ->
  Forall (fun s => forall pt, NoDup (partNumbers pt (orders s)))
         (importSite H W row user ss tick).1.
Proof.
  intros Hss. unfold importSite.
  destruct (truthy (rowGet row (js "SiteName"))); [|done].
  destruct (list_find _ ss) as [[j s]|] eqn:Hfind.
  - pose proof (fun pt => importOrder_numbers_unique row user
                    (orders (backfilledSite row s)) tick pt) as Hnew.
    destruct (importOrder _ _ _ _ _ _) as [os tick1]. simpl in *.
    apply list_find_Some in Hfind as (Hj & _).
    apply Forall_insert; [done|]. simpl. intros pt. apply Hnew.
    rewrite backfilledSite_orders.
    by apply (Forall_lookup_1 _ _ _ _ Hss Hj).
  - pose proof (fun pt => importOrder_numbers_unique row user
                    (orders (pushedSite W row tick)) (S tick) pt) as Hnew.
    destruct (importOrder _ _ _ _ _ _) as [os tick1]. simpl in *.
    apply Forall_app. split; [done|]. constructor; [|done]. simpl.
    intros pt. apply Hnew. destruct pt; apply NoDup_nil_2.
Qed.

Lemma importCustomer_keys_unique row user cs tick :
  (customerNamesUnique H cs ->
   customerNamesUnique H (importCustomer H W row user cs tick).1)
  /\ (siteNamesUnique H cs ->
      siteNamesUnique H (importCustomer H W row user cs tick).1)
  /\ (partNumbersUnique cs ->
      partNumbersUnique (importCustomer H W row user cs tick).1).
Proof.
  unfold importCustomer, customerNamesUnique, siteNamesUnique,
    partNumbersUnique.
  destruct (list_find _ cs) as [[i c]|] eqn:Hfind.
  - pose proof (importSite_names_unique row user
                  (sites (backfilledCustomer row c)) tick) as Hnames.
    pose proof (importSite_numbers_unique row user
                  (sites (backfilledCustomer row c)) tick) as Hnumbers.
    destruct (importSite _ _ _ _ _ _) as [ss tick1]. simpl in *.
    apply list_find_Some in Hfind as (Hi & _).
    rewrite backfilledCustomer_sites in Hnames, Hnumbers.
    split_and!.
    + intros Hcs. rewrite (keys_same_update _ cs i c); [done..|].
      simpl. by rewrite backfilledCustomer_name.
    + intros Hcs. apply Forall_insert; [done|]. simpl. apply Hnames.
      by apply (Forall_lookup_1 _ _ _ _ Hcs Hi).
    + intros Hcs. apply Forall_insert; [done|]. simpl. apply Hnumbers.
      by apply (Forall_lookup_1 _ _ _ _ Hcs Hi).
  - pose proof (importSite_names_unique row user
                  (sites (pushedCustomer W row tick)) (S tick)) as Hnames.
    pose proof (importSite_numbers_unique row user
                  (sites (pushedCustomer W row tick)) (S tick)) as Hnumbers.
    destruct (importSite _ _ _ _ _ _) as [ss tick1]. simpl in *.
    split_and!.
    + intros Hcs. apply keys_unique_push; [done|].
      by apply list_find_None in Hfind.
    + intros Hcs. apply Forall_app. split; [done|].
      constructor; [|done]. simpl. apply Hnames, NoDup_nil_2.
    + intros Hcs. apply Forall_app. split; [done|].
      constructor; [|done]. simpl. by apply Hnumbers.
Qed.

Lemma processRow_customers row st tick :
  customers (processRow H W (st, tick) row).1 = customers st
  \/ exists user tick1,
      customers (processRow H W (st, tick) row).1
      = (importCustomer H W row user (customers st) tick1).1.
Proof.
  unfold processRow.
  destruct (truthy (rowGet row (js "CustomerName"))); [right|by left].
  destruct (resolveUser _ _ _ _ _) as [[us user] tick1].
  exists user, tick1. by destruct (importCustomer _ _ _ _ _ _).
Qed.

End Keys.

(** X8. The import keeps each merge key unique in its scope: user
    names in the user list, customer names in the store, site names
    within each customer (all three letter case apart), and part
    numbers within each site and part type.  Each of the four
    invariants, when it holds before the import, holds after it. *)
Theorem X8_import_keeps_merge_keys_unique
    (H : Host) (W : World) (csv : jsstring) (st : Store) :
  (userNamesUnique H (users st) ->
   userNamesUnique H (users (importData H W csv st).1))
  /\ (customerNamesUnique H (customers st) ->
      customerNamesUnique H (customers (importData H W csv st).1))
  /\ (siteNamesUnique H (customers st) ->
      siteNamesUnique H (customers (importData H W csv st).1))
  /\ (partNumbersUnique (customers st) ->
      partNumbersUnique (customers (importData H W csv st).1)).
Proof.
  split_and!.
  - apply importData_keeps_names_unique.
  - intros Hst.
    apply (importData_invariant H W
             (fun st => customerNamesUnique H (customers st))); [|done..].
    intros st' tick row Hst'.
    destruct (processRow_customers H W row st' tick)
      as [->|(user & tick1 & ->)]; [done|].
    by apply importCustomer_keys_unique.
  - intros Hst.
    apply (importData_invariant H W
             (fun st => siteNamesUnique H (customers st))); [|done..].
    intros st' tick row Hst'.
    destruct (processRow_customers H W row st' tick)
      as [->|(user & tick1 & ->)]; [done|].
    by apply importCustomer_keys_unique.
  - intros Hst.
    apply (importData_invariant H W
             (fun st => partNumbersUnique (customers st))); [|done..].
    intros st' tick row Hst'.
    destruct (processRow_customers H W row st' tick)
      as [->|(user & tick1 & ->)]; [done|].
    by apply importCustomer_keys_unique.
Qed.

Lemma X8_import_keeps_merge_keys_unique_witness :
  customerNamesUnique asciiHost
    (customers (importData asciiHost exampleWorld ordersCsv acmeStore).1).
Proof.
  apply (X8_import_keeps_merge_keys_unique asciiHost exampleWorld ordersCsv
           acmeStore).
  apply (bool_decide_unpack _). vm_compute. reflexivity.
Defined.

(** X9. After an import, every customer name that a row of the text
    carries is the name of exactly one customer, letter case apart,
    however many rows carry it, provided customer names were unique
    before. *)
Theorem X9_one_customer_per_imported_name
    (H : Host) (W : World) (csv : jsstring) (st : Store) (row : Row) :
  customerNamesUnique H (customers st) ->
  row ∈ parseCSV csv ->
  truthy (rowGet row (js "CustomerName")) = true ->
  exists i c,
    customers (importData H W csv st).1 !! i = Some c
    /\ sameName H (customer_name c) (rowGet row (js "CustomerName"))
    /\ forall j c',
        customers (importData H W csv st).1 !! j = Some c' ->
        sameName H (customer_name c') (rowGet row (js "CustomerName")) ->
        j = i.
Proof.
  intros Huniq Hin Hname.
  assert (Hafter : customerNamesUnique H (customers (importData H W csv st).1)).
  { apply (importData_invariant H W
             (fun st => customerNamesUnique H (customers st))); [|done..].
    intros st' tick r Hst'.
    destruct (processRow_customers H W r st' tick)
      as [->|(user & tick1 & ->)]; [done|].
    by apply importCustomer_keys_unique. }
  assert (Hsettled : rowSettled H row (importData H W csv st).1).
  { unfold importData. destruct (parseCSV csv) as [|r rows] eqn:Hrows;
      [by apply elem_of_nil in Hin|].
    pose proof (importRows_settles H W (r :: rows) st 0%nat row Hin) as Hs.
    destruct (fold_left _ _ _) as [st1 tick1]. simpl in *.
    eapply rowSettled_ext; [|done]. split; simpl; [done|].
    apply grows_refl, customerExt_refl. }
  destruct Hsettled as [Hno|[_ (i & c & Hfind & _)]]; [congruence|].
  apply list_find_Some in Hfind as (Hi & Hc & _).
  exists i, c. split_and!; [done..|].
  intros j c' Hj Hc'. unfold customerNamesUnique in Hafter.
  eapply (NoDup_lookup _ j i); [done| |].
  - by rewrite list_lookup_fmap, Hj.
  - rewrite list_lookup_fmap, Hi. simpl. unfold sameName in *. congruence.
Qed.

Lemma X9_one_customer_per_imported_name_witness :
  exists i c,
    customers (importData asciiHost exampleWorld ordersCsv acmeStore).1 !! i
    = Some c
    /\ sameName asciiHost (customer_name c) (js "ACME")
    /\ forall j c',
        customers (importData asciiHost exampleWorld ordersCsv acmeStore).1
          !! j = Some c' ->
        sameName asciiHost (customer_name c') (js "ACME") ->
        j = i.
Proof.
  apply (X9_one_customer_per_imported_name asciiHost exampleWorld ordersCsv
           acmeStore
           (parseLine (csvHeaders ordersCsv)
                      (js "ACME,lyon,huisseries,F-001,,viewer,"))).
  - apply (bool_decide_unpack _). vm_compute. reflexivity.
  - apply (bool_decide_unpack _). vm_compute. reflexivity.
  - reflexivity.
Defined.

(** What a row can add to the orders of the store: at most the order
    it creates, for a user of the list it leaves. *)
Lemma processRow_created (H : Host) (W : World) row st tick o :
  o ∈ allOrders (customers (processRow H W (st, tick) row).1) ->
  o ∈ allOrders (customers st)
  \/ createdFor (users (processRow H W (st, tick) row).1) o.
Proof.
  unfold processRow.
  destruct (truthy (rowGet row (js "CustomerName"))) eqn:Hname; [|by left].
  assert (Huser : forall u, (resolveUser H W row (users st) tick).1.2 = Some u ->
                            u ∈ (resolveUser H W row (users st) tick).1.1).
  { destruct (resolveUser_cases H W row (users st) tick)
      as [[_ ->]|[(_ & u & Hin & _ & ->)|(_ & _ & ->)]]; simpl.
    - done.
    - by intros ? [= <-].
    - intros ? [= <-]. apply elem_of_app. right. by left. }
  destruct (resolveUser _ _ _ _ _) as [[us user] tick1]. simpl in Huser.
  destruct (truthy (rowGet row (js "SiteName"))) eqn:Hsite.
  - destruct (importCustomer_frame H W row user (customers st) tick1 Hsite)
      as (before & after & tick' & Hold & Hnew & _).
    destruct (importCustomer _ _ _ _ _ _) as [cs tick2]. simpl in *.
    rewrite Hnew, Hold.
    destruct (importOrder_cases H W row user
                (targetOrders H (customers st) row) tick')
      as [[_ ->]|[Hunsettled (u & pt & -> & Hpt & _ & ->)]]; simpl;
      [by left|].
    rewrite !elem_of_app. intros [?|[[?|Hnewo]|?]]; auto.
    apply list_elem_of_singleton in Hnewo. subst o. right.
    destruct (newOrderFor_part H W row u pt tick')
      as (part & _ & Hnum & _ & Hframes & Hdoors).
    exists u, part. split_and!.
    + by apply Huser.
    + rewrite Hframes, Hdoors. destruct pt; auto.
    + rewrite Hnum. unfold orderSettled in Hunsettled. simpl in Hunsettled.
      destruct (rowGet row (js "OrderNumber")); [|done].
      by rewrite andb_false_r in Hunsettled.
    + unfold newOrderFor in Hframes, Hdoors.
      destruct (creationDateISO _ _ _ _) as [date tick3].
      destruct pt; simpl in *;
        [injection Hframes as <-|injection Hdoors as <-]; done.
    + unfold newOrderFor in Hframes, Hdoors.
      destruct (creationDateISO _ _ _ _) as [date tick3].
      destruct pt; simpl in *;
        [injection Hframes as <-|injection Hdoors as <-]; done.
  - pose proof (importCustomer_no_site H W row user (customers st) tick1 Hsite)
      as Hsame.
    destruct (importCustomer _ _ _ _ _ _) as [cs tick2]. simpl in *.
    rewrite Hsame. by left.
Qed.

Lemma createdFor_prefix us us' o :
  us `prefix_of` us' -> createdFor us o -> createdFor us' o.
Proof.
  intros [more ->] (u & part & Hin & Hrest). exists u, part.
  split; [|done]. apply elem_of_app. by left.
Qed.

(** X10. Every order that an import adds is well formed: exactly one
    of its two slots (frames, doors) holds a part, the part has a
    non-empty number, and its user id and user name are those of a
    user of the list after the import. *)
Theorem X10_imported_orders_are_well_formed
    (H : Host) (W : World) (csv : jsstring) (st : Store) (o : Order) :
  o ∈ allOrders (customers (importData H W csv st).1) ->
  o ∈ allOrders (customers st)
  \/ createdFor (users (importData H W csv st).1) o.
Proof.
  unfold importData. destruct (parseCSV csv) as [|r rows]; [by left|].
  assert (Hloop : forall rows st tick,
             o ∈ allOrders (customers
                              (fold_left (processRow H W) rows (st, tick)).1) ->
             o ∈ allOrders (customers st)
             \/ createdFor (users (fold_left (processRow H W) rows
                                     (st, tick)).1) o).
  { clear. intros rows. induction rows as [|r rows IH]; intros st tick;
      [by left|].
    cbn [fold_left]. intros Hin.
    pose proof (processRow_created H W r st tick o) as Hstep.
    destruct (processRow H W (st, tick) r) as [st1 tick1]. simpl in Hstep.
    destruct (IH st1 tick1 Hin) as [Hold|Hnew]; [|by right].
    destruct (Hstep Hold) as [?|Hcreated]; [by left|right].
    eapply createdFor_prefix; [|done].
    by destruct (importRows_ext H W rows st1 tick1) as [[? _] _]. }
  specialize (Hloop (r :: rows) st 0%nat).
  by destruct (fold_left _ _ _) as [st1 tick1].
Qed.

Lemma X10_imported_orders_are_well_formed_witness :
  Forall (createdFor
            (users (importData asciiHost exampleWorld ordersCsv acmeStore).1))
         (allOrders
            (customers (importData asciiHost exampleWorld ordersCsv
                          acmeStore).1)).
Proof.
  apply Forall_forall. intros o Hin.
  destruct (X10_imported_orders_are_well_formed asciiHost exampleWorld
              ordersCsv acmeStore o Hin) as [Hold|Hnew]; [|exact Hnew].
  vm_compute in Hold. by apply elem_of_nil in Hold.
Defined.

(** X11. The import only adds.  The users before the call are the
    first users after it, unchanged; every customer and every site
    keeps its place, its id, its name and its files; and the orders a
    site had are the first orders it has afterwards, unchanged. *)
Theorem X11_import_only_adds
    (H : Host) (W : World) (csv : jsstring) (st : Store) :
  users st `prefix_of` users (importData H W csv st).1
  /\ forall i c,
      customers st !! i = Some c ->
      exists c',
        customers (importData H W csv st).1 !! i = Some c'
        /\ customer_id c' = customer_id c
        /\ customer_name c' = customer_name c
        /\ forall j s,
            sites c !! j = Some s ->
            exists s',
              sites c' !! j = Some s'
              /\ site_id s' = site_id s
              /\ site_name s' = site_name s
              /\ generalInfoFiles s' = generalInfoFiles s
              /\ orders s `prefix_of` orders s'.
Proof.
  assert (Hext : storeExt st (importData H W csv st).1).
  { unfold importData. destruct (parseCSV csv) as [|r rows];
      [apply storeExt_refl|].
    pose proof (importRows_ext H W (r :: rows) st 0%nat) as [Hext _].
    by destruct (fold_left _ _ _) as [st1 tick1]. }
  destruct Hext as [Hus Hcs]. split; [done|].
  intros i c Hi.
  destruct (grows_lookup _ _ _ i c Hcs Hi)
    as (c' & Hc' & Hid & Hname & _ & Hsites).
  exists c'. split_and!; [done..|].
  intros j s Hj.
  destruct (grows_lookup _ _ _ j s Hsites Hj)
    as (s' & Hs' & ? & ? & ? & _ & ?).
  exists s'. by split_and!.
Qed.

Lemma X11_import_only_adds_witness :
  exists c',
    customers (importData asciiHost exampleWorld collidingCsv
                 orderedStore).1 !! 0%nat = Some c'
    /\ customer_id c' = js "uuid-000"
    /\ customer_name c' = js "Acme".
Proof.
  lazymatch eval vm_compute in (customers orderedStore) with
  | [?c] =>
      destruct (proj2 (X11_import_only_adds asciiHost exampleWorld
                         collidingCsv orderedStore) 0%nat c eq_refl)
        as (c' & Hc' & Hid & Hname & _)
  end.
  exists c'. split; [exact Hc'|]. by rewrite Hid, Hname.
Defined.

(** X12. A successful import writes to localStorage exactly twice,
    the customers and then the users as they are in memory after the
    last row; it leaves the special options alone, and it returns those
    customers and those users, none with a password. *)
Theorem X12_import_persists_and_returns_final_state
    (H : Host) (W : World) (csv : jsstring) (st st' : Store)
    (result : list Customer * list User) :
  importData H W csv st = (st', Returned result) ->
  storageWrites st'
  = WriteUsers (users st') :: WriteCustomers (customers st')
      :: storageWrites st
  /\ specialOptions st' = specialOptions st
  /\ result.1 = customers st'
  /\ result.2 = withoutPassword <$> users st'
  /\ Forall (fun u => user_password u = None) result.2.
Proof.
  unfold importData. destruct (parseCSV csv) as [|r rows]; [done|].
  pose proof (importRows_ext H W (r :: rows) st 0%nat)
    as (_ & Hoptions & Hwrites).
  destruct (fold_left _ _ _) as [st1 tick1]. simpl in *.
  intros [= <- <-]. simpl. rewrite Hwrites, Hoptions.
  split_and!; try done.
  apply Forall_forall. by intros u (v & -> & _)%list_elem_of_fmap.
Qed.

Lemma X12_import_persists_witness :
  exists st' result,
    importData asciiHost exampleWorld ordersCsv acmeStore
    = (st', Returned result)
    /\ List.length (storageWrites st') = 2%nat
    /\ Forall (fun u => user_password u = None) result.2.
Proof.
  destruct (importData asciiHost exampleWorld ordersCsv acmeStore)
    as [st' [result|e]] eqn:Himport; [|vm_compute in Himport; discriminate].
  exists st', result. split; [reflexivity|].
  destruct (X12_import_persists_and_returns_final_state asciiHost exampleWorld
              ordersCsv acmeStore st' result Himport)
    as (Hwrites & _ & _ & _ & Hpw).
  split; [by rewrite Hwrites|exact Hpw].
Defined.

(** * Further properties of the date parser *)

Local Open Scope Z_scope.

Lemma DayFromYear_mono a b : a < b -> DayFromYear a < DayFromYear b.
Proof.
  unfold DayFromYear. intros Hab.
  Z.to_euclidean_division_equations. lia.
Qed.

Lemma YearFromDay_unique y d :
  DayFromYear y <= d < DayFromYear (y + 1) -> YearFromDay d = y.
Proof.
  intros [Hlo Hhi]. pose proof (YearFromDay_spec d) as [Hlo' Hhi'].
  destruct (Z.lt_trichotomy (YearFromDay d) y) as [Hlt|[?|Hgt]]; [|done|].
  - assert (YearFromDay d + 1 <= y) as [Hlt'|Heq]%Z.le_lteq by lia.
    + pose proof (DayFromYear_mono _ _ Hlt'). lia.
    + rewrite Heq in Hhi'. lia.
  - assert (y + 1 <= YearFromDay d) as [Hlt'|Heq]%Z.le_lteq by lia.
    + pose proof (DayFromYear_mono _ _ Hlt'). lia.
    + rewrite <- Heq in Hlo'. lia.
Qed.

Lemma Day_MakeDate day tod :
  Day (MakeDate day tod) = day + tod / msPerDay.
Proof.
  unfold Day, MakeDate. rewrite Z.add_comm, Z.div_add by done. lia.
Qed.

Lemma DayWithinYear_bounds t :
  0 <= DayWithinYear t < DaysInYear (YearFromTime t).
Proof.
  unfold DayWithinYear, YearFromTime.
  pose proof (YearFromDay_spec (Day t)) as [Hlo Hhi].
  rewrite DayFromYear_succ in Hhi. lia.
Qed.

Lemma calendar_of_time t :
  Day t = MakeDay (YearFromTime t) (MonthFromTime t) (DateFromTime t)
  /\ 0 <= MonthFromTime t <= 11
  /\ 1 <= DateFromTime t <= daysInMonth (YearFromTime t) (MonthFromTime t).
Proof.
  pose proof (DayWithinYear_bounds t) as Hd.
  assert (Hday : Day t = DayFromYear (YearFromTime t) + DayWithinYear t)
    by (unfold DayWithinYear; lia).
  unfold DateFromTime, MonthFromTime, InLeapYear, daysInMonth, DaysInYear in *.
  set (d := DayWithinYear t) in *. set (y := YearFromTime t) in *.
  clearbody d y.
  assert (Hmk : forall m dt, 0 <= m <= 11 ->
            MakeDay y m dt
            = DayFromYear y
              + daysBeforeMonth m (if isLeapYear y then 1 else 0) + dt - 1).
  { intros m dt Hm. unfold MakeDay.
    rewrite (Z.div_small m 12), (Z.mod_small m 12), Z.add_0_r by lia. done. }
  destruct (isLeapYear y);
    repeat match goal with
           | |- context [if ?a <? ?b then _ else _] =>
               destruct (Z.ltb_spec a b)
           end;
    (rewrite Hmk by lia; simpl daysBeforeMonth; lia).
Qed.

Lemma daysBeforeMonth_year m leap :
  0 <= m <= 11 -> 0 <= leap <= 1 ->
  0 <= daysBeforeMonth m leap
  /\ daysBeforeMonth m leap
     + match m with 1 => 28 + leap | 3 | 5 | 8 | 10 => 30 | _ => 31 end
     <= 365 + leap.
Proof.
  intros Hm Hleap.
  assert (m = 0 \/ m = 1 \/ m = 2 \/ m = 3 \/ m = 4 \/ m = 5 \/ m = 6
          \/ m = 7 \/ m = 8 \/ m = 9 \/ m = 10 \/ m = 11) as Hcases by lia.
  repeat destruct Hcases as [->|Hcases]; try subst m; simpl; lia.
Qed.

(** The date fields of a real calendar date at a time of day. *)
Lemma time_of_calendar y m dt tod :
  0 <= m <= 11 -> 1 <= dt <= daysInMonth y m -> 0 <= tod < msPerDay ->
  let t := MakeDate (MakeDay y m dt) tod in
  YearFromTime t = y /\ MonthFromTime t = m /\ DateFromTime t = dt.
Proof.
  intros Hm Hdt Htod t.
  assert (Hday : Day t = DayFromYear y
                         + daysBeforeMonth m (if isLeapYear y then 1 else 0)
                         + dt - 1).
  { unfold t. rewrite Day_MakeDate, (Z.div_small tod) by done.
    unfold MakeDay.
    rewrite (Z.div_small m 12), (Z.mod_small m 12), !Z.add_0_r by lia. lia. }
  unfold daysInMonth in Hdt. cbv zeta in Hdt.
  assert (Hleap : 0 <= (if isLeapYear y then 1 else 0) <= 1)
    by (destruct (isLeapYear y); lia).
  pose proof (daysBeforeMonth_year m _ Hm Hleap) as [Hlo Hhi].
  assert (Hyear : YearFromTime t = y).
  { unfold YearFromTime. apply YearFromDay_unique.
    rewrite DayFromYear_succ, Hday. unfold DaysInYear.
    destruct (isLeapYear y); lia. }
  split; [done|].
  unfold MonthFromTime, DateFromTime, MonthFromTime, DayWithinYear, InLeapYear.
  rewrite Hyear, Hday.
  assert (m = 0 \/ m = 1 \/ m = 2 \/ m = 3 \/ m = 4 \/ m = 5 \/ m = 6
          \/ m = 7 \/ m = 8 \/ m = 9 \/ m = 10 \/ m = 11) as Hcases by lia.
  destruct (isLeapYear y);
    repeat destruct Hcases as [->|Hcases]; try subst m;
    simpl daysBeforeMonth in *; cbv beta iota in Hdt;
    repeat match goal with
           | |- context [if ?a <? ?b then _ else _] =>
               destruct (Z.ltb_spec a b); try lia
           end.
Qed.

Lemma isDigit_bounds c : isDigit c = true -> 0 <= Z.of_N c - 48 <= 9.
Proof.
  unfold isDigit. intros [?%N.leb_le ?%N.leb_le]%andb_true_iff. lia.
Qed.

Lemma parseInt_two a b :
  isDigit a = true -> isDigit b = true -> 0 <= parseInt [a; b] <= 99.
Proof.
  intros Ha%isDigit_bounds Hb%isDigit_bounds. unfold parseInt. simpl. lia.
Qed.

Lemma parseInt_four a b c d :
  isDigit a = true -> isDigit b = true -> isDigit c = true ->
  isDigit d = true -> 0 <= parseInt [a; b; c; d] <= 9999.
Proof.
  intros Ha%isDigit_bounds Hb%isDigit_bounds Hc%isDigit_bounds
    Hd%isDigit_bounds.
  unfold parseInt. simpl. lia.
Qed.

(** What the strict pattern captures: two, two and four digits, and
    three times two digits for the time. *)
Lemma matchFrenchDate_fields s p1 p2 p3 time :
  matchFrenchDate s = Some (p1, p2, p3, time) ->
  0 <= parseInt p1 <= 99 /\ 0 <= parseInt p2 <= 99
  /\ 0 <= parseInt p3 <= 9999
  /\ match time with
     | Some (p4, p5, p6) =>
         0 <= parseInt p4 <= 99 /\ 0 <= parseInt p5 <= 99
         /\ 0 <= parseInt p6 <= 99
     | None => True
     end.
Proof.
  unfold matchFrenchDate.
  do 10 (destruct s as [|? s]; [discriminate|]).
  match goal with
  | |- (if ?c then _ else _) = _ -> _ => destruct c eqn:Hdate; [|discriminate]
  end.
  do 9 (apply andb_true_iff in Hdate as [Hdate ?]).
  destruct s as [|sp s].
  - intros [= <- <- <- <-].
    do 3 (split; [auto using parseInt_two, parseInt_four|]). done.
  - do 8 (destruct s as [|? s]; [discriminate|]).
    destruct s; [|discriminate].
    match goal with
    | |- (if ?c then _ else _) = _ -> _ => destruct c eqn:Htime; [|discriminate]
    end.
    do 8 (apply andb_true_iff in Htime as [Htime ?]).
    intros [= <- <- <- <-].
    do 5 (split; [auto using parseInt_two, parseInt_four|]).
    auto using parseInt_two.
Qed.

Lemma daysBeforeMonth_leap m :
  0 <= m <= 11 ->
  0 <= daysBeforeMonth m 1 - daysBeforeMonth m 0 <= 1.
Proof.
  intros Hm.
  assert (m = 0 \/ m = 1 \/ m = 2 \/ m = 3 \/ m = 4 \/ m = 5 \/ m = 6
          \/ m = 7 \/ m = 8 \/ m = 9 \/ m = 10 \/ m = 11) as Hcases by lia.
  repeat destruct Hcases as [->|Hcases]; try subst m; simpl; lia.
Qed.

(** The check of the rebuilt date, on local time values: the date
    fields of [MakeDate (MakeDay yr (month - 1) day) tod] are [year],
    [month - 1] and [day] exactly when the day is a real one of that
    month and year, the time of day stays within the day, and [yr] is
    [year]. *)
Lemma rebuilt_date_check yr year month day tod :
  0 <= tod -> yr = year \/ (year + 3 <= yr) ->
  let local := MakeDate (MakeDay yr (month - 1) day) tod in
  (YearFromTime local = year /\ MonthFromTime local = month - 1
   /\ DateFromTime local = day)
  <-> (yr = year /\ 1 <= month <= 12
       /\ 1 <= day <= daysInMonth year (month - 1) /\ tod < msPerDay).
Proof.
  intros Htod Hyr local. split.
  - intros (Hy & Hm & Hd).
    destruct (calendar_of_time local) as (Hday & Hmonth & Hdate).
    rewrite Hy, Hm, Hd in Hday, Hdate. rewrite Hm in Hmonth.
    unfold local in Hday at 1. rewrite Day_MakeDate in Hday.
    assert (Hq : 0 <= tod / msPerDay) by (apply Z.div_pos; [lia|done]).
    unfold MakeDay in Hday.
    rewrite (Z.div_small (month - 1) 12), (Z.mod_small (month - 1) 12),
      !Z.add_0_r in Hday by lia.
    pose proof (daysBeforeMonth_leap (month - 1) Hmonth) as Hleap.
    assert (Hdbm : forall y,
               daysBeforeMonth (month - 1) 0
               <= daysBeforeMonth (month - 1) (if isLeapYear y then 1 else 0)
               <= daysBeforeMonth (month - 1) 0 + 1)
      by (intros y; destruct (isLeapYear y); lia).
    pose proof (Hdbm yr). pose proof (Hdbm year).
    destruct Hyr as [->|Hfar].
    + split_and!; try lia.
      assert (tod / msPerDay = 0) as Hzero by lia.
      pose proof (Z.div_mod tod msPerDay ltac:(done)) as Hdiv.
      pose proof (Z.mod_pos_bound tod msPerDay ltac:(done)).
      rewrite Hzero in Hdiv. lia.
    + exfalso.
      assert (DayFromYear year < DayFromYear (year + 1)) by (apply DayFromYear_mono; lia).
      assert (DayFromYear (year + 1) < DayFromYear (year + 2)) by (apply DayFromYear_mono; lia).
      assert (DayFromYear (year + 2) <= DayFromYear yr).
      { destruct (Z.eq_dec (year + 2) yr) as [->|?]; [lia|].
        apply Z.lt_le_incl, DayFromYear_mono. lia. }
      lia.
  - intros (-> & Hm & Hd & Hlt).
    apply (time_of_calendar year (month - 1) day tod); lia.
Qed.

(** X13. Which strict-pattern dates are accepted.  On a host in whose
    time zone the written local time exists, a string that matches
    day/month/year (with or without a time) is parsed to that local
    date exactly when the year is at least 100, the day exists in that
    month of that year, and hours, minutes and seconds add up to less
    than 24 hours; otherwise the result is null.  Minutes and seconds
    up to 99 are thus accepted as long as the day does not change, and
    the years 0000 to 0099 never are. *)
Theorem X13_strict_dates_accepted_iff_real
    (H : Host) (s p1 p2 p3 : jsstring)
    (time : option (jsstring * jsstring * jsstring)) :
  truthy s = true ->
  matchFrenchDate (removeFirstComma s) = Some (p1, p2, p3, time) ->
  let day := parseInt p1 in
  let month := parseInt p2 in
  let year := parseInt p3 in
  let tod := match time with
             | Some (p4, p5, p6) =>
                 MakeTime (parseInt p4) (parseInt p5) (parseInt p6) 0
             | None => 0
             end in
  let local :=
    MakeDate (MakeDay (if year <=? 99 then 1900 + year else year)
                      (month - 1) day) tod in
  Z.abs (UTC H local) <= 8640000000000000 ->
  LocalTime H (UTC H local) = local ->
  parseFrenchDateString H s
  = if (100 <=? year) && (1 <=? month) && (month <=? 12) && (1 <=? day)
       && (day <=? daysInMonth year (month - 1)) && (tod <? msPerDay)
    then Some (UTC H local) else None.
Proof.
  intros Hs Hmatch day month year tod local Hclip Hlocal.
  destruct (matchFrenchDate_fields _ _ _ _ _ Hmatch)
    as (Hday & Hmonth & Hyear & Htime).
  rewrite (parseFrenchDateString_strict H s p1 p2 p3 time Hs Hmatch).
  fold day month year.
  assert (Htod : 0 <= tod).
  { unfold tod. destruct time as [[[p4 p5] p6]|]; [|done].
    unfold MakeTime, msPerHour, msPerMinute, msPerSecond. lia. }
  assert (Hnew : newDate H year (month - 1) day
                   match time with Some (p4, _, _) => parseInt p4 | None => 0 end
                   match time with Some (_, p5, _) => parseInt p5 | None => 0 end
                   match time with Some (_, _, p6) => parseInt p6 | None => 0 end
                 = Some (UTC H local)).
  { unfold newDate.
    assert (Hsame : MakeDate
                      (MakeDay (if (0 <=? year) && (year <=? 99)
                                then 1900 + year else year) (month - 1) day)
                      (MakeTime
                         match time with Some (p4, _, _) => parseInt p4 | None => 0 end
                         match time with Some (_, p5, _) => parseInt p5 | None => 0 end
                         match time with Some (_, _, p6) => parseInt p6 | None => 0 end
                         0)
                    = local).
    { unfold local, tod. replace (0 <=? year) with true by (symmetry; apply Z.leb_le; lia).
      simpl andb. by destruct time as [[[p4 p5] p6]|]. }
    rewrite Hsame. unfold TimeClip.
    destruct (Z.gtb_spec (Z.abs (UTC H local)) 8640000000000000); [lia|done]. }
  rewrite Hnew. unfold getFullYear, getMonth, getDate. rewrite Hlocal.
  pose proof (rebuilt_date_check
                (if year <=? 99 then 1900 + year else year)
                year month day tod Htod) as Hcheck.
  fold local in Hcheck. cbv zeta in Hcheck.
  assert (Hyr : (if year <=? 99 then 1900 + year else year) = year
                \/ year + 3 <= (if year <=? 99 then 1900 + year else year))
    by (destruct (Z.leb_spec year 99); lia).
  specialize (Hcheck Hyr).
  destruct ((100 <=? year) && (1 <=? month) && (month <=? 12) && (1 <=? day)
            && (day <=? daysInMonth year (month - 1)) && (tod <? msPerDay))
    eqn:Hcond.
  - repeat (apply andb_true_iff in Hcond as [Hcond ?]).
    assert (Hok : YearFromTime local = year /\ MonthFromTime local = month - 1
                  /\ DateFromTime local = day).
    { apply Hcheck. destruct (Z.leb_spec year 99); lia. }
    destruct Hok as (-> & -> & ->). by rewrite !Z.eqb_refl.
  - destruct (Z.eqb_spec (YearFromTime local) year) as [Hy|]; [|done].
    destruct (Z.eqb_spec (MonthFromTime local) (month - 1)) as [Hm|]; [|done].
    destruct (Z.eqb_spec (DateFromTime local) day) as [Hd|]; [|done].
    exfalso. destruct Hcheck as [Hcheck _].
    destruct (Hcheck (conj Hy (conj Hm Hd))) as (Hyr' & ? & ? & ?).
    assert (100 <= year) by (destruct (Z.leb_spec year 99); lia).
    assert (Htrue : (100 <=? year) && (1 <=? month) && (month <=? 12)
                    && (1 <=? day) && (day <=? daysInMonth year (month - 1))
                    && (tod <? msPerDay) = true).
    { repeat (apply andb_true_iff; split); lia. }
    congruence.
Qed.

Lemma X13_strict_dates_accepted_witness :
  parseFrenchDateString asciiHost (js "29/02/2024, 22:99:99")
  = Some (MakeDate (MakeDay 2024 1 29) (MakeTime 23 40 39 0))
  /\ parseFrenchDateString asciiHost (js "29/02/2023") = None.
Proof.
  split.
  - rewrite (X13_strict_dates_accepted_iff_real asciiHost
               (js "29/02/2024, 22:99:99") (js "29") (js "02") (js "2024")
               (Some (js "22", js "99", js "99")));
      [reflexivity..| |reflexivity].
    vm_compute. discriminate.
  - rewrite (X13_strict_dates_accepted_iff_real asciiHost
               (js "29/02/2023") (js "29") (js "02") (js "2023") None);
      [reflexivity..| |reflexivity].
    vm_compute. discriminate.
Defined.

Local Close Scope Z_scope.
(** * Properties of the user operations *)

Lemma NoDup_map_filter {A B} (f : A -> B) (P : A -> Prop)
    `{!forall x, Decision (P x)} (l : list A) :
  NoDup (List.map f l) -> NoDup (List.map f (filter P l)).
Proof.
  induction l as [|x l IH]; simpl; [done|].
  intros [Hx Hl]%NoDup_cons. rewrite filter_cons.
  destruct (decide (P x)); [|by apply IH]. simpl.
  apply NoDup_cons. split; [|by apply IH].
  intros (y & Hy & [_ Hin]%list_elem_of_In%list_elem_of_filter)%list_elem_of_In%in_map_iff.
  apply Hx. apply list_elem_of_In, in_map_iff. exists y.
  split; [done|]. by apply list_elem_of_In.
Qed.

(** X14. [addUser], [signup] and [deleteUser] keep the invariant of the
    user list: no two users with the same name or the same email,
    letter case apart. *)
Theorem X14_user_calls_keep_users_unique
    (H : Host) (W : World) (st : Store)
    (name email password id : jsstring) (role : UserRole) :
  uniqueUsers H (users st) ->
  uniqueUsers H (users (addUser H W name email password role st).1)
  /\ uniqueUsers H (users (signup H W name email password st).1)
  /\ uniqueUsers H (users (deleteUser id st)).
Proof.
  intros Huniq. split_and!.
  - by apply addUser_keeps_users_unique.
  - by apply signup_keeps_users_unique.
  - destruct Huniq as [Hnames Hemails]. split; simpl;
      by apply NoDup_map_filter.
Qed.

Lemma X14_user_calls_keep_users_unique_witness :
  uniqueUsers asciiHost (users seedStore)
  /\ uniqueUsers asciiHost
       (users (addUser asciiHost exampleWorld (js "Zoe") (js "zoe@example.com")
                 (js "secret") Editor seedStore).1).
Proof.
  assert (Hseed : uniqueUsers asciiHost (users seedStore))
    by (apply (bool_decide_unpack _); vm_compute; reflexivity).
  split; [exact Hseed|].
  exact (proj1 (X14_user_calls_keep_users_unique asciiHost exampleWorld
                  seedStore (js "Zoe") (js "zoe@example.com") (js "secret")
                  [] Editor Hseed)).
Defined.

(** Rewriting the one user of a given id keeps a key unique when the
    new key is not the key of another user. *)
Lemma update_by_id_keeps_keys (key : User -> jsstring) (g : User -> User)
    (id : jsstring) (us : list User) :
  NoDup (user_id <$> us) ->
  NoDup (key <$> us) ->
  (forall u v, u ∈ us -> v ∈ us -> user_id u = id -> user_id v <> id ->
               key v <> key (g u)) ->
  NoDup (key <$> ((fun u => if decide (user_id u = id) then g u else u)
                    <$> us)).
Proof.
  induction us as [|a us IH]; [done|].
  rewrite !fmap_cons. intros [Hida Hids]%NoDup_cons [Hka Hks]%NoDup_cons Hfresh.
  assert (IH' : NoDup (key <$> ((fun u => if decide (user_id u = id)
                                          then g u else u) <$> us))).
  { apply IH; [done..|]. intros u v Hu Hv. apply Hfresh; by right. }
  apply NoDup_cons. split; [|done].
  intros (w & Hw & (v & -> & Hv)%list_elem_of_fmap)%list_elem_of_fmap.
  destruct (decide (user_id a = id)) as [Ha|Ha];
    destruct (decide (user_id v = id)) as [Hv'|Hv'].
  - apply Hida. apply list_elem_of_fmap. exists v. split; [congruence|done].
  - apply (Hfresh a v); [by left|by right|done..].
  - apply (Hfresh v a); [by right|by left|done..].
  - apply Hka. apply list_elem_of_fmap. by exists v.
Qed.

(** X15. [updateUser] keeps user names and emails unique, letter case
    apart, when user ids are unique and the update does not set the
    name or the email to the empty string (an empty value skips the
    check that guards it). *)
Theorem X15_updateUser_keeps_users_unique
    (H : Host) (id : jsstring) (updates : UserUpdates) (st : Store) :
  uniqueUsers H (users st) ->
  NoDup (user_id <$> users st) ->
  new_user_name updates <> Some [] ->
  new_user_email updates <> Some [] ->
  uniqueUsers H (users (updateUser H id updates st).1).
Proof.
  intros [Hnames Hemails] Hids Hname Hemail. unfold updateUser.
  destruct (match new_user_name updates with Some _ => _ | None => _ end)
    eqn:HnameTaken; [by split|].
  destruct (match new_user_email updates with Some _ => _ | None => _ end)
    eqn:HemailTaken; [by split|].
  simpl. unfold uniqueUsers.
  change (NoDup ((fun u => toLowerCase H (user_name u)) <$> users st))
    in Hnames.
  change (NoDup ((fun u => toLowerCase H (user_email u)) <$> users st))
    in Hemails.
  split.
  - apply (update_by_id_keeps_keys (fun u => toLowerCase H (user_name u)));
      [done..|].
    intros u v Hu Hv Hidu Hidv. simpl.
    destruct (new_user_name updates) as [n|] eqn:Hn; simpl.
    + destruct n as [|ch n]; [done|]. simpl in HnameTaken.
      apply bool_decide_eq_false in HnameTaken. intros Hsame.
      apply HnameTaken, Exists_exists. by exists v.
    + intros Hsame. assert (u = v) as ->; [|done].
      apply list_elem_of_lookup in Hu as [i Hi].
      apply list_elem_of_lookup in Hv as [j Hj].
      assert (j = i) as ->; [|congruence].
      eapply (NoDup_lookup _ j i); [exact Hnames|..];
        rewrite list_lookup_fmap; [by rewrite Hj|rewrite Hi; simpl; by rewrite Hsame].
  - apply (update_by_id_keeps_keys (fun u => toLowerCase H (user_email u)));
      [done..|].
    intros u v Hu Hv Hidu Hidv. simpl.
    destruct (new_user_email updates) as [n|] eqn:Hn; simpl.
    + destruct n as [|ch n]; [done|]. simpl in HemailTaken.
      apply bool_decide_eq_false in HemailTaken. intros Hsame.
      apply HemailTaken, Exists_exists. by exists v.
    + intros Hsame. assert (u = v) as ->; [|done].
      apply list_elem_of_lookup in Hu as [i Hi].
      apply list_elem_of_lookup in Hv as [j Hj].
      assert (j = i) as ->; [|congruence].
      eapply (NoDup_lookup _ j i); [exact Hemails|..];
        rewrite list_lookup_fmap; [by rewrite Hj|rewrite Hi; simpl; by rewrite Hsame].
Qed.
Lemma X15_updateUser_keeps_users_unique_witness :
  uniqueUsers asciiHost
    (users (updateUser asciiHost (js "viewer-1")
              {| new_user_id := None; new_user_name := Some (js "Vera");
                 new_user_email := None; new_user_role := Some Editor;
                 new_user_password := Some [] |} seedStore).1).
Proof.
  apply (X15_updateUser_keeps_users_unique asciiHost (js "viewer-1") _
           seedStore).
  - apply (bool_decide_unpack _). vm_compute. reflexivity.
  - apply (bool_decide_unpack _). vm_compute. reflexivity.
  - discriminate.
  - discriminate.
Defined.

(** X16. Signing up and then logging in.  After a successful [signup],
    [login] with the new name and the password returns the new user and
    stores it as the session, provided no earlier user has that name as
    email, letter case apart: [login] takes the first user whose name
    or email matches, so such an earlier user would be tried instead.
    The same holds for logging in with the new email when no earlier
    user has it as name. *)
Theorem X16_signup_then_login
    (H : Host) (W : World) (name email password : jsstring)
    (st st' : Store) (u : User) (session : Session) :
  signup H W name email password st = (st', Returned u) ->
  (Forall (fun v => ~ sameName H (user_email v) name) (users st) ->
   login H name password true st' session = (Some u, Done u))
  /\ (Forall (fun v => ~ sameName H (user_name v) email) (users st) ->
      login H email password true st' session = (Some u, Done u)).
Proof.
  unfold signup.
  case_bool_decide as Hname; [discriminate|].
  case_bool_decide as Hemail; [discriminate|].
  intros [= <- <-].
  rewrite <- Forall_Exists_neg in Hname, Hemail.
  set (newUser := {| user_id := randomUUID W 0; user_name := name;
                     user_email := email; user_role := Viewer;
                     user_password := Some password |}).
  split; intros Hcross; unfold login; simpl.
  - rewrite (list_find_pushed _ (users st) newUser).
    + by rewrite bool_decide_eq_true_2.
    + apply list_find_None, Forall_forall. intros v Hv [?|?].
      * by eapply (proj1 (Forall_forall _ _) Hname).
      * by eapply (proj1 (Forall_forall _ _) Hcross).
    + by left.
  - rewrite (list_find_pushed _ (users st) newUser).
    + by rewrite bool_decide_eq_true_2.
    + apply list_find_None, Forall_forall. intros v Hv [?|?].
      * by eapply (proj1 (Forall_forall _ _) Hcross).
      * by eapply (proj1 (Forall_forall _ _) Hemail).
    + by right.
Qed.

Lemma X16_signup_then_login_witness :
  exists st' u,
    signup asciiHost exampleWorld (js "Zoe") (js "zoe@example.com")
           (js "secret") seedStore = (st', Returned u)
    /\ Forall (fun v => ~ sameName asciiHost (user_email v) (js "Zoe"))
              (users seedStore)
    /\ login asciiHost (js "Zoe") (js "secret") true st' None
       = (Some u, Done u).
Proof.
  eexists _, _. split; [reflexivity|].
  assert (Hcross : Forall (fun v => ~ sameName asciiHost (user_email v)
                                      (js "Zoe")) (users seedStore))
    by (repeat constructor; vm_compute; discriminate).
  split; [exact Hcross|].
  exact (proj1 (X16_signup_then_login asciiHost exampleWorld
                  (js "Zoe") (js "zoe@example.com") (js "secret")
                  seedStore _ _ None eq_refl) Hcross).
Defined.

(** The users that the import creates all carry the default
    password. *)
Lemma importData_new_users (H : Host) (W : World) csv st :
  exists more,
    users (importData H W csv st).1 = users st ++ more
    /\ Forall (fun u => user_password u = Some (js "password")) more.
Proof.
  assert (Hrow : forall st tick row,
             exists more,
               users (processRow H W (st, tick) row).1 = users st ++ more
               /\ Forall (fun u => user_password u = Some (js "password"))
                         more).
  { clear. intros st tick row. unfold processRow.
    destruct (truthy (rowGet row (js "CustomerName")));
      [|exists []; by rewrite app_nil_r].
    destruct (resolveUser_cases H W row (users st) tick)
      as [[_ ->]|[(_ & u & _ & _ & ->)|(_ & _ & ->)]];
      destruct (importCustomer _ _ _ _ _ _) as [cs tick2]; simpl.
    - exists []. by rewrite app_nil_r.
    - exists []. by rewrite app_nil_r.
    - eexists. split; [done|]. by constructor. }
  unfold importData. destruct (parseCSV csv) as [|r rows];
    [exists []; by rewrite app_nil_r|].
  assert (Hloop : forall rows st tick,
             exists more,
               users (fold_left (processRow H W) rows (st, tick)).1
               = users st ++ more
               /\ Forall (fun u => user_password u = Some (js "password"))
                         more).
  { clear -Hrow. intros rows. induction rows as [|r rows IH]; intros st tick.
    - exists []. by rewrite app_nil_r.
    - cbn [fold_left]. destruct (Hrow st tick r) as (m1 & Hm1 & Hp1).
      destruct (processRow H W (st, tick) r) as [st1 tick1]. simpl in *.
      destruct (IH st1 tick1) as (m2 & Hm2 & Hp2).
      exists (m1 ++ m2). rewrite Hm2, Hm1, app_assoc. split; [done|].
      by apply Forall_app. }
  destruct (Hloop (r :: rows) st 0%nat) as (more & Hmore & Hpw).
  destruct (fold_left _ _ _) as [st1 tick1]. simpl in *. by exists more.
Qed.

(** X17. Logging in as an imported user.  When a row of the text names
    a customer and assigns an order to a user name that no user matches
    by name or by email, then after the import anyone can [login] with
    that name and the default password of the import, the literal
    [password]: the call returns a user and stores the session. *)
Theorem X17_imported_user_logs_in_with_default_password
    (H : Host) (W : World) (csv : jsstring) (st : Store) (row : Row)
    (session : Session) :
  row ∈ parseCSV csv ->
  truthy (rowGet row (js "CustomerName")) = true ->
  truthy (rowGet row (js "OrderAssignedUser")) = true ->
  Forall (fun v =>
            ~ sameName H (user_name v) (rowGet row (js "OrderAssignedUser"))
            /\ ~ sameName H (user_email v)
                  (rowGet row (js "OrderAssignedUser")))
         (users st) ->
  exists u,
    login H (rowGet row (js "OrderAssignedUser")) (js "password") true
          (importData H W csv st).1 session
    = (Some u, Done u).
Proof.
  intros Hin Hcust Hassigned Hnew.
  assert (Hsettled : rowSettled H row (importData H W csv st).1).
  { unfold importData. destruct (parseCSV csv) as [|r rows] eqn:Hrows;
      [by apply elem_of_nil in Hin|].
    pose proof (importRows_settles H W (r :: rows) st 0%nat row Hin) as Hs.
    destruct (fold_left _ _ _) as [st1 tick1]. simpl in *.
    eapply rowSettled_ext; [|done]. split; simpl; [done|].
    apply grows_refl, customerExt_refl. }
  destruct Hsettled as [Hno|[Huser _]]; [congruence|].
  specialize (Huser Hassigned).
  destruct (importData_new_users H W csv st) as (more & Hmore & Hpw).
  unfold login. rewrite Hmore in *.
  set (P := fun u => sameName H (user_name u)
                       (rowGet row (js "OrderAssignedUser"))
                     \/ sameName H (user_email u)
                         (rowGet row (js "OrderAssignedUser"))).
  assert (Hold : list_find P (users st) = None).
  { apply list_find_None. eapply Forall_impl; [exact Hnew|].
    intros v [? ?] [?|?]; done. }
  assert (Hfound : is_Some (list_find P more)).
  { apply Exists_app in Huser as [Hst|Hmore'].
    - apply Exists_exists in Hst as (v & Hv & Hsame).
      rewrite Forall_forall in Hnew. by destruct (Hnew v Hv).
    - apply Exists_exists in Hmore' as (v & Hv & Hsame).
      apply (list_find_elem_of P more v); [done|by left]. }
  destruct Hfound as [[i u] Hfind].
  rewrite (list_find_app_r P _ _ Hold), Hfind. simpl.
  apply list_find_Some in Hfind as (Hi & _).
  rewrite Forall_forall in Hpw.
  rewrite bool_decide_eq_true_2
    by (apply Hpw; by eapply list_elem_of_lookup_2).
  by eexists.
Qed.

Lemma X17_imported_user_logs_in_witness :
  exists u,
    login asciiHost (js "Jean Dupont") (js "password") true
          (importData asciiHost exampleWorld collidingCsv seedStore).1 None
    = (Some u, Done u).
Proof.
  apply (X17_imported_user_logs_in_with_default_password asciiHost
           exampleWorld collidingCsv seedStore
           (parseLine (csvHeaders collidingCsv) (js "Acme,Jean Dupont")) None).
  - apply (bool_decide_unpack _). vm_compute. reflexivity.
  - reflexivity.
  - reflexivity.
  - repeat constructor; vm_compute; discriminate.
Defined.

(** * Properties of the calls on sites and orders *)

Lemma locateSite_Some cs customerId siteId i c j s :
  locateSite cs customerId siteId = Some (i, c, j, s) ->
  list_find (fun c => customer_id c = customerId) cs = Some (i, c)
  /\ list_find (fun s => site_id s = siteId) (sites c) = Some (j, s).
Proof.
  unfold locateSite. intros Hloc.
  destruct (list_find _ cs) as [[i0 c0]|]; [|done].
  destruct (list_find _ (sites c0)) as [[j0 s0]|] eqn:Hs; [|done].
  by simplify_eq.
Qed.

Lemma locateSite_lookup cs customerId siteId i c j s :
  locateSite cs customerId siteId = Some (i, c, j, s) ->
  cs !! i = Some c /\ sites c !! j = Some s /\ site_id s = siteId.
Proof.
  intros [Hc Hs]%locateSite_Some.
  apply list_find_Some in Hc as (? & _). apply list_find_Some in Hs as (? & ? & _).
  done.
Qed.

(** A site that was written back with its id is located again, at the
    same place. *)
Lemma locateSite_putSite cs customerId siteId i c j s s' :
  locateSite cs customerId siteId = Some (i, c, j, s) ->
  site_id s' = siteId ->
  locateSite (putSite cs i c j s') customerId siteId
  = Some (i, setSites c (<[j := s']> (sites c)), j, s').
Proof.
  intros [Hc Hs]%locateSite_Some Hid. unfold locateSite, putSite.
  rewrite (list_find_updated _ _ _ _ (setSites c (<[j := s']> (sites c))) Hc).
  2: { simpl. by apply list_find_Some in Hc as (_ & ? & _). }
  simpl. by rewrite (list_find_updated _ _ _ _ s' Hs).
Qed.

Lemma putSite_putSite cs i c j s1 s2 :
  putSite (putSite cs i c j s1) i (setSites c (<[j := s1]> (sites c))) j s2
  = putSite cs i c j s2.
Proof.
  unfold putSite. simpl. by rewrite !list_insert_insert_eq.
Qed.

Lemma putSite_same cs i c j s :
  cs !! i = Some c -> sites c !! j = Some s -> putSite cs i c j s = cs.
Proof.
  intros Hi Hj. unfold putSite.
  rewrite (list_insert_id (sites c)) by done.
  rewrite setSites_same. by apply list_insert_id.
Qed.

(** The orders of the store around those of one site. *)
Lemma allOrders_putSite cs i c j s :
  cs !! i = Some c -> sites c !! j = Some s ->
  exists before after,
    allOrders cs = before ++ orders s ++ after
    /\ forall s', allOrders (putSite cs i c j s')
                  = before ++ orders s' ++ after.
Proof.
  intros Hi Hj.
  exists (allOrders (take i cs) ++ siteOrders (take j (sites c))),
         (siteOrders (drop (S j) (sites c)) ++ allOrders (drop (S i) cs)).
  split.
  - pose proof (take_drop_middle cs i c Hi) as Hcs.
    pose proof (take_drop_middle (sites c) j s Hj) as Hss.
    rewrite <- Hcs at 1. unfold allOrders. rewrite bind_app, bind_cons.
    rewrite <- Hss at 1. unfold siteOrders. rewrite bind_app, bind_cons.
    by rewrite <- !app_assoc.
  - intros s'. unfold putSite.
    rewrite insert_take_drop by (by eapply lookup_lt_Some).
    unfold allOrders. rewrite bind_app, bind_cons. simpl.
    rewrite insert_take_drop by (by eapply lookup_lt_Some).
    unfold siteOrders. rewrite bind_app, bind_cons.
    by rewrite <- !app_assoc.
Qed.

Lemma partOf_setPart part o p : partOf part (setPart part o p) = Some p.
Proof. by destruct part. Qed.

Lemma setPart_setPart part o p q :
  setPart part (setPart part o p) q = setPart part o q.
Proof. by destruct part. Qed.

Lemma setPart_same part o p : partOf part o = Some p -> setPart part o p = o.
Proof. destruct part, o; simpl; by intros ->. Qed.

Lemma order_id_setPart part o p : order_id (setPart part o p) = order_id o.
Proof. by destruct part. Qed.

(** The call on a part that exists. *)
Lemma mutatePart_found f customerId siteId orderId part st i c j s k o p :
  locateSite (customers st) customerId siteId = Some (i, c, j, s) ->
  list_find (fun o => order_id o = orderId) (orders s) = Some (k, o) ->
  partOf part o = Some p ->
  mutatePart true f customerId siteId orderId part st
  = (saveCustomers
       (setCustomers st
          (putSite (customers st) i c j
             (setOrders s (<[k := setPart part o (f p)]> (orders s))))),
     Some (setPart part o (f p))).
Proof. intros Hl Ho Hp. unfold mutatePart. by rewrite Hl, Ho, Hp. Qed.

Lemma mutatePart_ext f g customerId siteId orderId part st :
  (forall p, f p = g p) ->
  mutatePart true f customerId siteId orderId part st
  = mutatePart true g customerId siteId orderId part st.
Proof.
  intros Hfg. unfold mutatePart.
  destruct (locateSite _ _ _) as [[[[i c] j] s]|]; [|done].
  destruct (list_find _ _) as [[k o]|]; [|done].
  destruct (partOf part o) as [p|]; [|done].
  by rewrite Hfg.
Qed.

(** Two calls on the same part are one call with the two changes. *)
Lemma mutatePart_twice f g customerId siteId orderId part st :
  customers (mutatePart true g customerId siteId orderId part
               (mutatePart true f customerId siteId orderId part st).1).1
  = customers (mutatePart true (fun p => g (f p))
                 customerId siteId orderId part st).1
  /\ (mutatePart true g customerId siteId orderId part
        (mutatePart true f customerId siteId orderId part st).1).2
     = (mutatePart true (fun p => g (f p))
          customerId siteId orderId part st).2.
Proof.
  destruct (locateSite (customers st) customerId siteId)
    as [[[[i c] j] s]|] eqn:Hl.
  2: { unfold mutatePart. rewrite Hl. simpl. by rewrite Hl. }
  destruct (list_find (fun o => order_id o = orderId) (orders s))
    as [[k o]|] eqn:Ho.
  2: { unfold mutatePart. rewrite Hl, Ho. simpl. by rewrite Hl, Ho. }
  destruct (partOf part o) as [p|] eqn:Hp.
  2: { unfold mutatePart. rewrite Hl, Ho, Hp. simpl. by rewrite Hl, Ho, Hp. }
  rewrite (mutatePart_found f _ _ _ _ _ _ _ _ _ _ _ _ Hl Ho Hp).
  rewrite (mutatePart_found (fun p => g (f p)) _ _ _ _ _ _ _ _ _ _ _ _
             Hl Ho Hp).
  cbn [fst snd].
  set (o1 := setPart part o (f p)).
  set (s1 := setOrders s (<[k := o1]> (orders s))).
  set (st1 := saveCustomers
                (setCustomers st (putSite (customers st) i c j s1))).
  assert (Hl1 : locateSite (customers st1) customerId siteId
                = Some (i, setSites c (<[j := s1]> (sites c)), j, s1)).
  { eapply locateSite_putSite; [exact Hl|]. simpl.
    by apply locateSite_lookup in Hl as (_ & _ & ?). }
  assert (Ho1 : list_find (fun o => order_id o = orderId) (orders s1)
                = Some (k, o1)).
  { simpl. eapply list_find_updated; [exact Ho|]. unfold o1.
    rewrite order_id_setPart. by apply list_find_Some in Ho as (_ & ? & _). }
  assert (Hp1 : partOf part o1 = Some (f p)) by apply partOf_setPart.
  rewrite (mutatePart_found g _ _ _ _ st1 _ _ _ _ _ _ _ Hl1 Ho1 Hp1).
  simpl. unfold o1.
  by rewrite putSite_putSite, list_insert_insert_eq, setPart_setPart.
Qed.

(** A call that changes nothing in the part. *)
Lemma mutatePart_fixed f customerId siteId orderId part st :
  (forall p, f p = p) ->
  customers (mutatePart true f customerId siteId orderId part st).1
  = customers st
  /\ (mutatePart true f customerId siteId orderId part st).2
     = findOrder (customers st) customerId siteId orderId.
Proof.
  intros Hf. unfold mutatePart, findOrder.
  destruct (locateSite _ _ _) as [[[[i c] j] s]|] eqn:Hl; [|done].
  destruct (list_find _ _) as [[k o]|] eqn:Ho; [|done].
  destruct (partOf part o) as [p|] eqn:Hp; [|done].
  simpl. rewrite Hf, (setPart_same _ _ _ Hp). split; [|done].
  rewrite list_insert_id by (by apply list_find_Some in Ho as (? & _)).
  rewrite setOrders_same.
  apply locateSite_lookup in Hl as (? & ? & _). by apply putSite_same.
Qed.

(** X18. Toggling the sent flag of a part twice, with the same ids,
    restores the customers as they were, whatever the ids match.  When
    the ids match an order, the promise of the second call resolves to
    that order as it was before the first call; when they match none,
    the second call passes [undefined] to [simulateNetwork] and its
    promise never settles. *)
Theorem X18_toggling_twice_restores_the_order
    (customerId siteId orderId : jsstring) (part : PartType) (st : Store) :
  let st1 := (toggleOrderStatus customerId siteId orderId part st).1 in
  customers (toggleOrderStatus customerId siteId orderId part st1).1
  = customers st
  /\ simulateNetwork
       (toggleOrderStatus customerId siteId orderId part st1).2
     = match findOrder (customers st) customerId siteId orderId with
       | Some o => Resolves o
       | None => NeverSettles
       end.
Proof.
  intros st1. subst st1. unfold toggleOrderStatus.
  destruct (mutatePart_twice toggleSent toggleSent
              customerId siteId orderId part st) as [-> ->].
  destruct (mutatePart_fixed (fun p => toggleSent (toggleSent p))
              customerId siteId orderId part st) as [-> ->];
    [by intros [? [] ? ? ? ?]|].
  split; [done|]. by destruct (findOrder _ _ _ _).
Qed.

(** X19. The last write to a part wins: changing the number, or the
    notes, of a part twice leaves the customers, and hands back the
    order, as the second change alone does. *)
Theorem X19_last_write_to_a_part_wins
    (customerId siteId orderId : jsstring) (part : PartType)
    (first second : jsstring) (st : Store) :
  let afterNumber :=
    (updateOrder customerId siteId orderId part first st).1 in
  let afterNotes :=
    (updateOrderNotes customerId siteId orderId part first st).1 in
  (customers (updateOrder customerId siteId orderId part second
                afterNumber).1
   = customers (updateOrder customerId siteId orderId part second st).1
   /\ (updateOrder customerId siteId orderId part second afterNumber).2
      = (updateOrder customerId siteId orderId part second st).2)
  /\ (customers (updateOrderNotes customerId siteId orderId part second
                   afterNotes).1
      = customers (updateOrderNotes customerId siteId orderId part second
                     st).1
      /\ (updateOrderNotes customerId siteId orderId part second
            afterNotes).2
         = (updateOrderNotes customerId siteId orderId part second st).2).
Proof.
  intros afterNumber afterNotes. subst afterNumber afterNotes.
  unfold updateOrder, updateOrderNotes. split.
  - destruct (mutatePart_twice (fun p => setNumber p first)
                (fun p => setNumber p second)
                customerId siteId orderId part st) as [-> ->].
    by rewrite (mutatePart_ext _ (fun p => setNumber p second)).
  - destruct (mutatePart_twice (fun p => setPartNotes p first)
                (fun p => setPartNotes p second)
                customerId siteId orderId part st) as [-> ->].
    by rewrite (mutatePart_ext _ (fun p => setPartNotes p second)).
Qed.

(** X20. What [addOrder] does.  A call that fails leaves the store as
    it was.  A call that succeeds keeps the users and creates one or
    two orders: none of their parts is sent, each is an order as one
    is created for a user of the store (one part, with a number, under
    the id and the name of that user), the orders of the store are
    those it had and the new ones, and the customers are saved. *)
Theorem X20_addOrder_outcome
    (W : World) (customerId siteId framesNumber doorsNumber userId : jsstring)
    (st : Store) :
  match addOrder W customerId siteId framesNumber doorsNumber userId st with
  | (st', Failed _) => st' = st
  | (st', Done newOrders) =>
      users st' = users st
      /\ (1 <= length newOrders <= 2)%nat
      /\ Forall (createdFor (users st)) newOrders
      /\ Forall (fun o => forall part p,
                   partOf part o = Some p -> part_isSent p = false)
                newOrders
      /\ allOrders (customers st') ≡ₚ allOrders (customers st) ++ newOrders
      /\ head (storageWrites st') = Some (WriteCustomers (customers st'))
  end.
Proof.
  unfold addOrder.
  destruct (locateSite _ _ _) as [[[[i c] j] s]|] eqn:Hl; [|done].
  destruct (list_find _ (users st)) as [[n user]|] eqn:Hu; [|done].
  apply list_find_Some in Hu as (Hu%list_elem_of_lookup_2 & _).
  apply locateSite_lookup in Hl as (Hi & Hj & _).
  destruct (allOrders_putSite _ _ _ _ _ Hi Hj)
    as (before & after & Hall & Hput).
  assert (Hcreated : forall part number tick,
             truthy (trim number) = true ->
             createdFor (users st) (orderFor W part number user tick)).
  { intros part number tick Hnumber. eexists user, _.
    split; [done|]. split; [destruct part; [left|right]; done|].
    simpl. split; [|done]. intros Hnil. by rewrite Hnil in Hnumber. }
  assert (Hfresh : forall part number tick part' p,
             partOf part' (orderFor W part number user tick) = Some p ->
             part_isSent p = false).
  { intros [] number tick [] p; simpl; by intros [= <-]. }
  destruct (truthy (trim framesNumber)) eqn:Hframes,
           (truthy (trim doorsNumber)) eqn:Hdoors; simpl; [| | |done].
  all: split; [done|]; split; [lia|].
  all: split; [repeat constructor; by apply Hcreated|].
  all: split; [repeat constructor; by apply Hfresh|].
  all: split; [|done].
  all: rewrite Hput, Hall; simpl; rewrite <- !app_assoc.
  all: do 2 f_equiv; apply Permutation_app_comm.
Qed.

(** X21. [addOrder] does not look for the number in the site: a call
    with a frames number (or a doors number) that a part of the same
    kind already has in that site succeeds, and leaves the site with
    two parts of that number. *)
Theorem X21_addOrder_accepts_a_number_in_use
    (W : World) (customerId siteId framesNumber doorsNumber userId : jsstring)
    (st : Store) (i j : nat) (c : Customer) (s : ConstructionSite) :
  locateSite (customers st) customerId siteId = Some (i, c, j, s) ->
  is_Some (list_find (fun u => user_id u = userId) (users st)) ->
  (truthy (trim framesNumber) = true
   /\ trim framesNumber ∈ partNumbers Frames (orders s))
  \/ (truthy (trim doorsNumber) = true
      /\ trim doorsNumber ∈ partNumbers Doors (orders s)) ->
  exists st' newOrders,
    addOrder W customerId siteId framesNumber doorsNumber userId st
    = (st', Done newOrders)
    /\ ~ partNumbersUnique (customers st').
Proof.
  intros Hl [[n user] Hu] Hused. unfold addOrder. rewrite Hl, Hu.
  assert (Hsome : negb (truthy (trim framesNumber))
                  && negb (truthy (trim doorsNumber)) = false).
  { destruct Hused as [[-> _]|[-> _]]; [done|]. apply andb_false_r. }
  rewrite Hsome. eexists _, _. split; [done|]. simpl.
  apply locateSite_lookup in Hl as (Hi & Hj & _).
  intros Hunique. unfold partNumbersUnique, putSite in Hunique.
  rewrite Forall_lookup in Hunique.
  specialize (Hunique i _ (list_lookup_insert_eq _ _ _
                             (lookup_lt_Some _ _ _ Hi))).
  simpl in Hunique. rewrite Forall_lookup in Hunique.
  specialize (Hunique j _ (list_lookup_insert_eq _ _ _
                             (lookup_lt_Some _ _ _ Hj))).
  simpl in Hunique.
  destruct Hused as [[Hframes Hin]|[Hdoors Hin]].
  - specialize (Hunique Frames). rewrite Hframes in Hunique.
    unfold partNumbers in Hunique, Hin.
    rewrite !omap_app in Hunique. simpl in Hunique.
    apply NoDup_app in Hunique as (_ & Hdisjoint & _).
    apply (Hdisjoint _ Hin). by left.
  - specialize (Hunique Doors). rewrite Hdoors in Hunique.
    unfold partNumbers in Hunique, Hin.
    rewrite !omap_app in Hunique.
    apply NoDup_app in Hunique as (_ & Hdisjoint & _).
    apply (Hdisjoint _ Hin).
    destruct (truthy (trim framesNumber)); simpl; by left.
Qed.

Lemma X21_addOrder_accepts_a_number_in_use_witness :
  exists st' newOrders,
    addOrder exampleWorld (js "uuid-000") (js "uuid-000") (js " F-1 ") []
             (js "viewer-1") orderedStore
    = (st', Done newOrders)
    /\ ~ partNumbersUnique (customers st').
Proof.
  eapply (X21_addOrder_accepts_a_number_in_use exampleWorld
            (js "uuid-000") (js "uuid-000") (js " F-1 ") [] (js "viewer-1")
            orderedStore).
  - reflexivity.
  - by eexists.
  - left. split; [reflexivity|].
    apply (bool_decide_unpack _). vm_compute. reflexivity.
Defined.

(** X22. [deleteOrder] removes from the site every order of the given
    id, and nothing else: afterwards the three ids find no order, the
    users are the same, and the orders of the store are those it had,
    in the same sequence, without some whose id is the given one. *)
Theorem X22_deleted_order_is_gone
    (customerId siteId orderId : jsstring) (st : Store) :
  let st' := deleteOrder customerId siteId orderId st in
  findOrder (customers st') customerId siteId orderId = None
  /\ users st' = users st
  /\ allOrders (customers st') `sublist_of` allOrders (customers st)
  /\ forall o, o ∈ allOrders (customers st) -> order_id o <> orderId ->
               o ∈ allOrders (customers st').
Proof.
  intros st'. subst st'. unfold deleteOrder, findOrder.
  destruct (locateSite (customers st) customerId siteId)
    as [[[[i c] j] s]|] eqn:Hl.
  2: { by rewrite Hl. }
  simpl.
  pose proof (locateSite_lookup _ _ _ _ _ _ _ Hl) as (Hi & Hj & Hid).
  erewrite locateSite_putSite; [|exact Hl|done]. simpl.
  split.
  { destruct (list_find _ (filter _ _)) as [[k o]|] eqn:Ho; [|done].
    apply list_find_Some in Ho as (Hk & Hsame & _).
    by apply list_elem_of_lookup_2, list_elem_of_filter in Hk as [Hne _]. }
  split; [done|].
  destruct (allOrders_putSite _ _ _ _ _ Hi Hj)
    as (before & after & Hall & Hput).
  rewrite Hput, Hall. simpl. split.
  - apply sublist_app; [done|]. apply sublist_app; [|done].
    apply sublist_filter.
  - intros o Hin Hne. rewrite !elem_of_app in Hin. rewrite !elem_of_app.
    destruct Hin as [?|[?|?]]; [by left| |by right; right].
    right. left. by apply list_elem_of_filter.
Qed.

Lemma filter_all {A} (P : A -> Prop) `{!forall x, Decision (P x)}
    (l : list A) :
  Forall P l -> filter P l = l.
Proof.
  induction 1 as [|x l Hx _ IH]; [done|].
  by rewrite filter_cons_True, IH.
Qed.

(** X23. Deleting the site that [addSite] has just made restores the
    customers, provided the id drawn for it is the id of no site of
    the store.  (Without that, the call deletes the older sites of
    that id in the customer as well.) *)
Theorem X23_deleting_the_site_just_added
    (W : World) (customerId name : jsstring) (st st1 : Store)
    (site : ConstructionSite) :
  addSite W customerId name st = (st1, Done site) ->
  Forall (fun c => Forall (fun s => site_id s <> site_id site) (sites c))
         (customers st) ->
  customers (deleteSite customerId (site_id site) st1) = customers st.
Proof.
  unfold addSite, deleteSite.
  destruct (list_find _ (customers st)) as [[i c]|] eqn:Hc; [|done].
  intros [= <- <-] Hfresh. simpl.
  set (c1 := setSites c _).
  rewrite (list_find_updated _ _ _ _ c1 Hc).
  2: { simpl. by apply list_find_Some in Hc as (_ & ? & _). }
  apply list_find_Some in Hc as (Hi & _).
  simpl. rewrite list_insert_insert_eq, filter_app.
  rewrite filter_all
    by (rewrite Forall_lookup in Hfresh; by apply (Hfresh i c)).
  rewrite filter_cons_False, filter_nil, app_nil_r by (simpl; tauto).
  unfold setSites; simpl. fold (setSites c (sites c)).
  rewrite setSites_same. by apply list_insert_id.
Qed.

Lemma X23_deleting_the_site_just_added_witness :
  exists st1 site,
    addSite laterWorld (js "uuid-000") (js "Paris") siteStore
    = (st1, Done site)
    /\ customers (deleteSite (js "uuid-000") (site_id site) st1)
       = customers siteStore.
Proof.
  eexists _, _. split; [reflexivity|].
  apply (X23_deleting_the_site_just_added laterWorld (js "uuid-000")
           (js "Paris") siteStore _ _ eq_refl).
  repeat constructor; vm_compute; discriminate.
Defined.

(** X24. Deleting the customer that [addCustomer] has just made, or
    the special option that [addSpecialOption] has just made, restores
    the list, provided the id drawn is the id of no record of the
    list. *)
Theorem X24_deleting_what_was_just_added
    (W : World) (name : jsstring) (st : Store) :
  (Forall (fun c => customer_id c <> randomUUID W 0) (customers st) ->
   customers (deleteCustomer (customer_id (addCustomer W name st).2)
                (addCustomer W name st).1)
   = customers st)
  /\ (Forall (fun o => option_id o <> randomUUID W 0) (specialOptions st) ->
      specialOptions
        (deleteSpecialOption (option_id (addSpecialOption W name st).2)
           (addSpecialOption W name st).1)
      = specialOptions st).
Proof.
  split; intros Hfresh; simpl; rewrite filter_app, filter_all by done.
  all: by rewrite filter_cons_False, filter_nil, app_nil_r
         by (simpl; tauto).
Qed.

Lemma X24_deleting_what_was_just_added_witness :
  customers (deleteCustomer
               (customer_id (addCustomer laterWorld (js "Bati") siteStore).2)
               (addCustomer laterWorld (js "Bati") siteStore).1)
  = customers siteStore
  /\ specialOptions
       (deleteSpecialOption
          (option_id (addSpecialOption laterWorld (js "Bati") siteStore).2)
          (addSpecialOption laterWorld (js "Bati") siteStore).1)
     = specialOptions siteStore.
Proof.
  destruct (X24_deleting_what_was_just_added laterWorld (js "Bati")
              siteStore) as [Hcustomers Hoptions].
  split; [apply Hcustomers|apply Hoptions].
  - repeat constructor; vm_compute; discriminate.
  - constructor.
Defined.

(** Changing a part of an order keeps the order well formed, when the
    new part has a number and names a user of the list. *)
Lemma createdFor_setPart us o part p q u :
  createdFor us o -> partOf part o = Some p ->
  u ∈ us -> part_number q <> [] ->
  part_userId q = user_id u -> part_userName q = user_name u ->
  createdFor us (setPart part o q).
Proof.
  intros (u0 & p0 & _ & Hshape & _) Hp Hu Hnumber Hid Hname.
  exists u, q. split; [done|]. split; [|done].
  destruct part, Hshape as [[Hf Hd]|[Hf Hd]]; simpl in *;
    [by left|congruence|congruence|by right].
Qed.

Lemma createdFor_same_user us o part p q :
  createdFor us o -> partOf part o = Some p ->
  part_number q <> [] ->
  part_userId q = part_userId p -> part_userName q = part_userName p ->
  createdFor us (setPart part o q).
Proof.
  intros Ho Hp Hnumber Hid Hname.
  pose proof Ho as (u & p0 & Hu & Hshape & _ & Hid0 & Hname0).
  assert (p0 = p) as ->
    by (destruct part, Hshape as [[Hf Hd]|[Hf Hd]]; simpl in *; congruence).
  apply (createdFor_setPart us o part p q u); congruence.
Qed.

(** A property of orders that the change of a part preserves holds of
    every order after the call. *)
Lemma mutatePart_keeps (Q : Order -> Prop) guard f
    customerId siteId orderId part st :
  (forall o p, Q o -> partOf part o = Some p -> Q (setPart part o (f p))) ->
  Forall Q (allOrders (customers st)) ->
  Forall Q (allOrders
              (customers
                 (mutatePart guard f customerId siteId orderId part st).1)).
Proof.
  intros Hf Hall. unfold mutatePart.
  destruct (locateSite _ _ _) as [[[[i c] j] s]|] eqn:Hl; [|done].
  destruct (list_find _ _) as [[k o]|] eqn:Ho; [|done].
  destruct (partOf part o) as [p|] eqn:Hp; [|done].
  destruct guard; [|done]. simpl.
  apply locateSite_lookup in Hl as (Hi & Hj & _).
  destruct (allOrders_putSite _ _ _ _ _ Hi Hj)
    as (before & after & Hbefore & Hput).
  rewrite Hput. rewrite Hbefore in Hall.
  apply Forall_app in Hall as (? & (Hs & ?)%Forall_app).
  apply Forall_app. split; [done|]. apply Forall_app. split; [|done].
  simpl. apply Forall_insert; [done|]. apply Hf; [|done].
  apply list_find_Some in Ho as (Hk & _).
  rewrite Forall_lookup in Hs. by apply (Hs k).
Qed.

(** X25. The calls that change a part keep every order of the store
    well formed (one part, with a number, under the id and the name
    of a user of the store): toggling the sent flag, writing the
    notes, assigning the part to a user id, known or not, and writing
    a number that is not empty.  ([updateOrder] accepts the empty
    number.) *)
Theorem X25_part_updates_keep_orders_well_formed
    (customerId siteId orderId : jsstring) (part : PartType) (st : Store) :
  Forall (createdFor (users st)) (allOrders (customers st)) ->
  let wellFormed (st' : Store) :=
    users st' = users st
    /\ Forall (createdFor (users st)) (allOrders (customers st')) in
  wellFormed (toggleOrderStatus customerId siteId orderId part st).1
  /\ (forall notes,
        wellFormed (updateOrderNotes customerId siteId orderId part
                      notes st).1)
  /\ (forall userId,
        wellFormed (updateOrderUser customerId siteId orderId part
                      userId st).1)
  /\ (forall newNumber,
        newNumber <> [] ->
        wellFormed (updateOrder customerId siteId orderId part
                      newNumber st).1).
Proof.
  intros Hall wellFormed. subst wellFormed.
  assert (Husers : forall guard f,
             users (mutatePart guard f customerId siteId orderId part st).1
             = users st).
  { intros guard f. unfold mutatePart.
    destruct (locateSite _ _ _) as [[[[i c] j] s]|]; [|done].
    destruct (list_find _ _) as [[k o]|]; [|done].
    destruct (partOf part o) as [p|]; [|done]. by destruct guard. }
  assert (Hsame : forall f,
             (forall p, part_number (f p) = part_number p
                        /\ part_userId (f p) = part_userId p
                        /\ part_userName (f p) = part_userName p) ->
             Forall (createdFor (users st))
               (allOrders
                  (customers
                     (mutatePart true f customerId siteId orderId part
                        st).1))).
  { intros f Hf. apply mutatePart_keeps; [|done].
    intros o p Ho Hp. destruct (Hf p) as (Hnumber & Hid & Hname).
    apply (createdFor_same_user _ _ _ p); [done..| |done|done].
    rewrite Hnumber. destruct Ho as (u & p0 & _ & Hshape & ? & _).
    assert (p0 = p) as ->; [|done].
    destruct part, Hshape as [[? ?]|[? ?]]; simpl in *; congruence. }
  split; [|split; [|split]].
  - split; [apply Husers|]. by apply Hsame.
  - intros notes. split; [apply Husers|]. by apply Hsame.
  - intros userId. unfold updateOrderUser.
    destruct (list_find _ (users st)) as [[n user]|] eqn:Hu;
      (split; [apply Husers|]).
    2: { apply mutatePart_keeps; [|done]. intros o p Ho Hp.
         by rewrite (setPart_same _ _ _ Hp). }
    apply list_find_Some in Hu as (Hu%list_elem_of_lookup_2 & _).
    apply mutatePart_keeps; [|done]. intros o p Ho Hp.
    apply (createdFor_setPart _ _ _ p _ user); [done..| |done|done].
    simpl. destruct Ho as (u & p0 & _ & Hshape & ? & _).
    assert (p0 = p) as ->; [|done].
    destruct part, Hshape as [[? ?]|[? ?]]; simpl in *; congruence.
  - intros newNumber Hnumber. split; [apply Husers|].
    apply mutatePart_keeps; [|done]. intros o p Ho Hp.
    by apply (createdFor_same_user _ _ _ p).
Qed.

Lemma X25_part_updates_keep_orders_well_formed_witness :
  users (updateOrderUser (js "uuid-000") (js "uuid-000") (js "uuid-101")
           Frames (js "viewer-1") orderedStore).1
  = users orderedStore
  /\ Forall (createdFor (users orderedStore))
       (allOrders
          (customers
             (updateOrderUser (js "uuid-000") (js "uuid-000") (js "uuid-101")
                Frames (js "viewer-1") orderedStore).1)).
Proof.
  assert (Hall : Forall (createdFor (users orderedStore))
                   (allOrders (customers orderedStore))).
  { lazymatch eval vm_compute in (users orderedStore) with
    | [_; ?u; _] =>
        vm_compute; constructor; [|constructor; [|constructor]];
        exists u; eexists;
        (split; [right; left|]);
        (split; [first [left; split; reflexivity|right; split; reflexivity]|]);
        (split; [discriminate|split; reflexivity])
    end. }
  exact (proj1 (proj2 (proj2
           (X25_part_updates_keep_orders_well_formed (js "uuid-000")
              (js "uuid-000") (js "uuid-101") Frames orderedStore Hall)))
           (js "viewer-1")).
Defined.

(** X26. No call hands out a password: the users that [getUsers],
    [addUser], [signup], [updateUser], [login] and [importData] return
    carry none, and neither does the session that [login] stores. *)
Theorem X26_no_call_hands_out_a_password
    (H : Host) (W : World) (st : Store) :
  Forall (fun u => user_password u = None) (getUsers st)
  /\ (forall name email password role st' u,
        addUser H W name email password role st = (st', Returned u) ->
        user_password u = None)
  /\ (forall name email password st' u,
        signup H W name email password st = (st', Returned u) ->
        user_password u = None)
  /\ (forall id updates st' u,
        updateUser H id updates st = (st', Returned (Some u)) ->
        user_password u = None)
  /\ (forall name password writable session session' u,
        login H name password writable st session = (session', Done u) ->
        user_password u = None /\ session' = Some u)
  /\ (forall csv st' cs us,
        importData H W csv st = (st', Returned (cs, us)) ->
        Forall (fun u => user_password u = None) us).
Proof.
  split_and!.
  - unfold getUsers. apply Forall_fmap, Forall_true. done.
  - intros name email password role st' u. unfold addUser.
    repeat case_bool_decide; try done. by intros [= _ <-].
  - intros name email password st' u. unfold signup.
    repeat case_bool_decide; try done. by intros [= _ <-].
  - intros id updates st' u. unfold updateUser.
    destruct (match new_user_name updates with Some _ => _ | None => _ end);
      [done|].
    destruct (match new_user_email updates with Some _ => _ | None => _ end);
      [done|].
    intros [= _ Hlast]. apply last_Some in Hlast as (l & Hl).
    assert (Hin : u ∈ (fun u => withoutPassword (userWithUpdates updates u))
                      <$> filter (fun u => user_id u = id) (users st))
      by (rewrite Hl; apply elem_of_app; right; by left).
    by apply list_elem_of_fmap in Hin as (v & -> & _).
  - intros name password writable session session' u. unfold login.
    destruct (list_find _ _) as [[n user]|]; [|done].
    case_bool_decide; [|done]. destruct writable; [|done].
    by intros [= <- <-].
  - intros csv st' cs us. unfold importData.
    destruct (parseCSV csv) as [|r rows]; [done|].
    destruct (fold_left _ _ _) as [st1 tick1]. intros [= _ _ <-].
    change (List.map withoutPassword ?l) with (withoutPassword <$> l).
    by apply Forall_fmap, Forall_true.
Qed.

Lemma siteOrders_fmap (f : ConstructionSite -> ConstructionSite)
    (ss : list ConstructionSite) :
  (forall s, orders (f s) = orders s) -> siteOrders (f <$> ss) = siteOrders ss.
Proof.
  intros Hf. unfold siteOrders.
  induction ss as [|s ss IH]; [done|].
  rewrite fmap_cons, !bind_cons. by rewrite Hf, IH.
Qed.

Lemma allOrders_fmap (f : Customer -> Customer) (cs : list Customer) :
  (forall c, siteOrders (sites (f c)) = siteOrders (sites c)) ->
  allOrders (f <$> cs) = allOrders cs.
Proof.
  intros Hf. unfold allOrders.
  induction cs as [|c cs IH]; [done|].
  rewrite fmap_cons, !bind_cons. by rewrite Hf, IH.
Qed.

Lemma allOrders_insert cs i c c' :
  cs !! i = Some c ->
  siteOrders (sites c') = siteOrders (sites c) ->
  allOrders (<[i := c']> cs) = allOrders cs.
Proof.
  intros Hi Hsame.
  rewrite <- (take_drop_middle cs i c Hi) at 2.
  rewrite insert_take_drop by (by eapply lookup_lt_Some).
  unfold allOrders. by rewrite !bind_app, !bind_cons, Hsame.
Qed.

(** X27. An update of a customer that carries no sites, and an update
    of a site that carries no orders, leave every order of the store
    as it was, whichever records the id matches. *)
Theorem X27_updates_without_orders_keep_the_orders
    (customerId siteId : jsstring) (toCustomer : CustomerUpdates)
    (toSite : SiteUpdates) (st : Store) :
  (new_customer_sites toCustomer = None ->
   allOrders (customers (updateCustomer customerId toCustomer st).1)
   = allOrders (customers st))
  /\ (new_orders toSite = None ->
      allOrders (customers (updateSite customerId siteId toSite st).1)
      = allOrders (customers st)).
Proof.
  split.
  - intros Hnone. simpl. apply allOrders_fmap. intros c.
    destruct (decide _); [|done]. simpl. by rewrite Hnone.
  - intros Hnone. unfold updateSite.
    destruct (list_find _ _) as [[i c]|] eqn:Hc; [|done]. simpl.
    apply list_find_Some in Hc as (Hi & _).
    apply (allOrders_insert _ _ c); [done|]. simpl.
    apply siteOrders_fmap. intros s.
    destruct (decide _); [|done]. simpl. by rewrite Hnone.
Qed.

Lemma X27_updates_without_orders_witness :
  allOrders
    (customers
       (updateCustomer (js "uuid-000")
          {| new_customer_id := None; new_customer_name := Some (js "Acme SA");
             new_customer_sites := None; new_customer_notes := None |}
          orderedStore).1)
  = allOrders (customers orderedStore)
  /\ allOrders
       (customers
          (updateSite (js "uuid-000") (js "uuid-000")
             {| new_site_id := None; new_site_name := Some (js "Lyon 3");
                new_generalInfo := None; new_generalInfoFiles := None;
                new_orders := None |}
             orderedStore).1)
     = allOrders (customers orderedStore).
Proof.
  split.
  - by apply (proj1 (X27_updates_without_orders_keep_the_orders
                       (js "uuid-000") [] _
                       {| new_site_id := None; new_site_name := None;
                          new_generalInfo := None;
                          new_generalInfoFiles := None;
                          new_orders := None |} orderedStore)).
  - by apply (proj2 (X27_updates_without_orders_keep_the_orders
                       (js "uuid-000") (js "uuid-000")
                       {| new_customer_id := None; new_customer_name := None;
                          new_customer_sites := None;
                          new_customer_notes := None |} _ orderedStore)).
Defined.

(** X28. After an update that changes the id, the promise of
    [updateSite] and of [updateSpecialOption] never settles: both look
    the record up again, by the old id, after the update, no record
    has that id any more, and the [undefined] that they find is what
    they pass to [simulateNetwork].  ([updateCustomer] keeps the
    record it has updated and passes that.) *)
Theorem X28_changing_the_id_never_settles
    (customerId id id' : jsstring) (toSite : SiteUpdates)
    (toOption : OptionUpdates) (st : Store) :
  id' <> id ->
  (new_site_id toSite = Some id' ->
   simulateNetwork (updateSite customerId id toSite st).2 = NeverSettles)
  /\ (new_option_id toOption = Some id' ->
      simulateNetwork (updateSpecialOption id toOption st).2
      = NeverSettles).
Proof.
  intros Hne.
  cut ((new_site_id toSite = Some id' ->
        (updateSite customerId id toSite st).2 = None)
       /\ (new_option_id toOption = Some id' ->
           (updateSpecialOption id toOption st).2 = None)).
  { intros [Hsite Hoption].
    split; intros Hnew; [rewrite Hsite|rewrite Hoption]; done. }
  split; intros Hnew.
  - unfold updateSite.
    destruct (list_find _ (customers st)) as [[i c]|]; [|done]. simpl.
    rewrite (proj2 (list_find_None _ _)); [done|].
    apply Forall_fmap, Forall_true. intros s. simpl.
    destruct (decide _); [|done]. simpl. by rewrite Hnew.
  - unfold updateSpecialOption. simpl.
    rewrite (proj2 (list_find_None _ _)); [done|].
    apply Forall_fmap, Forall_true. intros o. simpl.
    destruct (decide _); [|done]. simpl. by rewrite Hnew.
Qed.

Lemma X28_changing_the_id_witness :
  simulateNetwork
    (updateSite (js "uuid-000") (js "uuid-000")
       {| new_site_id := Some (js "site-1"); new_site_name := None;
          new_generalInfo := None; new_generalInfoFiles := None;
          new_orders := None |}
       orderedStore).2 = NeverSettles.
Proof.
  apply (X28_changing_the_id_never_settles (js "uuid-000")
           (js "uuid-000") (js "site-1") _
           {| new_option_id := None; new_option_name := None;
              new_option_details := None; new_option_files := None |}
           orderedStore); [discriminate|reflexivity].
Defined.
